(** * Dynamic Weather Dashboard: a shallow embedding of [script.js]

    The development follows the script top to bottom:

    - [JS]: the fragment of JavaScript's Number type the script computes
      with.  A finite number is the rational a double stands for, and the
      sum, difference, product and quotient of two numbers are the exact
      ones rounded to the nearest double, a tie going to the even
      significand and an overflow to an infinity, as IEEE-754 binary64
      has it.  The three non-finite values are kept, so that [Math.max()]
      of no argument, [0 / 0] and the like are what they are in
      JavaScript.  The sign of zero is not part of this model.  The
      module [Binary64] runs the same operations on the kernel's IEEE-754
      floats and checks the rounding of [JS] against them.
    - [Dates]: [Date.prototype.toDateString] for a given local time zone.
    - [Obj]: objects used as dictionaries, with their insertion order.
    - [Forecast]: [groupForecastByDay] and its properties.
    - [Dashboard]: the global state, the DOM elements the script writes,
      the fetch and geolocation collaborators, the functions of the script
      as statements over that state, and the event loop.  An [async]
      function runs to its end once called: what it awaits from the
      provider is answered on the spot by the environment.  The outcome of
      a geolocation request comes as an event of its own. *)

From Stdlib Require Import List String Ascii ZArith QArith Qround Qabs Qminmax.
From Stdlib Require Import Qpower Qreduction Lia Lqa Bool Permutation Sorted.
From Stdlib Require Import DecimalString DecimalPos DecimalN.
From Stdlib Require PrimFloat Uint63 FloatOps.
Import ListNotations.

Set Implicit Arguments.

(* ================================================================== *)
(** ** JavaScript numbers                                              *)
(* ================================================================== *)

Module JS.
Local Open Scope Q_scope.

Inductive Number : Type :=
| Num (q : Q)
| PosInfinity
| NegInfinity
| NaN.

Definition ofZ (z : Z) : Number := Num (inject_Z z).

(** The infinity with the sign of [c]; an operation of an infinity with a
    zero is [NaN]. *)
Definition infinityOf (c : comparison) : Number :=
  match c with
  | Gt => PosInfinity
  | Lt => NegInfinity
  | Eq => NaN
  end.

(** *** Rounding to binary64 *)

Unset Implicit Arguments.

(** [2^e] *)
Definition pow2 (e : Z) : Q :=
  match e with
  | Zneg p => 1 # (2 ^ p)
  | _ => inject_Z (2 ^ e)
  end.

Lemma pow2_Qpower e : pow2 e == 2 ^ e.
Proof.
  destruct e as [|p|p]; unfold pow2.
  - reflexivity.
  - rewrite Zpower_Qpower by lia. reflexivity.
  - change (Zneg p) with (- Zpos p)%Z. rewrite Qpower_opp.
    rewrite <- (Zpower_Qpower 2 (Zpos p)) by lia.
    rewrite <- (Pos2Z.inj_pow 2 p). reflexivity.
Qed.

Lemma pow2_pos e : 0 < pow2 e.
Proof. rewrite pow2_Qpower. apply Qpower_0_lt. reflexivity. Qed.

Lemma pow2_plus a b : pow2 (a + b) == pow2 a * pow2 b.
Proof. rewrite !pow2_Qpower. apply Qpower_plus. discriminate. Qed.

Lemma pow2_le a b : (a <= b)%Z -> pow2 a <= pow2 b.
Proof. intros H. rewrite !pow2_Qpower. apply Qpower_le_compat_l; [exact H | discriminate]. Qed.

Lemma pow2_lt a b : (a < b)%Z -> pow2 a < pow2 b.
Proof. intros H. rewrite !pow2_Qpower. apply Qpower_lt_compat_l; [exact H | reflexivity]. Qed.

Lemma pow2_lt_inv a b : pow2 a < pow2 b -> (a < b)%Z.
Proof. rewrite !pow2_Qpower. intros H. apply (Qpower_lt_compat_l_inv 2); [exact H | reflexivity]. Qed.

Lemma pow2_Z e : (0 <= e)%Z -> pow2 e = inject_Z (2 ^ e).
Proof. destruct e; try reflexivity. lia. Qed.

Lemma pow2_succ e : pow2 (e + 1) == 2 * pow2 e.
Proof. rewrite pow2_plus. change (pow2 1) with 2. ring. Qed.

(** The exponent of the binade of [q <> 0]: [2^k <= |q| < 2^(k+1)]. *)
Definition ilog2 (q : Q) : Z :=
  let k := (Z.log2 (Z.abs (Qnum q)) - Z.log2 (Zpos (Qden q)))%Z in
  if Qle_bool (pow2 k) (Qabs q) then k else (k - 1)%Z.

Lemma Qabs_frac q : Qabs q == inject_Z (Z.abs (Qnum q)) / inject_Z (Zpos (Qden q)).
Proof.
  destruct q as [n d]. unfold Qabs. simpl Qnum. simpl Qden.
  rewrite (Qmake_Qdiv (Z.abs n) d). reflexivity.
Qed.

Lemma pow2_sub a b : pow2 (a - b) == pow2 a / pow2 b.
Proof.
  assert (H : pow2 a == pow2 (a - b) * pow2 b)
    by (rewrite <- pow2_plus; now replace (a - b + b)%Z with a by lia).
  rewrite H. field. pose proof (pow2_pos b). lra.
Qed.

Lemma inject_Z_pos z : (0 < z)%Z -> 0 < inject_Z z.
Proof. intros H. unfold Qlt. simpl. lia. Qed.

Lemma ilog2_bracket (X K K1 K2 Pa Pb N D : Q) :
  0 < D -> Pb <= D -> D < 2 * Pb -> 0 < Pb -> Pa <= N -> N < 2 * Pa ->
  0 < Pa -> K * Pb == Pa -> K1 * 2 == K -> K2 == 2 * K -> 0 < K ->
  X * D == N -> 0 <= X -> K1 < X /\ X < K2.
Proof. intros. split; nra. Qed.

Lemma ilog2_spec q :
  ~ q == 0 -> pow2 (ilog2 q) <= Qabs q /\ Qabs q < pow2 (ilog2 q + 1).
Proof.
  intros Hq. unfold ilog2.
  set (n := Z.abs (Qnum q)). set (d := Zpos (Qden q)).
  assert (Hn : (0 < n)%Z).
  { unfold n. destruct q as [[|p|p] dq]; simpl; try lia.
    exfalso. apply Hq. reflexivity. }
  assert (Hd : (0 < d)%Z) by (unfold d; lia).
  pose proof (Z.log2_spec n Hn) as [Hn1 Hn2].
  pose proof (Z.log2_spec d Hd) as [Hd1 Hd2].
  set (a := Z.log2 n) in *. set (b := Z.log2 d) in *.
  assert (Ha : (0 <= a)%Z) by apply Z.log2_nonneg.
  assert (Hb : (0 <= b)%Z) by apply Z.log2_nonneg.
  assert (Habs : Qabs q == inject_Z n / inject_Z d) by apply Qabs_frac.
  assert (HdQ : 0 < inject_Z d) by now apply inject_Z_pos.
  assert (HX : Qabs q * inject_Z d == inject_Z n)
    by (rewrite Habs; field; lra).
  assert (HPa : 0 < inject_Z (2 ^ a))
    by (apply inject_Z_pos, Z.pow_pos_nonneg; lia).
  assert (HPb : 0 < inject_Z (2 ^ b))
    by (apply inject_Z_pos, Z.pow_pos_nonneg; lia).
  rewrite Zle_Qle in Hn1, Hd1. rewrite Zlt_Qlt in Hn2, Hd2.
  rewrite Z.pow_succ_r, inject_Z_mult in Hn2, Hd2 by assumption.
  change (inject_Z 2) with 2 in Hn2, Hd2.
  assert (Hk : pow2 (a - b) * inject_Z (2 ^ b) == inject_Z (2 ^ a)).
  { rewrite pow2_sub, (pow2_Z a), (pow2_Z b) by lia. field. lra. }
  assert (Hk1 : pow2 (a - b - 1) * 2 == pow2 (a - b)).
  { pose proof (pow2_succ (a - b - 1)) as H.
    replace (a - b - 1 + 1)%Z with (a - b)%Z in H by lia.
    rewrite H. ring. }
  assert (Hk2 : pow2 (a - b + 1) == 2 * pow2 (a - b)) by apply pow2_succ.
  pose proof (pow2_pos (a - b)) as Hkpos.
  pose proof (Qabs_nonneg q) as HXnn.
  destruct (ilog2_bracket (Qabs q) (pow2 (a - b)) (pow2 (a - b - 1))
              (pow2 (a - b + 1)) (inject_Z (2 ^ a)) (inject_Z (2 ^ b))
              (inject_Z n) (inject_Z d)) as [Hlo Hhi]; try assumption.
  destruct (Qle_bool (pow2 (a - b)) (Qabs q)) eqn:E.
  - apply Qle_bool_iff in E. split; [exact E | exact Hhi].
  - split.
    + apply Qlt_le_weak. exact Hlo.
    + replace (a - b - 1 + 1)%Z with (a - b)%Z by lia.
      apply Qnot_le_lt. intros H. apply Qle_bool_iff in H. congruence.
Qed.

Lemma ilog2_unique q k :
  pow2 k <= Qabs q -> Qabs q < pow2 (k + 1) -> ilog2 q = k.
Proof.
  intros H1 H2.
  assert (Hq : ~ q == 0).
  { intros H. rewrite H in H1. pose proof (pow2_pos k). 
    change (Qabs 0) with 0 in H1. lra. }
  destruct (ilog2_spec q Hq) as [H3 H4].
  assert (ilog2 q < k + 1)%Z by (apply pow2_lt_inv; lra).
  assert (k < ilog2 q + 1)%Z by (apply pow2_lt_inv; lra).
  lia.
Qed.

Lemma ilog2_le x y :
  ~ x == 0 -> Qabs x <= Qabs y -> (ilog2 x <= ilog2 y)%Z.
Proof.
  intros Hx Hxy.
  destruct (ilog2_spec x Hx) as [H1 H2].
  assert (Hy : ~ y == 0).
  { intros H. rewrite H in Hxy. change (Qabs 0) with 0 in Hxy.
    pose proof (pow2_pos (ilog2 x)). lra. }
  destruct (ilog2_spec y Hy) as [H3 H4].
  assert (ilog2 x < ilog2 y + 1)%Z by (apply pow2_lt_inv; lra).
  lia.
Qed.

(** The integer nearest to [x], the even one of two. *)
Definition nearestEven (x : Q) : Z :=
  let f := Qfloor x in
  match Qcompare (x - inject_Z f) (1 # 2) with
  | Lt => f
  | Gt => (f + 1)%Z
  | Eq => if Z.even f then f else (f + 1)%Z
  end.

Lemma Qfloor_bounds x : inject_Z (Qfloor x) <= x /\ x < inject_Z (Qfloor x) + 1.
Proof.
  split; [apply Qfloor_le|].
  pose proof (Qlt_floor x) as H. rewrite inject_Z_plus in H. exact H.
Qed.

Lemma nearestEven_cases x :
  nearestEven x = Qfloor x \/ nearestEven x = (Qfloor x + 1)%Z.
Proof.
  unfold nearestEven. destruct (Qcompare _ _); [|tauto..].
  destruct (Z.even _); tauto.
Qed.

Lemma nearestEven_error x :
  inject_Z (nearestEven x) - (1 # 2) <= x /\ x <= inject_Z (nearestEven x) + (1 # 2).
Proof.
  unfold nearestEven. destruct (Qfloor_bounds x) as [H1 H2].
  destruct (Qcompare_spec (x - inject_Z (Qfloor x)) (1 # 2)) as [H|H|H].
  - destruct (Z.even _); rewrite ?inject_Z_plus; change (inject_Z 1) with 1; lra.
  - lra.
  - rewrite inject_Z_plus. change (inject_Z 1) with 1. lra.
Qed.

Lemma nearestEven_Z z : nearestEven (inject_Z z) = z.
Proof.
  unfold nearestEven. rewrite Qfloor_Z.
  destruct (Qcompare_spec (inject_Z z - inject_Z z) (1 # 2)) as [H|H|H];
    [lra | reflexivity | lra].
Qed.

Lemma nearestEven_monotone x y : x <= y -> (nearestEven x <= nearestEven y)%Z.
Proof.
  intros Hxy. pose proof (Qfloor_resp_le _ _ Hxy) as Hf.
  destruct (Z.eq_dec (Qfloor x) (Qfloor y)) as [Heq|Hne].
  - unfold nearestEven. rewrite Heq.
    destruct (Qcompare_spec (x - inject_Z (Qfloor y)) (1 # 2)) as [H|H|H];
      destruct (Qcompare_spec (y - inject_Z (Qfloor y)) (1 # 2)) as [K|K|K];
      try lra; try lia; destruct (Z.even (Qfloor y)); lia.
  - destruct (nearestEven_cases x) as [-> | ->], (nearestEven_cases y) as [-> | ->]; lia.
Qed.

Lemma nearestEven_wd x y : x == y -> nearestEven x = nearestEven y.
Proof.
  intros H. unfold nearestEven.
  assert (Hf : Qfloor x = Qfloor y) by (apply Qfloor_comp; exact H).
  rewrite Hf.
  assert (Hc : Qcompare (x - inject_Z (Qfloor y)) (1 # 2)
               = Qcompare (y - inject_Z (Qfloor y)) (1 # 2))
    by (apply Qcompare_comp; [now rewrite H | reflexivity]).
  now rewrite Hc.
Qed.

(** The exponent of the last place of the doubles of the binade of [q]:
    53 significant bits, and no exponent below that of the subnormals. *)
Definition quantum (q : Q) : Z := Z.max (ilog2 q - 52) (-1074).

(** The double nearest to [q > 0], were the exponent unbounded above. *)
Definition nearestDouble (q : Q) : Q :=
  inject_Z (nearestEven (q / pow2 (quantum q))) * pow2 (quantum q).

(** The double nearest to [q], a tie going to the even significand. *)
Definition roundToDouble (q : Q) : Q :=
  match Qcompare q 0 with
  | Eq => 0
  | Gt => Qred (nearestDouble q)
  | Lt => Qred (- nearestDouble (- q))
  end.

Lemma grid_between e x (a b : Z) :
  inject_Z a * pow2 e <= x -> x <= inject_Z b * pow2 e ->
  inject_Z a * pow2 e <= inject_Z (nearestEven (x / pow2 e)) * pow2 e /\
  inject_Z (nearestEven (x / pow2 e)) * pow2 e <= inject_Z b * pow2 e.
Proof.
  intros Ha Hb. pose proof (pow2_pos e) as He.
  assert (H1 : inject_Z a <= x / pow2 e) by (apply Qle_shift_div_l; assumption).
  assert (H2 : x / pow2 e <= inject_Z b) by (apply Qle_shift_div_r; assumption).
  apply nearestEven_monotone in H1, H2. rewrite nearestEven_Z in H1, H2.
  rewrite Zle_Qle in H1, H2. split; nra.
Qed.

Lemma grid_error e x :
  Qabs (inject_Z (nearestEven (x / pow2 e)) * pow2 e - x) <= pow2 e * (1 # 2).
Proof.
  pose proof (pow2_pos e) as He.
  destruct (nearestEven_error (x / pow2 e)) as [H1 H2].
  assert (Hx : x == x / pow2 e * pow2 e) by (field; lra).
  set (m := inject_Z (nearestEven (x / pow2 e))) in *.
  set (y := x / pow2 e) in *.
  apply Qabs_Qle_condition. rewrite Hx. split; nra.
Qed.

Lemma grid_monotone e x y :
  x <= y ->
  inject_Z (nearestEven (x / pow2 e)) * pow2 e
  <= inject_Z (nearestEven (y / pow2 e)) * pow2 e.
Proof.
  intros Hxy. pose proof (pow2_pos e) as He.
  assert (H : x / pow2 e <= y / pow2 e).
  { apply Qle_shift_div_l; [exact He|].
    setoid_replace (x / pow2 e * pow2 e) with x by (field; lra). exact Hxy. }
  apply nearestEven_monotone in H. rewrite Zle_Qle in H. nra.
Qed.

Lemma pow2_multiple k e :
  (e <= k)%Z -> pow2 k == inject_Z (2 ^ (k - e)) * pow2 e.
Proof.
  intros H. rewrite <- pow2_Z by lia. rewrite <- pow2_plus.
  now replace (k - e + e)%Z with k by lia.
Qed.

(** A positive number rounds within the closure of its binade. *)
Lemma nearestDouble_binade q :
  0 < q ->
  (quantum q <= ilog2 q)%Z ->
  pow2 (ilog2 q) <= nearestDouble q /\ nearestDouble q <= pow2 (ilog2 q + 1).
Proof.
  intros Hq He. unfold nearestDouble.
  assert (Hq0 : ~ q == 0) by lra.
  destruct (ilog2_spec q Hq0) as [H1 H2].
  rewrite Qabs_pos in H1, H2 by lra.
  rewrite (pow2_multiple (ilog2 q) (quantum q)) in * by lia.
  rewrite (pow2_multiple (ilog2 q + 1) (quantum q)) in * by lia.
  apply grid_between; lra.
Qed.

Lemma nearestDouble_tiny q :
  0 < q ->
  (ilog2 q < quantum q)%Z ->
  0 <= nearestDouble q /\ nearestDouble q <= pow2 (quantum q).
Proof.
  intros Hq He. unfold nearestDouble.
  assert (Hq0 : ~ q == 0) by lra.
  destruct (ilog2_spec q Hq0) as [H1 H2].
  rewrite Qabs_pos in H1, H2 by lra.
  assert (H3 : pow2 (ilog2 q + 1) <= pow2 (quantum q)) by (apply pow2_le; lia).
  destruct (grid_between (quantum q) q 0 1) as [K1 K2].
  - change (inject_Z 0) with 0. lra.
  - change (inject_Z 1) with 1. lra.
  - change (inject_Z 0) with 0 in K1. change (inject_Z 1) with 1 in K2. lra.
Qed.

Lemma nearestDouble_nonneg q : 0 < q -> 0 <= nearestDouble q.
Proof.
  intros Hq. destruct (Z_lt_le_dec (ilog2 q) (quantum q)) as [H|H].
  - now apply nearestDouble_tiny.
  - destruct (nearestDouble_binade q Hq H) as [H1 _].
    pose proof (pow2_pos (ilog2 q)). lra.
Qed.

Lemma nearestDouble_monotone x y :
  0 < x -> x <= y -> nearestDouble x <= nearestDouble y.
Proof.
  intros Hx Hxy.
  assert (Hy : 0 < y) by lra.
  assert (Hk : (ilog2 x <= ilog2 y)%Z).
  { apply ilog2_le; [lra|]. rewrite !Qabs_pos by lra. exact Hxy. }
  destruct (Z.eq_dec (quantum x) (quantum y)) as [Heq|Hne].
  - unfold nearestDouble. rewrite Heq. now apply grid_monotone.
  - assert (Hq : (quantum x < quantum y)%Z) by (unfold quantum in *; lia).
    assert (Hey : (quantum y <= ilog2 y)%Z) by (unfold quantum in *; lia).
    assert (Hlt : (ilog2 x < ilog2 y)%Z) by (unfold quantum in *; lia).
    destruct (nearestDouble_binade y Hy Hey) as [Hy1 _].
    destruct (Z_lt_le_dec (ilog2 x) (quantum x)) as [H|H].
    + destruct (nearestDouble_tiny x Hx H) as [_ Hx2].
      assert (pow2 (quantum x) <= pow2 (ilog2 y)) by (apply pow2_le; lia).
      lra.
    + destruct (nearestDouble_binade x Hx H) as [_ Hx2].
      assert (pow2 (ilog2 x + 1) <= pow2 (ilog2 y)) by (apply pow2_le; lia).
      lra.
Qed.

Lemma roundToDouble_monotone x y :
  x <= y -> roundToDouble x <= roundToDouble y.
Proof.
  intros Hxy. unfold roundToDouble.
  destruct (Qcompare_spec x 0) as [Hx|Hx|Hx];
    destruct (Qcompare_spec y 0) as [Hy|Hy|Hy];
    rewrite ?Qred_correct; try lra.
  - pose proof (nearestDouble_nonneg y Hy). lra.
  - assert (H : 0 < - x) by lra. pose proof (nearestDouble_nonneg _ H). lra.
  - assert (H : 0 < - y) by lra.
    assert (H' : - y <= - x) by lra.
    pose proof (nearestDouble_monotone _ _ H H'). lra.
  - assert (H : 0 < - x) by lra. pose proof (nearestDouble_nonneg _ H).
    pose proof (nearestDouble_nonneg y Hy). lra.
  - now apply nearestDouble_monotone.
Qed.

Lemma nearestDouble_error q :
  0 < q -> Qabs (nearestDouble q - q) <= pow2 (quantum q) * (1 # 2).
Proof. intros _. apply grid_error. Qed.

Lemma quantum_bound q :
  ~ q == 0 ->
  pow2 (quantum q) <= Qabs q * pow2 (-52) + pow2 (-1074).
Proof.
  intros Hq. destruct (ilog2_spec q Hq) as [H1 _].
  unfold quantum. pose proof (pow2_pos (-1074)).
  pose proof (pow2_pos (-52)). pose proof (Qabs_nonneg q).
  destruct (Z.max_spec (ilog2 q - 52) (-1074)) as [[_ ->]|[_ ->]].
  - set (A := pow2 (-1074)) in *. set (B := pow2 (-52)) in *.
    clearbody A B. nra.
  - replace (ilog2 q - 52)%Z with (ilog2 q + -52)%Z by lia.
    rewrite pow2_plus.
    set (A := pow2 (-1074)) in *. set (B := pow2 (-52)) in *.
    clearbody A B.
    assert (pow2 (ilog2 q) * B <= Qabs q * B)
      by (apply Qmult_le_compat_r; lra).
    lra.
Qed.

Lemma roundToDouble_error q :
  Qabs (roundToDouble q - q) <= Qabs q * pow2 (-53) + pow2 (-1075).
Proof.
  assert (H53 : pow2 (-53) == pow2 (-52) * (1 # 2)) by reflexivity.
  assert (H1075 : pow2 (-1075) == pow2 (-1074) * (1 # 2)) by reflexivity.
  rewrite H53, H1075.
  pose proof (pow2_pos (-52)) as P52. pose proof (pow2_pos (-1074)) as P1074.
  unfold roundToDouble.
  destruct (Qcompare_spec q 0) as [Hq|Hq|Hq]; rewrite ?Qred_correct.
  - rewrite Hq. setoid_replace (0 - 0) with 0 by ring.
    change (Qabs 0) with 0.
    set (A := pow2 (-1074)) in *. set (B := pow2 (-52)) in *.
    clearbody A B. lra.
  - assert (H : 0 < - q) by lra.
    pose proof (nearestDouble_error _ H) as He.
    assert (Hq0 : ~ - q == 0) by lra.
    pose proof (quantum_bound _ Hq0) as Hb.
    rewrite Qabs_opp in Hb.
    setoid_replace (- nearestDouble (- q) - q)
      with (- (nearestDouble (- q) - - q)) by ring.
    rewrite Qabs_opp.
    set (A := pow2 (-1074)) in *. set (B := pow2 (-52)) in *.
    clearbody A B. lra.
  - pose proof (nearestDouble_error _ Hq) as He.
    assert (Hq0 : ~ q == 0) by lra.
    pose proof (quantum_bound _ Hq0) as Hb.
    set (A := pow2 (-1074)) in *. set (B := pow2 (-52)) in *.
    clearbody A B. lra.
Qed.

Lemma nearestDouble_exact q (m : Z) :
  q == inject_Z m * pow2 (quantum q) -> nearestDouble q == q.
Proof.
  intros H. unfold nearestDouble. pose proof (pow2_pos (quantum q)) as He.
  assert (Hm : q / pow2 (quantum q) == inject_Z m)
    by (rewrite H at 1; field; lra).
  rewrite (nearestEven_wd _ _ Hm), nearestEven_Z. now rewrite <- H.
Qed.

Lemma pow2_le_inv a b : pow2 a <= pow2 b -> (a <= b)%Z.
Proof.
  intros H. destruct (Z_lt_le_dec b a) as [Hlt|Hle]; [|exact Hle].
  apply pow2_lt in Hlt. lra.
Qed.

Lemma quantum_integer z :
  (0 < z <= 2 ^ 53)%Z ->
  exists m, inject_Z z == inject_Z m * pow2 (quantum (inject_Z z)).
Proof.
  intros Hz.
  assert (Hq : ~ inject_Z z == 0).
  { intros H. unfold Qeq in H. simpl in H. lia. }
  destruct (ilog2_spec _ Hq) as [H1 H2].
  assert (Hpos : 0 <= inject_Z z) by (unfold Qle; simpl; lia).
  rewrite Qabs_pos in H1, H2 by exact Hpos.
  set (k := ilog2 (inject_Z z)) in *.
  assert (Hk0 : (0 <= k)%Z).
  { assert (pow2 0 < pow2 (k + 1)).
    { apply Qle_lt_trans with (inject_Z z); [|exact H2].
      change (pow2 0) with (inject_Z 1). rewrite <- Zle_Qle. lia. }
    apply pow2_lt_inv in H. lia. }
  assert (Hk53 : (k <= 53)%Z).
  { apply pow2_le_inv. apply Qle_trans with (inject_Z z); [exact H1|].
    rewrite (pow2_Z 53) by lia. rewrite <- Zle_Qle. lia. }
  unfold quantum. fold k. rewrite Z.max_l by lia.
  destruct (Z.eq_dec k 53) as [->|Hne].
  - exists (2 ^ 52)%Z.
    assert (z = 2 ^ 53)%Z.
    { rewrite (pow2_Z 53) in H1 by lia. rewrite <- Zle_Qle in H1. lia. }
    subst z. reflexivity.
  - exists (z * 2 ^ (52 - k))%Z.
    rewrite inject_Z_mult, <- pow2_Z by lia.
    rewrite <- Qmult_assoc, <- pow2_plus.
    replace (52 - k + (k - 52))%Z with 0%Z by lia.
    change (pow2 0) with 1. ring.
Qed.

Lemma roundToDouble_integer z :
  (Z.abs z <= 2 ^ 53)%Z -> roundToDouble (inject_Z z) == inject_Z z.
Proof.
  intros Hz. unfold roundToDouble.
  destruct (Qcompare_spec (inject_Z z) 0) as [H|H|H]; rewrite ?Qred_correct.
  - now rewrite H.
  - assert (Hneg : (z < 0)%Z) by (unfold Qlt in H; simpl in H; lia).
    destruct (quantum_integer (- z)) as (m & Hm); [lia|].
    rewrite inject_Z_opp in Hm.
    rewrite (nearestDouble_exact _ m Hm). ring.
  - assert (Hpos : (0 < z)%Z) by (unfold Qlt in H; simpl in H; lia).
    destruct (quantum_integer z) as (m & Hm); [lia|].
    apply (nearestDouble_exact _ m Hm).
Qed.

Lemma roundToDouble_opp q : roundToDouble (- q) == - roundToDouble q.
Proof.
  unfold roundToDouble.
  destruct (Qcompare_spec q 0) as [H|H|H];
    destruct (Qcompare_spec (- q) 0) as [K|K|K];
    rewrite ?Qred_correct; try lra; try ring.
  assert (E : nearestDouble (- - q) == nearestDouble q).
  { unfold nearestDouble.
    assert (Hq : - - q == q) by ring.
    assert (Hk : ilog2 (- - q) = ilog2 q).
    { assert (Hq0 : ~ q == 0) by lra.
      destruct (ilog2_spec q Hq0) as [H1 H2].
      apply ilog2_unique; rewrite Hq; assumption. }
    unfold quantum. rewrite Hk.
    rewrite (nearestEven_wd (- - q / pow2 (Z.max (ilog2 q - 52) (-1074)))
               (q / pow2 (Z.max (ilog2 q - 52) (-1074))));
        [reflexivity | now rewrite Hq]. }
  now rewrite E.
Qed.

Set Implicit Arguments.

(** The result of an operation whose exact value is [q]: the nearest
    double, or an infinity when that is beyond the greatest double. *)
Definition rnd (q : Q) : Number :=
  let r := roundToDouble q in
  if Qle_bool (pow2 1024) (Qabs r) then infinityOf (r ?= 0) else Num r.

(** The number a decimal literal, or a number of a JSON text, stands
    for. *)
Definition double (q : Q) : Q := roundToDouble q.

(** [x + y] *)
Definition add (x y : Number) : Number :=
  match x, y with
  | NaN, _ | _, NaN => NaN
  | Num a, Num b => rnd (a + b)
  | PosInfinity, NegInfinity | NegInfinity, PosInfinity => NaN
  | PosInfinity, _ | _, PosInfinity => PosInfinity
  | NegInfinity, _ | _, NegInfinity => NegInfinity
  end.

(** [- x] *)
Definition neg (x : Number) : Number :=
  match x with
  | Num a => Num (- a)
  | PosInfinity => NegInfinity
  | NegInfinity => PosInfinity
  | NaN => NaN
  end.

(** [x - y] *)
Definition sub (x y : Number) : Number := add x (neg y).

(** [x * y] *)
Definition mul (x y : Number) : Number :=
  match x, y with
  | NaN, _ | _, NaN => NaN
  | Num a, Num b => rnd (a * b)
  | Num a, PosInfinity | PosInfinity, Num a => infinityOf (a ?= 0)
  | Num a, NegInfinity | NegInfinity, Num a => infinityOf (0 ?= a)
  | PosInfinity, PosInfinity | NegInfinity, NegInfinity => PosInfinity
  | PosInfinity, NegInfinity | NegInfinity, PosInfinity => NegInfinity
  end.

(** [x / y]; a zero divisor is the positive zero. *)
Definition div (x y : Number) : Number :=
  match x, y with
  | NaN, _ | _, NaN => NaN
  | Num a, Num b => if Qeq_bool b 0 then infinityOf (a ?= 0) else rnd (a / b)
  | Num _, _ => Num 0
  | PosInfinity, Num b => if Qle_bool 0 b then PosInfinity else NegInfinity
  | NegInfinity, Num b => if Qle_bool 0 b then NegInfinity else PosInfinity
  | _, _ => NaN
  end.

(** The greater of two numbers, [NaN] when either is. *)
Definition max2 (x y : Number) : Number :=
  match x, y with
  | NaN, _ | _, NaN => NaN
  | PosInfinity, _ | _, PosInfinity => PosInfinity
  | NegInfinity, z | z, NegInfinity => z
  | Num a, Num b => Num (Qmax a b)
  end.

Definition min2 (x y : Number) : Number :=
  match x, y with
  | NaN, _ | _, NaN => NaN
  | NegInfinity, _ | _, NegInfinity => NegInfinity
  | PosInfinity, z | z, PosInfinity => z
  | Num a, Num b => Num (Qmin a b)
  end.

(** [Math.max(...args)]: [-Infinity] for no argument. *)
Definition Math_max (args : list Number) : Number :=
  fold_left max2 args NegInfinity.

(** [Math.min(...args)]: [+Infinity] for no argument. *)
Definition Math_min (args : list Number) : Number :=
  fold_left min2 args PosInfinity.

(** [Math.round(x)]: the nearest integer, a tie going towards +Infinity. *)
Definition Math_round (x : Number) : Number :=
  match x with
  | Num a => ofZ (Qfloor (a + (1 # 2)))
  | _ => x
  end.

(** [arr.reduce((a, b) => a + b, 0)] *)
Definition reduce_sum (arr : list Number) : Number :=
  fold_left add arr (Num 0).

(** [arr.length] *)
Definition length_of (A : Type) (arr : list A) : Number :=
  ofZ (Z.of_nat (List.length arr)).

(** [x >= y] *)
Definition ge (x y : Number) : bool :=
  match x, y with
  | NaN, _ | _, NaN => false
  | PosInfinity, _ => true
  | _, NegInfinity => true
  | Num a, Num b => Qle_bool b a
  | _, _ => false
  end.

(** Truthiness of a number: every one but zero and [NaN]. *)
Definition truthy (x : Number) : bool :=
  match x with
  | Num a => negb (Qeq_bool a 0)
  | NaN => false
  | _ => true
  end.

(** *** The operations on finite arguments *)

Lemma fold_max2_Num l a :
  fold_left max2 (map Num l) (Num a) = Num (fold_left Qmax l a).
Proof.
  revert a. induction l as [|b l IH]; intros a; simpl; [reflexivity | apply IH].
Qed.

Lemma fold_min2_Num l a :
  fold_left min2 (map Num l) (Num a) = Num (fold_left Qmin l a).
Proof.
  revert a. induction l as [|b l IH]; intros a; simpl; [reflexivity | apply IH].
Qed.

Lemma Math_max_cons a l :
  Math_max (Num a :: map Num l) = Num (fold_left Qmax l a).
Proof. unfold Math_max. simpl. apply fold_max2_Num. Qed.

Lemma Math_min_cons a l :
  Math_min (Num a :: map Num l) = Num (fold_left Qmin l a).
Proof. unfold Math_min. simpl. apply fold_min2_Num. Qed.

(** *** What the rounding keeps *)

Lemma pow2_1024_pos : 0 < pow2 1024.
Proof. apply pow2_pos. Qed.

(** A rounded result is a finite number or an infinity, never [NaN]. *)
Lemma rnd_cases q :
  (rnd q = Num (roundToDouble q) /\ Qabs (roundToDouble q) < pow2 1024) \/
  (rnd q = PosInfinity /\ pow2 1024 <= roundToDouble q) \/
  (rnd q = NegInfinity /\ roundToDouble q <= - pow2 1024).
Proof.
  unfold rnd. pose proof pow2_1024_pos as Hp.
  set (r := roundToDouble q). set (P := pow2 1024) in *. clearbody r P.
  destruct (Qle_bool P (Qabs r)) eqn:E.
  - apply Qle_bool_iff in E. right.
    destruct (Qcompare_spec r 0) as [H|H|H].
    + rewrite H in E. change (Qabs 0) with 0 in E. lra.
    + right. split; [reflexivity|]. rewrite Qabs_neg in E by lra. lra.
    + left. split; [reflexivity|]. rewrite Qabs_pos in E by lra. lra.
  - left. split; [reflexivity|]. apply Qnot_le_lt. intros H.
    apply Qle_bool_iff in H. congruence.
Qed.

(** Rounding keeps the order. *)
Lemma rnd_monotone x y : x <= y -> ge (rnd y) (rnd x) = true.
Proof.
  intros Hxy. pose proof (roundToDouble_monotone x y Hxy) as Hr.
  pose proof pow2_1024_pos as Hp.
  destruct (rnd_cases x) as [[-> Hx]|[[-> Hx]|[-> Hx]]];
    destruct (rnd_cases y) as [[-> Hy]|[[-> Hy]|[-> Hy]]];
    try reflexivity; simpl.
  - now apply Qle_bool_iff.
  - apply Qabs_Qlt_condition in Hx. lra.
  - apply Qabs_Qlt_condition in Hy. lra.
  - lra.
Qed.

(** An integer of up to 53 bits is a double. *)
Lemma rnd_integer z :
  (Z.abs z <= 2 ^ 53)%Z ->
  rnd (inject_Z z) = Num (roundToDouble (inject_Z z)) /\
  roundToDouble (inject_Z z) == inject_Z z.
Proof.
  intros Hz. pose proof (roundToDouble_integer z Hz) as Hr.
  split; [|exact Hr].
  destruct (rnd_cases (inject_Z z)) as [[H _]|[[_ H]|[_ H]]]; [exact H|..];
    exfalso; rewrite Hr in H;
    assert (Hb : inject_Z (Z.abs z) <= inject_Z (2 ^ 53))
      by (rewrite <- Zle_Qle; exact Hz);
    assert (Hp : inject_Z (2 ^ 53) < pow2 1024) by reflexivity;
    assert (Ha : Qabs (inject_Z z) == inject_Z (Z.abs z))
      by (unfold Qabs, inject_Z; reflexivity);
    set (P := pow2 1024) in *; clearbody P;
    pose proof (Qle_Qabs (inject_Z z)) as H1;
    pose proof (Qle_Qabs (- inject_Z z)) as H2; rewrite Qabs_opp in H2; lra.
Qed.

(** A number between two such integers rounds to a number between them. *)
Lemma rnd_between (a b : Z) q :
  (Z.abs a <= 2 ^ 53)%Z -> (Z.abs b <= 2 ^ 53)%Z ->
  inject_Z a <= q -> q <= inject_Z b ->
  rnd q = Num (roundToDouble q) /\
  inject_Z a <= roundToDouble q /\ roundToDouble q <= inject_Z b.
Proof.
  intros Ha Hb Haq Hqb.
  pose proof (roundToDouble_monotone _ _ Haq) as H1.
  pose proof (roundToDouble_monotone _ _ Hqb) as H2.
  rewrite (roundToDouble_integer a Ha) in H1.
  rewrite (roundToDouble_integer b Hb) in H2.
  split; [|split; assumption].
  assert (Hza : - inject_Z (2 ^ 53) <= inject_Z a)
    by (rewrite <- inject_Z_opp, <- Zle_Qle; lia).
  assert (Hzb : inject_Z b <= inject_Z (2 ^ 53))
    by (rewrite <- Zle_Qle; lia).
  assert (Hp : inject_Z (2 ^ 53) < pow2 1024) by reflexivity.
  destruct (rnd_cases q) as [[H _]|[[_ H]|[_ H]]]; [exact H|..];
    exfalso; set (P := pow2 1024) in *; clearbody P; lra.
Qed.

(** The error of a rounding: at most half a unit in the last place,
    which is [2^-53] of the magnitude but for the subnormal numbers. *)
Lemma rnd_error q B :
  Qabs q <= B -> B <= pow2 1000 ->
  rnd q = Num (roundToDouble q) /\
  Qabs (roundToDouble q - q) <= B * pow2 (-53) + pow2 (-1075).
Proof.
  intros Hq HB. pose proof (roundToDouble_error q) as He.
  assert (Herr : Qabs (roundToDouble q - q) <= B * pow2 (-53) + pow2 (-1075)).
  { eapply Qle_trans; [exact He|]. apply Qplus_le_l.
    apply Qmult_le_compat_r; [exact Hq|]. apply Qlt_le_weak, pow2_pos. }
  split; [|exact Herr].
  assert (Hnum : pow2 1000 + pow2 1000 * pow2 (-53) + pow2 (-1075) < pow2 1024)
    by reflexivity.
  assert (Hmul : B * pow2 (-53) <= pow2 1000 * pow2 (-53))
    by (apply Qmult_le_compat_r; [exact HB | apply Qlt_le_weak, pow2_pos]).
  apply Qabs_Qle_condition in Hq. apply Qabs_Qle_condition in Herr.
  destruct (rnd_cases q) as [[H _]|[[_ H]|[_ H]]]; [exact H|..];
    exfalso;
    set (P := pow2 1024) in *; set (T := pow2 1000) in *;
    set (E := pow2 (-53)) in *; set (N := pow2 (-1075)) in *;
    set (BE := B * E) in *; set (TE := T * E) in *;
    clearbody P T E N BE TE; lra.
Qed.

(** For magnitudes of one and more, [1.2e-16] of the bound covers it. *)
Definition epsilon : Q := 12 # 100000000000000000.

Lemma rnd_error_relative q B :
  Qabs q <= B -> 1 <= B -> B <= pow2 1000 ->
  rnd q = Num (roundToDouble q) /\
  Qabs (roundToDouble q - q) <= B * epsilon.
Proof.
  intros Hq H1 HB. destruct (rnd_error q Hq HB) as [Hr He].
  split; [exact Hr|]. eapply Qle_trans; [exact He|].
  assert (Hnum : pow2 (-53) + pow2 (-1075) <= epsilon) by (vm_compute; discriminate).
  pose proof (pow2_pos (-53)). pose proof (pow2_pos (-1075)).
  set (E := pow2 (-53)) in *. set (N := pow2 (-1075)) in *.
  unfold epsilon in *. clearbody E N. nra.
Qed.

(** *** Sums of an array *)

(** The sum of numbers between two integers stays between the multiples
    of these, as long as the multiples have no more than 53 bits: the
    partial sums are then rounded between doubles. *)
Lemma fold_add_between (a b : Z) l : forall (k : Z) acc,
  (forall x, In x l -> inject_Z a <= x /\ x <= inject_Z b) ->
  (0 <= k)%Z ->
  ((k + Z.of_nat (List.length l)) * Z.max (Z.abs a) (Z.abs b) <= 2 ^ 53)%Z ->
  inject_Z (k * a) <= acc -> acc <= inject_Z (k * b) ->
  exists s,
    fold_left add (map Num l) (Num acc) = Num s /\
    inject_Z ((k + Z.of_nat (List.length l)) * a) <= s /\
    s <= inject_Z ((k + Z.of_nat (List.length l)) * b).
Proof.
  induction l as [|x l IH]; intros k acc Hall Hk Hbig Hlo Hhi.
  - simpl. rewrite Z.add_0_r. now exists acc.
  - destruct (Hall x (or_introl eq_refl)) as [Hax Hxb].
    cbn [List.length] in *. rewrite Nat2Z.inj_succ in *.
    set (n := Z.of_nat (List.length l)) in *.
    assert (Hn : (0 <= n)%Z) by (unfold n; lia).
    cbn [map fold_left add].
    destruct (@rnd_between ((k + 1) * a) ((k + 1) * b) (acc + x))
      as (Hr & H1 & H2).
    + nia.
    + nia.
    + replace ((k + 1) * a)%Z with (k * a + a)%Z by ring.
      rewrite inject_Z_plus. lra.
    + replace ((k + 1) * b)%Z with (k * b + b)%Z by ring.
      rewrite inject_Z_plus. lra.
    + rewrite Hr.
      destruct (IH (k + 1)%Z (roundToDouble (acc + x))) as (s & Hs & Hs1 & Hs2);
        try assumption.
      * intros y Hy. apply Hall. now right.
      * lia.
      * replace (k + 1 + n)%Z with (k + Z.succ n)%Z by lia. exact Hbig.
      * exists s. replace (k + Z.succ n)%Z with (k + 1 + n)%Z by lia.
        now split.
Qed.

(** The error of a sum: up to a thousand numbers of magnitudes up to a
    thousand add up, one rounding after the other, to within
    [2.4e-10] a number of the exact sum. *)
Lemma fold_add_error l : forall (k : Z) acc e,
  (forall x, In x l -> Qabs x <= 1000) ->
  (0 <= k)%Z -> (k + Z.of_nat (List.length l) <= 1000)%Z ->
  Qabs e <= inject_Z k * 1000 ->
  Qabs (acc - e) <= inject_Z k * (2000000 * epsilon) ->
  exists s,
    fold_left add (map Num l) (Num acc) = Num s /\
    Qabs (s - (e + fold_right Qplus 0 l))
    <= inject_Z (k + Z.of_nat (List.length l)) * (2000000 * epsilon).
Proof.
  induction l as [|x l IH]; intros k acc e Hall Hk Hn He Hacc.
  - exists acc. split; [reflexivity|].
    cbn [List.length fold_right Z.of_nat]. rewrite Z.add_0_r.
    apply Qabs_Qle_condition in Hacc. apply Qabs_Qle_condition.
    set (K := inject_Z k) in *. unfold epsilon in *. clearbody K.
    split; lra.
  - pose proof (Hall x (or_introl eq_refl)) as Hx.
    cbn [List.length] in Hn. rewrite Nat2Z.inj_succ in Hn.
    assert (HK : 0 <= inject_Z k /\ inject_Z k <= 999).
    { split; unfold Qle, inject_Z; simpl; lia. }
    set (K := inject_Z k) in *.
    apply Qabs_Qle_condition in Hx, He, Hacc.
    unfold epsilon in Hacc.
    destruct (@rnd_error_relative (acc + x) 2000000) as [Er Dr].
    + apply Qabs_Qle_condition. clearbody K. split; lra.
    + discriminate.
    + discriminate.
    + cbn [map fold_left add]. rewrite Er.
      apply Qabs_Qle_condition in Dr. unfold epsilon in Dr.
      destruct (IH (k + 1)%Z (roundToDouble (acc + x)) (e + x)) as (s & Hs & Ds).
      * intros y Hy. apply Hall. now right.
      * lia.
      * lia.
      * rewrite inject_Z_plus. fold K. apply Qabs_Qle_condition.
        change (inject_Z 1) with 1. clearbody K. split; lra.
      * rewrite inject_Z_plus. fold K. apply Qabs_Qle_condition.
        unfold epsilon. change (inject_Z 1) with 1.
        set (r := roundToDouble (acc + x)) in *. clearbody K r. split; lra.
      * exists s. split; [exact Hs|].
        cbn [List.length fold_right]. rewrite Nat2Z.inj_succ.
        replace (k + Z.succ (Z.of_nat (List.length l)))%Z
          with (k + 1 + Z.of_nat (List.length l))%Z by lia.
        setoid_replace (s - (e + (x + fold_right Qplus 0 l)))
          with (s - (e + x + fold_right Qplus 0 l)) by ring.
        exact Ds.
Qed.

Lemma fold_Qmax_ge l : forall a x, In x (a :: l) -> x <= fold_left Qmax l a.
Proof.
  induction l as [|b l IH]; intros a x Hx; simpl.
  - destruct Hx as [<-|[]]. apply Qle_refl.
  - destruct Hx as [->|[->|Hx]].
    + apply Qle_trans with (Qmax x b); [apply Q.le_max_l | apply IH; now left].
    + apply Qle_trans with (Qmax a x); [apply Q.le_max_r | apply IH; now left].
    + apply IH. now right.
Qed.

Lemma fold_Qmax_In l : forall a, exists x, In x (a :: l) /\ x == fold_left Qmax l a.
Proof.
  induction l as [|b l IH]; intros a; simpl.
  - exists a. split; [now left | reflexivity].
  - destruct (IH (Qmax a b)) as (x & [<-|Hx] & Heq).
    + destruct (Q.max_dec a b) as [H|H].
      * exists a. split; [now left | now rewrite <- Heq].
      * exists b. split; [right; now left | now rewrite <- Heq].
    + exists x. split; [right; now right | assumption].
Qed.

Lemma fold_Qmin_le l : forall a x, In x (a :: l) -> fold_left Qmin l a <= x.
Proof.
  induction l as [|b l IH]; intros a x Hx; simpl.
  - destruct Hx as [<-|[]]. apply Qle_refl.
  - destruct Hx as [->|[->|Hx]].
    + apply Qle_trans with (Qmin x b); [apply IH; now left | apply Q.le_min_l].
    + apply Qle_trans with (Qmin a x); [apply IH; now left | apply Q.le_min_r].
    + apply IH. now right.
Qed.

Lemma fold_Qmin_In l : forall a, exists x, In x (a :: l) /\ x == fold_left Qmin l a.
Proof.
  induction l as [|b l IH]; intros a; simpl.
  - exists a. split; [now left | reflexivity].
  - destruct (IH (Qmin a b)) as (x & [<-|Hx] & Heq).
    + destruct (Q.min_dec a b) as [H|H].
      * exists a. split; [now left | now rewrite <- Heq].
      * exists b. split; [right; now left | now rewrite <- Heq].
    + exists x. split; [right; now right | assumption].
Qed.

Lemma fold_Qplus_right l : forall a, fold_left Qplus l a == a + fold_right Qplus 0 l.
Proof.
  induction l as [|b l IH]; intros a; simpl; [ring|].
  rewrite IH. ring.
Qed.

End JS.

(* ================================================================== *)
(** ** Temperature unit functions                                      *)
(* ================================================================== *)

(** [return (celsius * 9/5) + 32;] *)
Definition celsiusToFahrenheit (celsius : JS.Number) : JS.Number :=
  JS.add (JS.div (JS.mul celsius (JS.ofZ 9)) (JS.ofZ 5)) (JS.ofZ 32).

(** [return (fahrenheit - 32) * 5/9;] *)
Definition fahrenheitToCelsius (fahrenheit : JS.Number) : JS.Number :=
  JS.div (JS.mul (JS.sub fahrenheit (JS.ofZ 32)) (JS.ofZ 5)) (JS.ofZ 9).

(** The same two functions on the kernel's IEEE-754 binary64 floats, and
    the rounding of [JS] checked against the kernel's. *)
Module Binary64.
Import PrimFloat.

(** The number a float stands for. *)
Definition toNumber (x : float) : JS.Number :=
  match FloatOps.Prim2SF x with
  | SpecFloat.S754_zero _ => JS.Num 0
  | SpecFloat.S754_infinity false => JS.PosInfinity
  | SpecFloat.S754_infinity true => JS.NegInfinity
  | SpecFloat.S754_nan => JS.NaN
  | SpecFloat.S754_finite s m e =>
      JS.Num (Qred (inject_Z (if s then Zneg m else Zpos m) * JS.pow2 e))
  end.

(** The kernel's [op] and the [op'] of [JS] give the same number on [x]
    and [y]. *)
Definition agree (op : float -> float -> float)
  (op' : JS.Number -> JS.Number -> JS.Number) (x y : float) : bool :=
  match toNumber (op x y), op' (toNumber x) (toNumber y) with
  | JS.Num a, JS.Num b => Qeq_bool a b
  | JS.PosInfinity, JS.PosInfinity | JS.NegInfinity, JS.NegInfinity
  | JS.NaN, JS.NaN => true
  | _, _ => false
  end.

(** Doubles of all sorts: numbers of this file, the least and the
    greatest, a subnormal number, neighbours, negative numbers. *)
Definition samples : list float :=
  [0x1.1e147ae147ae1p+2; 0x1.a7ae147ae147bp+1; 0x1.999999999999ap-4;
   0x1.999999999999bp-4; 0x1.78c29ce666666p+23; 0x1.ccccccccccccdp+1;
   32; 9; 0x1.fffffffffffffp+1023; 0x1.8p-1073; 0x1.0000000000001p+0;
   0x1p+53; -0x1.3c28f5c28f5c3p+2; -0x1.5555555555555p-2]%float.

Lemma rounding_agrees :
  forallb
    (fun x =>
       forallb
         (fun y =>
            agree add JS.add x y && agree sub JS.sub x y &&
            agree mul JS.mul x y && agree div JS.div x y)%bool
         samples)
    samples = true.
Proof. vm_compute. reflexivity. Qed.

Definition celsiusToFahrenheit (celsius : float) : float :=
  (celsius * 9 / 5 + 32)%float.

Definition fahrenheitToCelsius (fahrenheit : float) : float :=
  ((fahrenheit - 32) * 5 / 9)%float.

(** [|fahrenheitToCelsius(celsiusToFahrenheit(c)) - c| <= 1e-9] *)
Definition roundTripWithinTolerance (c : float) : bool :=
  (abs (fahrenheitToCelsius (celsiusToFahrenheit c) - c) <=? 0x1.12e0be826d695p-30)%float.

(** The double nearest to [k / 100]: what a decimal with two digits after
    the point parses to. *)
Definition hundredth (k : Z) : float :=
  ((if (k <? 0)%Z then - of_uint63 (Uint63.of_Z (- k))
    else of_uint63 (Uint63.of_Z k)) / 100)%float.

(** [hundredth lo], [hundredth (lo + 1)], ..., [n] of them. *)
Fixpoint hundredths (lo : Z) (n : nat) : list float :=
  match n with
  | O => []
  | S n' => hundredth lo :: hundredths (lo + 1) n'
  end.

Lemma hundredths_In n : forall lo k,
  (lo <= k < lo + Z.of_nat n)%Z -> In (hundredth k) (hundredths lo n).
Proof.
  induction n as [|n IH]; intros lo k Hk; [lia|].
  cbn [hundredths]. destruct (Z.eq_dec k lo) as [->|Hne]; [now left|].
  right. apply IH. lia.
Qed.

(** On binary64 the round trip stays within [1e-9] of every temperature
    the provider can report with two decimals between absolute zero
    (-273.15) and 1026.84 degrees. *)
Lemma roundTrip_on_grid (k : Z) :
  (-27315 <= k <= 102684)%Z -> roundTripWithinTolerance (hundredth k) = true.
Proof.
  intros Hk.
  assert (Hall : forallb roundTripWithinTolerance
                   (hundredths (-27315) (Z.to_nat 130000)) = true)
    by (vm_compute; reflexivity).
  rewrite forallb_forall in Hall. apply Hall, hundredths_In. lia.
Qed.

End Binary64.

Section Converters.
Import JS.
Local Open Scope Q_scope.

(** A function of a number that rounds a non-decreasing function of
    its finite argument and keeps the infinities keeps the order. *)
Lemma rounded_monotone (f : Number -> Number) (g : Q -> Q) :
  (forall a, f (Num a) = rnd (g a)) ->
  (forall a b, a <= b -> g a <= g b) ->
  f PosInfinity = PosInfinity -> f NegInfinity = NegInfinity ->
  forall x y, ge y x = true -> ge (f y) (f x) = true.
Proof.
  intros Hf Hg Hpos Hneg x y Hxy.
  destruct x as [a| | |], y as [b| | |]; simpl in Hxy; try discriminate;
    rewrite ?Hf, ?Hpos, ?Hneg; try reflexivity.
  - apply rnd_monotone, Hg. now apply Qle_bool_iff.
  - destruct (rnd_cases (g a)) as [[-> _]|[[-> _]|[-> _]]]; reflexivity.
  - destruct (rnd_cases (g b)) as [[-> _]|[[-> _]|[-> _]]]; reflexivity.
Qed.

Lemma celsiusToFahrenheit_monotone x y :
  ge y x = true ->
  ge (celsiusToFahrenheit y) (celsiusToFahrenheit x) = true.
Proof.
  intros H. unfold celsiusToFahrenheit.
  apply (@rounded_monotone (fun v => add v (ofZ 32)) (fun a => a + 32));
    [reflexivity | intros a b Hab; lra | reflexivity | reflexivity |].
  apply (@rounded_monotone (fun v => div v (ofZ 5)) (fun a => a * (1 # 5)));
    [reflexivity | intros a b Hab; lra | reflexivity | reflexivity |].
  apply (@rounded_monotone (fun v => mul v (ofZ 9)) (fun a => a * 9));
    [reflexivity | intros a b Hab; lra | reflexivity | reflexivity |].
  exact H.
Qed.

Lemma fahrenheitToCelsius_monotone x y :
  ge y x = true ->
  ge (fahrenheitToCelsius y) (fahrenheitToCelsius x) = true.
Proof.
  intros H. unfold fahrenheitToCelsius.
  apply (@rounded_monotone (fun v => div v (ofZ 9)) (fun a => a * (1 # 9)));
    [reflexivity | intros a b Hab; lra | reflexivity | reflexivity |].
  apply (@rounded_monotone (fun v => mul v (ofZ 5)) (fun a => a * 5));
    [reflexivity | intros a b Hab; lra | reflexivity | reflexivity |].
  apply (@rounded_monotone (fun v => sub v (ofZ 32)) (fun a => a + - (32)));
    [reflexivity | intros a b Hab; lra | reflexivity | reflexivity |].
  exact H.
Qed.

(** *** The round trip *)






(** X11.  Both converters keep the order of temperatures: of two, the
    greater one never converts to the lesser result.  The order is not
    kept strictly, for the rounding: 0.1 degrees and the next double
    above it convert to the same number. *)
Theorem converters_monotone (a b : Q) :
  a <= b ->
  ge (celsiusToFahrenheit (Num b)) (celsiusToFahrenheit (Num a)) = true /\
  ge (fahrenheitToCelsius (Num b)) (fahrenheitToCelsius (Num a)) = true /\
  (double (1 # 10) < double (1 # 10) + pow2 (-56) /\
   double (double (1 # 10) + pow2 (-56)) == double (1 # 10) + pow2 (-56) /\
   celsiusToFahrenheit (Num (double (1 # 10) + pow2 (-56)))
   = celsiusToFahrenheit (Num (double (1 # 10)))).
Proof.
  intros Hab.
  assert (H : ge (Num b) (Num a) = true) by now apply Qle_bool_iff.
  split; [now apply celsiusToFahrenheit_monotone|].
  split; [now apply fahrenheitToCelsius_monotone|].
  split; [|split]; vm_compute; reflexivity.
Qed.

Lemma converters_monotone_witness :
  ge (celsiusToFahrenheit (Num 100)) (celsiusToFahrenheit (Num 0)) = true.
Proof.
  apply (@converters_monotone 0 100). discriminate.
Defined.

End Converters.

(* ================================================================== *)
(** ** Dates                                                           *)
(* ================================================================== *)

(** A [Date] object is its time value: a whole number of milliseconds
    since the epoch, of at most 8.64e15 either way, or [NaN], which makes
    it an invalid date.  What [toDateString] prints depends on the time
    zone of the browser: [LocalTZA t] is the offset of local time from
    UTC at the instant [t], in milliseconds. *)
Module Dates.
Local Open Scope string_scope.
Local Open Scope Z_scope.

Definition msPerDay : Z := 86400000.

(** Time values beyond this are clipped to an invalid date. *)
Definition maxTimeValue : Z := 8640000000000000.

Inductive Date : Type :=
| Valid (tv : Z)
| Invalid.

(** [new Date(value)], for a whole number [value] *)
Definition newDate (value : Z) : Date :=
  if maxTimeValue <? Z.abs value then Invalid else Valid value.

(** [a < b]: the time values are compared, and [NaN] is not less than
    anything, nor anything less than [NaN]. *)
Definition lt (a b : Date) : bool :=
  match a, b with
  | Valid x, Valid y => x <? y
  | _, _ => false
  end.

(** Year, month (0 to 11) and day of the month (1 to 31) of the day
    number [days], counted from 1 January 1970, in the proleptic Gregorian
    calendar. *)
Definition civilFromDays (days : Z) : Z * Z * Z :=
  let z := days + 719468 in
  let era := z / 146097 in
  let doe := z - era * 146097 in
  let yoe := (doe - doe / 1460 + doe / 36524 - doe / 146096) / 365 in
  let doy := doe - (365 * yoe + yoe / 4 - yoe / 100) in
  let mp := (5 * doy + 2) / 153 in
  let d := doy - (153 * mp + 2) / 5 + 1 in
  let m := if mp <? 10 then mp + 2 else mp - 10 in
  let y := yoe + era * 400 + (if m <=? 1 then 1 else 0) in
  (y, m, d).

Definition dayNames : list string :=
  ["Sun"; "Mon"; "Tue"; "Wed"; "Thu"; "Fri"; "Sat"].

Definition monthNames : list string :=
  ["Jan"; "Feb"; "Mar"; "Apr"; "May"; "Jun";
   "Jul"; "Aug"; "Sep"; "Oct"; "Nov"; "Dec"].

Fixpoint zeros (n : nat) : string :=
  match n with
  | O => EmptyString
  | S n' => String "0" (zeros n')
  end.

(** The decimal digits of [z >= 0], padded with zeros to [width]. *)
Definition padded (width : nat) (z : Z) : string :=
  let digits := NilZero.string_of_uint (N.to_uint (Z.to_N z)) in
  zeros (width - String.length digits) ++ digits.

(** The date string of the day number [day]: weekday, month, day of the
    month and year. *)
Definition dateStringOfDay (day : Z) : string :=
  let '(y, m, d) := civilFromDays day in
  nth (Z.to_nat ((day + 4) mod 7)) dayNames EmptyString ++ " " ++
  nth (Z.to_nat m) monthNames EmptyString ++ " " ++
  padded 2 d ++ " " ++
  (if y <? 0 then "-" else EmptyString) ++ padded 4 (Z.abs y).

Section LocalTime.
Variable LocalTZA : Z -> Z.

(** The number of the local day the instant [tv] falls on. *)
Definition localDay (tv : Z) : Z := (tv + LocalTZA tv) / msPerDay.


Definition toDateString (date : Date) : string :=
  match date with
  | Invalid => "Invalid Date"
  | Valid tv => dateStringOfDay (localDay tv)
  end.

(** [toLocaleDateString('en-US', { weekday: 'short' })] *)
Definition weekdayShort (date : Date) : string :=
  match date with
  | Invalid => "Invalid Date"
  | Valid tv => nth (Z.to_nat ((localDay tv + 4) mod 7)) dayNames EmptyString
  end.

(** [toLocaleDateString('en-US', { month: 'short', day: 'numeric' })] *)
Definition monthAndDay (date : Date) : string :=
  match date with
  | Invalid => "Invalid Date"
  | Valid tv =>
      let '(_, m, d) := civilFromDays (localDay tv) in
      nth (Z.to_nat m) monthNames EmptyString ++ " " ++ padded 1 d
  end.

End LocalTime.

(** The browser set to UTC. *)
Definition UTC : Z -> Z := fun _ => 0.

(** The properties every object inherits from [Object.prototype]: a lookup
    [o[k]] finds them though [o] has no such property of its own. *)
Definition inheritedProperties : list string :=
  ["constructor"; "__proto__"; "hasOwnProperty"; "isPrototypeOf";
   "propertyIsEnumerable"; "toLocaleString"; "toString"; "valueOf";
   "__defineGetter__"; "__defineSetter__";
   "__lookupGetter__"; "__lookupSetter__"].

(** A date string starts with a capital letter. *)
Lemma toDateString_capital tz date :
  exists c rest,
    toDateString tz date = String c rest /\
    In c ["S"; "M"; "T"; "W"; "F"; "I"]%char.
Proof.
  destruct date as [tv|].
  - unfold toDateString, dateStringOfDay.
    destruct (civilFromDays _) as [[y m] d].
    set (wd := (localDay tz tv + 4) mod 7).
    assert (Hwd : 0 <= wd < 7) by (apply Z.mod_pos_bound; lia).
    assert (Hcases : wd = 0 \/ wd = 1 \/ wd = 2 \/ wd = 3 \/ wd = 4 \/
                     wd = 5 \/ wd = 6) by lia.
    destruct Hcases as [-> | [-> | [-> | [-> | [-> | [-> | ->]]]]]];
      eexists _, _; (split; [reflexivity | simpl; tauto]).
  - eexists _, _. split; [reflexivity | simpl; tauto].
Qed.

(** So a date string is never the name of an inherited property: looking
    a date key up among the own properties of an object is looking it up. *)
Lemma toDateString_not_inherited tz date :
  ~ In (toDateString tz date) inheritedProperties.
Proof.
  destruct (toDateString_capital tz date) as (c & rest & -> & Hc).
  unfold inheritedProperties. simpl. intros H.
  repeat (destruct H as [H|H];
          [injection H as <- _; simpl in Hc;
           repeat (destruct Hc as [Hc|Hc]; [discriminate Hc|]);
           exact Hc|]).
  exact H.
Qed.

(** *** A date string names its calendar day *)

Unset Implicit Arguments.
























Set Implicit Arguments.


End Dates.

(* ================================================================== *)
(** ** Objects used as dictionaries                                    *)
(* ================================================================== *)

(** The own properties of an object, in insertion order: this is the order
    [Object.values] lists them in (no key of the script is an array index;
    the keys of [dailyData] are date strings). *)
Module Obj.
Section WithValues.
Variable V : Type.

Definition t : Type := list (string * V).

(** The property of [o] itself under the key [k], if there is one. *)
Fixpoint get (o : t) (k : string) : option V :=
  match o with
  | [] => None
  | (k', v) :: rest => if String.eqb k k' then Some v else get rest k
  end.

(** What [o[k]] evaluates to: the property of [o] itself, else the
    built-in that every object inherits under that name, else
    [undefined]. *)
Inductive Property : Type :=
| Own (v : V)
| Inherited (k : string)
| Undefined.

Definition lookup (o : t) (k : string) : Property :=
  match get o k with
  | Some v => Own v
  | None =>
      if existsb (String.eqb k) Dates.inheritedProperties then Inherited k
      else Undefined
  end.

(** [o[k] = v]: an existing property keeps its place, a new one goes last. *)
Fixpoint set (o : t) (k : string) (v : V) : t :=
  match o with
  | [] => [(k, v)]
  | (k', v') :: rest =>
      if String.eqb k k' then (k', v) :: rest else (k', v') :: set rest k v
  end.

(** A mutation [f] of the object stored at [o[k]]. *)
Fixpoint update (o : t) (k : string) (f : V -> V) : t :=
  match o with
  | [] => []
  | (k', v) :: rest =>
      if String.eqb k k' then (k', f v) :: rest else (k', v) :: update rest k f
  end.

(** [Object.keys(o)] and [Object.values(o)] *)
Definition keys (o : t) : list string := map fst o.
Definition values (o : t) : list V := map snd o.

(** An object laid out from a list of keys. *)
Definition tabulate (G : string -> V) (ks : list string) : t :=
  map (fun k => (k, G k)) ks.

Lemma get_tabulate_None G ks k :
  ~ In k ks -> get (tabulate G ks) k = None.
Proof.
  induction ks as [|k' ks IH]; simpl; intros Hk; [reflexivity|].
  destruct (String.eqb_spec k k') as [->|Hne].
  - exfalso. apply Hk. now left.
  - apply IH. intros Hin. apply Hk. now right.
Qed.

Lemma get_tabulate_Some G ks k :
  In k ks -> get (tabulate G ks) k = Some (G k).
Proof.
  induction ks as [|k' ks IH]; simpl; intros Hk; [contradiction|].
  destruct (String.eqb_spec k k') as [->|Hne]; [reflexivity|].
  destruct Hk as [Heq|Hin]; [congruence | now apply IH].
Qed.

Lemma set_absent o k v :
  ~ In k (keys o) -> set o k v = o ++ [(k, v)].
Proof.
  induction o as [|[k' v'] o IH]; simpl; intros Hk; [reflexivity|].
  destruct (String.eqb_spec k k') as [->|Hne].
  - exfalso. apply Hk. now left.
  - f_equal. apply IH. intros Hin. apply Hk. now right.
Qed.

Lemma update_absent o k f :
  ~ In k (keys o) -> update o k f = o.
Proof.
  induction o as [|[k' v'] o IH]; simpl; intros Hk; [reflexivity|].
  destruct (String.eqb_spec k k') as [->|Hne].
  - exfalso. apply Hk. now left.
  - f_equal. apply IH. intros Hin. apply Hk. now right.
Qed.

Lemma update_last o k v f :
  ~ In k (keys o) -> update (o ++ [(k, v)]) k f = o ++ [(k, f v)].
Proof.
  induction o as [|[k' v'] o IH]; simpl; intros Hk.
  - now rewrite String.eqb_refl.
  - destruct (String.eqb_spec k k') as [->|Hne].
    + exfalso. apply Hk. now left.
    + f_equal. apply IH. intros Hin. apply Hk. now right.
Qed.

Lemma update_update o k f g :
  update (update o k f) k g = update o k (fun v => g (f v)).
Proof.
  induction o as [|[k' v'] o IH]; simpl; [reflexivity|].
  destruct (String.eqb_spec k k') as [->|Hne]; simpl.
  - now rewrite String.eqb_refl.
  - destruct (String.eqb_spec k k'); [contradiction|]. now rewrite IH.
Qed.

Lemma keys_tabulate G ks : keys (tabulate G ks) = ks.
Proof.
  unfold keys, tabulate. rewrite map_map. simpl. apply map_id.
Qed.

Lemma update_tabulate G ks k f :
  NoDup ks ->
  update (tabulate G ks) k f =
  tabulate (fun k' => if String.eqb k' k then f (G k') else G k') ks.
Proof.
  induction 1 as [|k' ks Hnotin Hnodup IH]; simpl; [reflexivity|].
  rewrite (String.eqb_sym k' k).
  destruct (String.eqb_spec k k') as [->|Hne].
  - f_equal. unfold tabulate. apply map_ext_in. intros a Ha.
    destruct (String.eqb_spec a k') as [->|_]; [contradiction | reflexivity].
  - now rewrite IH.
Qed.

End WithValues.

Arguments Inherited {V} k.
Arguments Undefined {V}.

End Obj.

(* ================================================================== *)
(** ** The forecast aggregator                                         *)
(* ================================================================== *)

Module Forecast.
Import JS.

(** One entry of a [weather] array of the provider. *)
Record Condition : Type := {
  id : Z;
  main : string;
  description : string;
  icon : string
}.

(** One element of [forecastData.list]: [item.dt], [item.main.temp],
    [item.main.humidity], [item.wind.speed], [item.weather]. *)
Record ForecastItem : Type := {
  dt : Z;
  main_temp : Q;
  main_humidity : Q;
  wind_speed : Q;
  item_weather : list Condition
}.

(** The object kept in [dailyData] under a date key. *)
Record DayData : Type := {
  day_date : Dates.Date;
  temps : list Q;
  day_weather : option Condition;
  humidity : list Q;
  windSpeed : list Q
}.

(** One element of the array [groupForecastByDay] returns. *)
Record DailySummary : Type := {
  date : Dates.Date;
  maxTemp : Number;
  minTemp : Number;
  weather : option Condition;
  avgHumidity : Number;
  avgWindSpeed : Number
}.

Definition push_temps (x : Q) (day : DayData) : DayData :=
  {| day_date := day_date day; temps := temps day ++ [x];
     day_weather := day_weather day; humidity := humidity day;
     windSpeed := windSpeed day |}.

Definition push_humidity (x : Q) (day : DayData) : DayData :=
  {| day_date := day_date day; temps := temps day;
     day_weather := day_weather day; humidity := humidity day ++ [x];
     windSpeed := windSpeed day |}.

Definition push_windSpeed (x : Q) (day : DayData) : DayData :=
  {| day_date := day_date day; temps := temps day;
     day_weather := day_weather day; humidity := humidity day;
     windSpeed := windSpeed day ++ [x] |}.

(** [Object.values(dailyData).map(day => ({...}))], one day. *)
Definition summarize (day : DayData) : DailySummary :=
  {| date := day_date day;
     maxTemp := Math_round (Math_max (map Num (temps day)));
     minTemp := Math_round (Math_min (map Num (temps day)));
     weather := day_weather day;
     avgHumidity :=
       Math_round (div (reduce_sum (map Num (humidity day)))
                       (length_of (humidity day)));
     avgWindSpeed :=
       Math_round (mul (div (reduce_sum (map Num (windSpeed day)))
                            (length_of (windSpeed day)))
                       (Num (double (36 # 10)))) |}.

Section Grouping.
Variable LocalTZA : Z -> Z.

(** [new Date(item.dt * 1000)] and its [toDateString()].  For a whole
    number of seconds the product is exact as long as the date is valid:
    integers up to [2^53] are doubles, and a product beyond them is a
    number beyond [Dates.maxTimeValue] however it is rounded. *)
Definition dateOf (item : ForecastItem) : Dates.Date :=
  Dates.newDate (dt item * 1000).
Definition dateKeyOf (item : ForecastItem) : string :=
  Dates.toDateString LocalTZA (dateOf item).

(** The body of [forecastList.forEach(item => {...})]. *)
Definition forEachItem (dailyData : Obj.t DayData) (item : ForecastItem)
  : Obj.t DayData :=
  let date := dateOf item in
  let dateKey := Dates.toDateString LocalTZA date in
  let dailyData :=
    match Obj.get dailyData dateKey with
    | None =>
        Obj.set dailyData dateKey
          {| day_date := date; temps := [];
             day_weather := nth_error (item_weather item) 0;
             humidity := []; windSpeed := [] |}
    | Some _ => dailyData
    end in
  let dailyData := Obj.update dailyData dateKey (push_temps (main_temp item)) in
  let dailyData :=
    Obj.update dailyData dateKey (push_humidity (main_humidity item)) in
  Obj.update dailyData dateKey (push_windSpeed (wind_speed item)).

(** [dailyData] when the [forEach] is over. *)
Definition groupByDay (forecastList : list ForecastItem) : Obj.t DayData :=
  fold_left forEachItem forecastList [].

Definition groupForecastByDay (forecastList : list ForecastItem)
  : list DailySummary :=
  map summarize (Obj.values (groupByDay forecastList)).

(** *** What the grouping is specified against *)

(** The samples of the calendar day [k], in input order. *)
Definition samplesOfDay (k : string) (l : list ForecastItem)
  : list ForecastItem :=
  filter (fun item => String.eqb (dateKeyOf item) k) l.

(** The calendar days of the input, each once, in the order of their first
    sample. *)
Fixpoint distinctDays (l : list ForecastItem) : list string :=
  match l with
  | [] => []
  | item :: rest =>
      dateKeyOf item ::
      filter (fun k => negb (String.eqb k (dateKeyOf item))) (distinctDays rest)
  end.

(** The day data of a group of samples [g] whose first sample is [first]. *)
Definition dayDataOf (first : ForecastItem) (g : list ForecastItem) : DayData :=
  {| day_date := dateOf first;
     temps := map main_temp g;
     day_weather := nth_error (item_weather first) 0;
     humidity := map main_humidity g;
     windSpeed := map wind_speed g |}.

(** *** The loop against its specification *)

(** The three pushes of one iteration. *)
Definition pushItem (item : ForecastItem) (day : DayData) : DayData :=
  push_windSpeed (wind_speed item)
    (push_humidity (main_humidity item) (push_temps (main_temp item) day)).

(** The day data of the day [k] of the input [l]. *)
Definition dayOf (l : list ForecastItem) (k : string) : DayData :=
  match samplesOfDay k l with
  | first :: _ => dayDataOf first (samplesOfDay k l)
  | [] => {| day_date := Dates.Invalid; temps := []; day_weather := None;
             humidity := []; windSpeed := [] |}
  end.

Lemma pushItem_dayDataOf first g item :
  pushItem item (dayDataOf first g) = dayDataOf first (g ++ [item]).
Proof.
  unfold pushItem, dayDataOf, push_windSpeed, push_humidity, push_temps.
  simpl. now rewrite !map_app.
Qed.

Lemma samplesOfDay_snoc k l item :
  samplesOfDay k (l ++ [item]) =
  samplesOfDay k l ++ (if String.eqb (dateKeyOf item) k then [item] else []).
Proof.
  unfold samplesOfDay. rewrite filter_app. simpl.
  now destruct (String.eqb (dateKeyOf item) k).
Qed.

Lemma distinctDays_In l k :
  In k (distinctDays l) <-> In k (map dateKeyOf l).
Proof.
  induction l as [|item l IH]; simpl; [tauto|].
  rewrite filter_In, IH, negb_true_iff, String.eqb_neq.
  destruct (string_dec (dateKeyOf item) k) as [->|Hne]; [tauto|].
  split; intros [H|H]; try tauto; right; tauto || (split; [tauto | congruence]).
Qed.

Lemma distinctDays_NoDup l : NoDup (distinctDays l).
Proof.
  induction l as [|item l IH]; simpl; constructor.
  - rewrite filter_In, negb_true_iff, String.eqb_neq. tauto.
  - now apply NoDup_filter.
Qed.

Lemma distinctDays_snoc l item :
  distinctDays (l ++ [item]) =
  if in_dec string_dec (dateKeyOf item) (distinctDays l)
  then distinctDays l
  else distinctDays l ++ [dateKeyOf item].
Proof.
  induction l as [|a l IH]; simpl; [reflexivity|].
  rewrite IH. clear IH.
  destruct (in_dec string_dec (dateKeyOf item) (distinctDays l)) as [Hin|Hout];
    destruct (string_dec (dateKeyOf a) (dateKeyOf item)) as [Heq|Hne].
  - reflexivity.
  - destruct (in_dec _ _ _) as [_|Hout]; [reflexivity|].
    exfalso. apply Hout. rewrite filter_In, negb_true_iff, String.eqb_neq.
    split; [assumption | congruence].
  - rewrite filter_app. simpl. rewrite Heq, String.eqb_refl. simpl.
    now rewrite app_nil_r.
  - rewrite filter_app. simpl.
    destruct (String.eqb_spec (dateKeyOf item) (dateKeyOf a)); [congruence|].
    simpl. destruct (in_dec _ _ _) as [Hin|_]; [|reflexivity].
    apply filter_In in Hin. tauto.
Qed.

Lemma samplesOfDay_nil k l :
  ~ In k (distinctDays l) -> samplesOfDay k l = [].
Proof.
  rewrite distinctDays_In. intros Hk.
  induction l as [|item l IH]; simpl; [reflexivity|].
  destruct (String.eqb_spec (dateKeyOf item) k) as [Heq|_].
  - exfalso. apply Hk. now left.
  - apply IH. intros Hin. apply Hk. now right.
Qed.

Lemma samplesOfDay_first k l :
  In k (distinctDays l) ->
  exists first rest,
    samplesOfDay k l = first :: rest /\
    find (fun item => String.eqb (dateKeyOf item) k) l = Some first.
Proof.
  rewrite distinctDays_In.
  induction l as [|item l IH]; simpl; [contradiction|].
  intros Hk. destruct (String.eqb_spec (dateKeyOf item) k) as [Heq|Hne].
  - now exists item, (samplesOfDay k l).
  - destruct Hk as [Hk|Hk]; [contradiction | now apply IH].
Qed.

Lemma forEachItem_pushItem dailyData item :
  forEachItem dailyData item =
  Obj.update
    (match Obj.get dailyData (dateKeyOf item) with
     | None =>
         Obj.set dailyData (dateKeyOf item)
           {| day_date := dateOf item; temps := [];
              day_weather := nth_error (item_weather item) 0;
              humidity := []; windSpeed := [] |}
     | Some _ => dailyData
     end)
    (dateKeyOf item) (pushItem item).
Proof.
  unfold forEachItem. now rewrite !Obj.update_update.
Qed.

(** After the loop, [dailyData] holds the distinct days of the input in the
    order of their first samples, each with the data of its own samples. *)
Lemma groupByDay_tabulate l :
  groupByDay l = Obj.tabulate (dayOf l) (distinctDays l).
Proof.
  unfold groupByDay.
  induction l as [|item l IH] using rev_ind; [reflexivity|].
  rewrite fold_left_app. simpl. rewrite IH. clear IH.
  rewrite forEachItem_pushItem, distinctDays_snoc.
  destruct (in_dec string_dec (dateKeyOf item) (distinctDays l)) as [Hin|Hout].
  - rewrite (Obj.get_tabulate_Some _ _ _ Hin).
    rewrite Obj.update_tabulate by apply distinctDays_NoDup.
    apply map_ext_in. intros k Hk. f_equal.
    unfold dayOf. rewrite samplesOfDay_snoc.
    destruct (samplesOfDay_first _ _ Hk) as (first & rest & Hs & _).
    rewrite Hs. simpl. rewrite (String.eqb_sym k).
    destruct (String.eqb (dateKeyOf item) k).
    + apply pushItem_dayDataOf.
    + now rewrite app_nil_r.
  - rewrite (Obj.get_tabulate_None _ _ _ Hout).
    rewrite Obj.set_absent by now rewrite Obj.keys_tabulate.
    rewrite Obj.update_last by now rewrite Obj.keys_tabulate.
    unfold Obj.tabulate. rewrite map_app. simpl. f_equal.
    + apply map_ext_in. intros k Hk. f_equal.
      unfold dayOf. rewrite samplesOfDay_snoc.
      destruct (String.eqb_spec (dateKeyOf item) k) as [Heq|_];
        [congruence | now rewrite app_nil_r].
    + unfold dayOf. rewrite samplesOfDay_snoc, String.eqb_refl.
      rewrite (samplesOfDay_nil _ _ Hout). reflexivity.
Qed.

Lemma groupForecastByDay_map l :
  groupForecastByDay l = map (fun k => summarize (dayOf l k)) (distinctDays l).
Proof.
  unfold groupForecastByDay, Obj.values.
  rewrite groupByDay_tabulate. unfold Obj.tabulate. now rewrite !map_map.
Qed.

End Grouping.

(** Two days of samples, the later day first. *)
Definition rain : Condition :=
  {| id := 500; main := "Rain"; description := "light rain"; icon := "10d" |}.
Definition clear : Condition :=
  {| id := 800; main := "Clear"; description := "clear sky"; icon := "01d" |}.

Definition sample (t : Z) (temp hum wind : Q) (c : Condition) : ForecastItem :=
  {| dt := t; main_temp := temp; main_humidity := hum; wind_speed := wind;
     item_weather := [c] |}.

Definition twoDays : list ForecastItem :=
  [ sample 1793664000 (123 # 10) 80 5 rain;
    sample 1793577600 (204 # 10) 61 5 rain;
    sample 1793588400 (216 # 10) 64 7 clear;
    sample 1793674800 (119 # 10) 83 3 clear ].

(** The summary of the second day of [twoDays]. *)
Definition secondOfNovember : DailySummary :=
  {| date := Dates.Valid 1793577600000;
     maxTemp := ofZ 22; minTemp := ofZ 20;
     weather := Some rain;
     avgHumidity := ofZ 63; avgWindSpeed := ofZ 22 |}.

(** *** The words of the specification *)

Local Open Scope Q_scope.


(** The calendar day a summary stands for. *)
Definition dayOfSummary (tz : Z -> Z) (d : DailySummary) : string :=
  Dates.toDateString tz (date d).

Definition greatest (m : Q) (l : list Q) : Prop :=
  (exists x, In x l /\ x == m) /\ forall x, In x l -> x <= m.

Definition least (m : Q) (l : list Q) : Prop :=
  (exists x, In x l /\ x == m) /\ forall x, In x l -> m <= x.

Definition mean (l : list Q) : Q :=
  fold_right Qplus 0 l / inject_Z (Z.of_nat (List.length l)).

(** [z] is the integer nearest to [q], the greater one of two. *)
Definition nearestInteger (q : Q) (z : Z) : Prop :=
  inject_Z z - (1 # 2) <= q /\ q < inject_Z z + (1 # 2).

(** The position of the first sample of the day [k]. *)
Fixpoint firstIndex (tz : Z -> Z) (k : string) (l : list ForecastItem)
  : option nat :=
  match l with
  | [] => None
  | item :: rest =>
      if String.eqb (dateKeyOf tz item) k then Some O
      else option_map S (firstIndex tz k rest)
  end.

(** The first sample of the day [k1] comes before the first of [k2]. *)
Definition precedes (tz : Z -> Z) (l : list ForecastItem) (k1 k2 : string)
  : Prop :=
  match firstIndex tz k1 l, firstIndex tz k2 l with
  | Some i, Some j => (i < j)%nat
  | _, _ => False
  end.

Lemma nearestInteger_floor q q' :
  q == q' -> nearestInteger q' (Qfloor (q + (1 # 2))).
Proof.
  intros Heq. unfold nearestInteger. rewrite <- Heq.
  pose proof (Qfloor_le (q + (1 # 2))) as Hlo.
  pose proof (Qlt_floor (q + (1 # 2))) as Hhi.
  rewrite inject_Z_plus in Hhi. split.
  - apply Qplus_le_l with (z := 1 # 2). ring_simplify.
    ring_simplify in Hlo. exact Hlo.
  - apply Qplus_lt_l with (z := 1 # 2).
    setoid_replace (inject_Z (Qfloor (q + (1 # 2))) + (1 # 2) + (1 # 2))
      with (inject_Z (Qfloor (q + (1 # 2))) + inject_Z 1) by ring.
    exact Hhi.
Qed.

Lemma nearestInteger_unique q z1 z2 :
  nearestInteger q z1 -> nearestInteger q z2 -> z1 = z2.
Proof.
  unfold nearestInteger, Qle, Qlt. destruct q as [n dq]. simpl.
  intros [H1 H2] [H3 H4]. nia.
Qed.

Lemma In_groupForecastByDay tz l d :
  In d (groupForecastByDay tz l) ->
  exists first rest,
    samplesOfDay tz (dayOfSummary tz d) l = first :: rest /\
    find (fun item => String.eqb (dateKeyOf tz item) (dayOfSummary tz d)) l
      = Some first /\
    d = summarize (dayDataOf first (first :: rest)).
Proof.
  rewrite groupForecastByDay_map, in_map_iff.
  intros (k & <- & Hk).
  destruct (samplesOfDay_first tz _ _ Hk) as (first & rest & Hs & Hfind).
  assert (Hkey : dayOfSummary tz (summarize (dayOf tz l k)) = k).
  { unfold dayOf. rewrite Hs. unfold dayOfSummary. simpl.
    apply find_some in Hfind. now apply String.eqb_eq. }
  rewrite Hkey. exists first, rest. repeat split; try assumption.
  unfold dayOf. now rewrite Hs.
Qed.

Lemma summarize_maxTemp first rest :
  exists hi,
    greatest hi (map main_temp (first :: rest)) /\
    maxTemp (summarize (dayDataOf first (first :: rest)))
      = ofZ (Qfloor (hi + (1 # 2))).
Proof.
  exists (fold_left Qmax (map main_temp rest) (main_temp first)). split.
  - split; [apply fold_Qmax_In | intros x; apply fold_Qmax_ge].
  - unfold summarize, dayDataOf. cbn [maxTemp temps map].
    now rewrite Math_max_cons.
Qed.

Lemma summarize_minTemp first rest :
  exists lo,
    least lo (map main_temp (first :: rest)) /\
    minTemp (summarize (dayDataOf first (first :: rest)))
      = ofZ (Qfloor (lo + (1 # 2))).
Proof.
  exists (fold_left Qmin (map main_temp rest) (main_temp first)). split.
  - split; [apply fold_Qmin_In | intros x; apply fold_Qmin_le].
  - unfold summarize, dayDataOf. cbn [minTemp temps map].
    now rewrite Math_min_cons.
Qed.

Lemma sum_bounds (a b : Q) l :
  (forall x, In x l -> a <= x /\ x <= b) ->
  inject_Z (Z.of_nat (List.length l)) * a <= fold_right Qplus 0 l /\
  fold_right Qplus 0 l <= inject_Z (Z.of_nat (List.length l)) * b.
Proof.
  induction l as [|x l IH]; intros Hall.
  - simpl. split; rewrite Qmult_0_l; apply Qle_refl.
  - destruct (Hall x (or_introl eq_refl)) as [Hax Hxb].
    destruct IH as [IHa IHb]; [intros y Hy; apply Hall; now right|].
    cbn [List.length fold_right]. rewrite Nat2Z.inj_succ.
    unfold Z.succ. rewrite inject_Z_plus.
    split.
    + setoid_replace ((inject_Z (Z.of_nat (List.length l)) + inject_Z 1) * a)
        with (a + inject_Z (Z.of_nat (List.length l)) * a) by ring.
      now apply Qplus_le_compat.
    + setoid_replace ((inject_Z (Z.of_nat (List.length l)) + inject_Z 1) * b)
        with (b + inject_Z (Z.of_nat (List.length l)) * b) by ring.
      now apply Qplus_le_compat.
Qed.

(** The mean of up to a thousand numbers of magnitudes up to a thousand,
    as [reduce] and the division compute it, is within [2.5e-10] of their
    mean. *)
Lemma reduce_sum_div_length x l :
  (forall y, In y (x :: l) -> Qabs y <= 1000) ->
  (List.length (x :: l) <= 1000)%nat ->
  exists q,
    div (reduce_sum (map Num (x :: l))) (length_of (x :: l)) = Num q /\
    Qabs q <= 1001 /\
    Qabs (q - mean (x :: l)) <= 25 # 100000000000.
Proof.
  intros Hall Hlen. unfold reduce_sum, length_of, mean.
  set (g := x :: l) in *.
  set (n := inject_Z (Z.of_nat (List.length g))).
  assert (Hn : 1 <= n).
  { unfold n, g, Qle, inject_Z. simpl. lia. }
  destruct (@fold_add_error g 0 0 0 Hall) as (s & Hs & Ds).
  { lia. }
  { lia. }
  { discriminate. }
  { discriminate. }
  rewrite Z.add_0_l in Ds. fold n in Ds.
  destruct (@sum_bounds (- (1000)) 1000 g) as [Hlo Hhi].
  { intros y Hy. apply Qabs_Qle_condition. now apply Hall. }
  fold n in Hlo, Hhi.
  set (total := fold_right Qplus 0 g) in *.
  rewrite Hs. unfold div, ofZ. fold n.
  destruct (Qeq_bool n 0) eqn:E.
  { apply Qeq_bool_iff in E. lra. }
  assert (Hpos : 0 < n) by lra.
  assert (Hmean : - (1000) <= total / n /\ total / n <= 1000).
  { split; [apply Qle_shift_div_l | apply Qle_shift_div_r];
      try exact Hpos; lra. }
  assert (Hclose : - (2000000 * epsilon) <= s / n - total / n /\
                   s / n - total / n <= 2000000 * epsilon).
  { apply Qabs_Qle_condition in Ds.
    setoid_replace (s / n - total / n) with ((s - (0 + total)) / n)
      by (field; lra).
    split; [apply Qle_shift_div_l | apply Qle_shift_div_r];
      try exact Hpos; lra. }
  unfold epsilon in Hclose.
  set (t := s / n) in *. set (m := total / n) in *.
  destruct (@rnd_error_relative t 1001) as [Er Dr];
    [apply Qabs_Qle_condition; clearbody t m; split; lra
    | discriminate | discriminate |].
  rewrite Er. exists (roundToDouble t).
  apply Qabs_Qle_condition in Dr. unfold epsilon in Dr.
  set (q := roundToDouble t) in *. clearbody q t m.
  split; [reflexivity|].
  split; apply Qabs_Qle_condition; split; lra.
Qed.

(** The double that the literal [3.6] stands for. *)
Lemma literal_36 :
  Qabs (double (36 # 10) - (36 # 10)) <= 1 # 1000000000000000.
Proof. vm_compute. discriminate. Qed.

(** The same mean times [3.6]: within [1e-9] of the exact product. *)
Lemma reduce_sum_div_length_mul x l :
  (forall y, In y (x :: l) -> Qabs y <= 1000) ->
  (List.length (x :: l) <= 1000)%nat ->
  exists v,
    mul (div (reduce_sum (map Num (x :: l))) (length_of (x :: l)))
        (Num (double (36 # 10))) = Num v /\
    Qabs (v - mean (x :: l) * (36 # 10)) <= 1 # 1000000000.
Proof.
  intros Hall Hlen.
  destruct (reduce_sum_div_length Hall Hlen) as (q & -> & Hq & Dq).
  pose proof literal_36 as Hd.
  set (d := double (36 # 10)) in *. set (m := mean (x :: l)) in *.
  clearbody d m. cbn [mul].
  apply Qabs_Qle_condition in Hq, Dq, Hd.
  assert (Hprod : - (4000) <= q * d /\ q * d <= 4000) by (split; nra).
  destruct (@rnd_error_relative (q * d) 4000) as [Er Dr];
    [apply Qabs_Qle_condition; exact Hprod | discriminate | discriminate |].
  rewrite Er. exists (roundToDouble (q * d)). split; [reflexivity|].
  apply Qabs_Qle_condition in Dr. unfold epsilon in Dr.
  set (v := roundToDouble (q * d)) in *. clearbody v.
  assert (Hqd : - (2 # 1000000000000) <= q * d - q * (36 # 10) /\
                q * d - q * (36 # 10) <= 2 # 1000000000000) by (split; nra).
  set (w := q * d) in *. clearbody w.
  apply Qabs_Qle_condition. split; lra.
Qed.

(** A day of four samples, with the wind speeds 4.47, 3.31, 4.94 and
    2.28 m/s as the provider's JSON gives them. *)
Definition breezy : list ForecastItem :=
  [ sample 1793577600 20 60 (double (447 # 100)) rain;
    sample 1793588400 20 60 (double (331 # 100)) rain;
    sample 1793599200 20 60 (double (494 # 100)) rain;
    sample 1793610000 20 60 (double (228 # 100)) rain ].

(** C2, the counterexample.  The wind speeds of [breezy] add up to 15,
    so that their mean times 3.6 is 13.5 and its nearest integer 14; the
    sum the code computes falls short of 15 by a rounding, and its
    [avgWindSpeed] is 13. *)
Lemma groupForecastByDay_aggregates_fails :
  ~ (forall tz l d,
        In d (groupForecastByDay tz l) ->
        exists first rest z,
          samplesOfDay tz (dayOfSummary tz d) l = first :: rest /\
          nearestInteger (mean (map wind_speed (first :: rest)) * (36 # 10)) z /\
          avgWindSpeed d = ofZ z).
Proof.
  intros H.
  assert (Hd : exists d, groupForecastByDay Dates.UTC breezy = [d] /\
                         avgWindSpeed d = ofZ 13).
  { eexists. split; vm_compute; reflexivity. }
  destruct Hd as (d & Hd & Hcode).
  destruct (H Dates.UTC breezy d) as (first & rest & z & Hs & Hz & Hspec).
  { rewrite Hd. now left. }
  assert (Hday : samplesOfDay Dates.UTC (dayOfSummary Dates.UTC d) breezy
                 = breezy).
  { assert (Hk : dayOfSummary Dates.UTC d = "Mon Nov 02 2026"%string).
    { vm_compute in Hd. injection Hd as <-. vm_compute. reflexivity. }
    rewrite Hk. vm_compute. reflexivity. }
  rewrite Hday in Hs. injection Hs as <- <-.
  assert (H14 : nearestInteger
                  (mean (map wind_speed
                           (sample 1793577600 20 60 (double (447 # 100)) rain
                            :: [sample 1793588400 20 60 (double (331 # 100)) rain;
                                sample 1793599200 20 60 (double (494 # 100)) rain;
                                sample 1793610000 20 60 (double (228 # 100)) rain]))
                   * (36 # 10)) 14)
    by (split; vm_compute; [discriminate | reflexivity]).
  rewrite (nearestInteger_unique Hz H14) in Hspec.
  rewrite Hcode in Hspec. discriminate.
Qed.

(** C2.  Every summary returned by [groupForecastByDay] stands for a
    non-empty group of samples, those of its calendar day, and holds the
    aggregates of that group: [maxTemp] is the integer nearest to the
    greatest temperature of the group and [minTemp] the integer nearest to
    the least; [avgHumidity] and [avgWindSpeed] are the integers nearest
    to the mean humidity and to the mean wind speed times 3.6 as binary64
    computes them: the values added up one by one from 0, the sum divided
    by their number and, for the wind, the quotient multiplied by 3.6
    (the conversion to km/h is part of the aggregation), each operation
    rounded to the nearest double.  For a group of up to a thousand
    samples, of humidities and wind speeds of magnitudes up to a thousand,
    the numbers so computed are within [1e-9] of the mean humidity and of
    the mean wind speed times 3.6.  A group with the wind speeds 5 and 7
    has [avgWindSpeed] 22. *)
Theorem groupForecastByDay_aggregates tz l d :
  In d (groupForecastByDay tz l) ->
  exists first rest,
    samplesOfDay tz (dayOfSummary tz d) l = first :: rest /\
    (exists hi z,
        greatest hi (map main_temp (first :: rest)) /\
        nearestInteger hi z /\ maxTemp d = ofZ z) /\
    (exists lo z,
        least lo (map main_temp (first :: rest)) /\
        nearestInteger lo z /\ minTemp d = ofZ z) /\
    avgHumidity d
    = Math_round
        (div (fold_left add (map Num (map main_humidity (first :: rest)))
                (Num 0))
             (ofZ (Z.of_nat (List.length (first :: rest))))) /\
    avgWindSpeed d
    = Math_round
        (mul (div (fold_left add (map Num (map wind_speed (first :: rest)))
                     (Num 0))
                  (ofZ (Z.of_nat (List.length (first :: rest)))))
             (Num (double (36 # 10)))) /\
    ((List.length (first :: rest) <= 1000)%nat ->
     (forall s, In s (first :: rest) ->
        Qabs (main_humidity s) <= 1000 /\ Qabs (wind_speed s) <= 1000) ->
     exists h w,
       avgHumidity d = Math_round (Num h) /\
       Qabs (h - mean (map main_humidity (first :: rest)))
       <= 1 # 1000000000 /\
       avgWindSpeed d = Math_round (Num w) /\
       Qabs (w - mean (map wind_speed (first :: rest)) * (36 # 10))
       <= 1 # 1000000000) /\
    (map wind_speed (first :: rest) = [5; 7] -> avgWindSpeed d = ofZ 22).
Proof.
  intros Hd.
  destruct (In_groupForecastByDay _ _ _ Hd) as (first & rest & Hs & _ & ->).
  exists first, rest. split; [exact Hs|].
  split; [|split; [|split; [|split; [|split]]]].
  - destruct (summarize_maxTemp first rest) as (hi & Hhi & ->).
    exists hi, (Qfloor (hi + (1 # 2))).
    split; [exact Hhi | split; [now apply nearestInteger_floor | reflexivity]].
  - destruct (summarize_minTemp first rest) as (lo & Hlo & ->).
    exists lo, (Qfloor (lo + (1 # 2))).
    split; [exact Hlo | split; [now apply nearestInteger_floor | reflexivity]].
  - unfold summarize, dayDataOf, reduce_sum, length_of.
    cbn [avgHumidity humidity]. now rewrite !length_map.
  - unfold summarize, dayDataOf, reduce_sum, length_of.
    cbn [avgWindSpeed windSpeed]. now rewrite !length_map.
  - intros Hlen Hall.
    destruct (@reduce_sum_div_length (main_humidity first)
                (map main_humidity rest)) as (h & Hh & _ & Dh).
    { intros y Hy. change (In y (map main_humidity (first :: rest))) in Hy.
      apply in_map_iff in Hy. destruct Hy as (s0 & <- & Hs0).
      now apply Hall. }
    { cbn [List.length] in *. now rewrite length_map. }
    destruct (@reduce_sum_div_length_mul (wind_speed first)
                (map wind_speed rest)) as (w & Hw & Dw).
    { intros y Hy. change (In y (map wind_speed (first :: rest))) in Hy.
      apply in_map_iff in Hy. destruct Hy as (s0 & <- & Hs0).
      now apply Hall. }
    { cbn [List.length] in *. now rewrite length_map. }
    exists h, w. unfold summarize, dayDataOf.
    cbn [avgHumidity humidity avgWindSpeed windSpeed].
    change (map main_humidity (first :: rest))
      with (main_humidity first :: map main_humidity rest).
    change (map wind_speed (first :: rest))
      with (wind_speed first :: map wind_speed rest).
    rewrite Hh, Hw. split; [reflexivity|]. split; [|split; [reflexivity|]].
    + eapply Qle_trans; [exact Dh | discriminate].
    + exact Dw.
  - intros Hw. unfold summarize, dayDataOf. cbn [avgWindSpeed windSpeed].
    rewrite Hw. vm_compute. reflexivity.
Qed.

Lemma groupForecastByDay_aggregates_witness :
  In secondOfNovember (groupForecastByDay Dates.UTC twoDays) /\
  avgWindSpeed secondOfNovember = ofZ 22.
Proof.
  assert (Hd : In secondOfNovember (groupForecastByDay Dates.UTC twoDays))
    by (vm_compute; right; left; reflexivity).
  split; [exact Hd|].
  destruct (groupForecastByDay_aggregates Dates.UTC twoDays secondOfNovember Hd)
    as (first & rest & Hs & _ & _ & _ & _ & _ & Hw).
  apply Hw. vm_compute in Hs. injection Hs as <- <-. reflexivity.
Defined.

Lemma fold_Qmin_le_Qmax l :
  forall a b, a <= b -> fold_left Qmin l a <= fold_left Qmax l b.
Proof.
  induction l as [|x l IH]; intros a b Hab; simpl; [exact Hab|].
  apply IH. apply Qle_trans with x; [apply Q.le_min_r | apply Q.le_max_r].
Qed.

(** C7.  In every summary returned by [groupForecastByDay], [maxTemp >=
    minTemp]; and when the day of the summary has exactly one sample, both
    are [Math.round] of the temperature of that sample. *)
Theorem groupForecastByDay_max_ge_min tz l d :
  In d (groupForecastByDay tz l) ->
  ge (maxTemp d) (minTemp d) = true /\
  forall s,
    samplesOfDay tz (dayOfSummary tz d) l = [s] ->
    maxTemp d = Math_round (Num (main_temp s)) /\
    minTemp d = Math_round (Num (main_temp s)).
Proof.
  intros Hd.
  destruct (In_groupForecastByDay _ _ _ Hd) as (first & rest & Hs & _ & ->).
  split.
  - unfold summarize, dayDataOf. cbn [maxTemp minTemp temps map].
    rewrite Math_max_cons, Math_min_cons. unfold Math_round, ofZ, ge.
    apply Qle_bool_iff. rewrite <- Zle_Qle. apply Qfloor_resp_le.
    apply Qplus_le_l. apply fold_Qmin_le_Qmax. apply Qle_refl.
  - intros s Hone. rewrite Hs in Hone. injection Hone as -> ->.
    split; reflexivity.
Qed.

Lemma groupForecastByDay_max_ge_min_witness :
  In secondOfNovember (groupForecastByDay Dates.UTC twoDays) /\
  ge (maxTemp secondOfNovember) (minTemp secondOfNovember) = true.
Proof.
  assert (Hd : In secondOfNovember (groupForecastByDay Dates.UTC twoDays))
    by (vm_compute; right; left; reflexivity).
  split; [exact Hd|].
  apply (groupForecastByDay_max_ge_min Dates.UTC twoDays secondOfNovember Hd).
Defined.

(** C6.  The weather of a summary is the condition of the first sample of
    its calendar day in input order (the first entry of that sample's
    [weather] array), whatever the later samples of the day say: for a day
    of two samples, rain then clear, it is rain. *)
Theorem groupForecastByDay_weather_of_first tz l d :
  In d (groupForecastByDay tz l) ->
  (exists first,
      find (fun item => String.eqb (dateKeyOf tz item) (dayOfSummary tz d)) l
        = Some first /\
      weather d = nth_error (item_weather first) 0) /\
  forall s1 s2,
    samplesOfDay tz (dayOfSummary tz d) l = [s1; s2] ->
    item_weather s1 = [rain] -> item_weather s2 = [clear] ->
    weather d = Some rain.
Proof.
  intros Hd.
  destruct (In_groupForecastByDay _ _ _ Hd) as (first & rest & Hs & Hf & ->).
  split.
  - exists first. split; [exact Hf | reflexivity].
  - intros s1 s2 Htwo Hrain _. rewrite Hs in Htwo. injection Htwo as -> _.
    unfold summarize, dayDataOf. cbn [weather day_weather].
    now rewrite Hrain.
Qed.

Lemma groupForecastByDay_weather_of_first_witness :
  In secondOfNovember (groupForecastByDay Dates.UTC twoDays) /\
  weather secondOfNovember = Some rain.
Proof.
  assert (Hd : In secondOfNovember (groupForecastByDay Dates.UTC twoDays))
    by (vm_compute; right; left; reflexivity).
  split; [exact Hd|].
  destruct (groupForecastByDay_weather_of_first Dates.UTC twoDays
              secondOfNovember Hd) as [_ Htwo].
  apply (Htwo (sample 1793577600 (204 # 10) 61 5 rain)
              (sample 1793588400 (216 # 10) 64 7 clear));
    vm_compute; reflexivity.
Defined.

(** *** Order and partition *)

Lemma dayOfSummary_dayOf tz l k :
  In k (distinctDays tz l) -> dayOfSummary tz (summarize (dayOf tz l k)) = k.
Proof.
  intros Hk.
  destruct (samplesOfDay_first tz _ _ Hk) as (first & rest & Hs & Hfind).
  unfold dayOf. rewrite Hs. unfold dayOfSummary. simpl.
  apply find_some in Hfind. now apply String.eqb_eq.
Qed.

Lemma groupForecastByDay_days tz l :
  map (dayOfSummary tz) (groupForecastByDay tz l) = distinctDays tz l.
Proof.
  rewrite groupForecastByDay_map, map_map.
  rewrite <- (map_id (distinctDays tz l)) at 2.
  apply map_ext_in. intros k Hk. now apply dayOfSummary_dayOf.
Qed.

Lemma firstIndex_Some tz k l :
  In k (map (dateKeyOf tz) l) -> exists i, firstIndex tz k l = Some i.
Proof.
  induction l as [|item l IH]; simpl; [contradiction|].
  intros Hk. destruct (String.eqb_spec (dateKeyOf tz item) k) as [_|Hne].
  - now exists O.
  - destruct Hk as [Hk|Hk]; [contradiction|].
    destruct (IH Hk) as (i & ->). now exists (S i).
Qed.

Section SortedLists.
Variables (A B : Type) (R R' : A -> A -> Prop).

Lemma StronglySorted_filter (f : A -> bool) l :
  StronglySorted R l -> StronglySorted R (filter f l).
Proof.
  induction 1 as [|a l Hl IH Hall]; simpl; [constructor|].
  destruct (f a); [|exact IH].
  constructor; [exact IH|].
  rewrite Forall_forall in *. intros x Hx. apply Hall.
  now apply filter_In in Hx.
Qed.

Lemma StronglySorted_weaken l :
  (forall a b, In a l -> In b l -> R a b -> R' a b) ->
  StronglySorted R l -> StronglySorted R' l.
Proof.
  intros Himp Hs. induction Hs as [|a l Hl IH Hall]; constructor.
  - apply IH. intros x y Hx Hy. apply Himp; now right.
  - rewrite Forall_forall in *. intros x Hx.
    apply Himp; [now left | now right | now apply Hall].
Qed.

Lemma StronglySorted_map_inv (S : B -> B -> Prop) (f : A -> B) l :
  (forall a b, S (f a) (f b) -> R a b) ->
  StronglySorted S (map f l) -> StronglySorted R l.
Proof.
  intros Himp. induction l as [|a l IH]; simpl; intros Hs; [constructor|].
  inversion Hs as [|x xs Hxs Hall]; subst. constructor; [now apply IH|].
  rewrite Forall_forall in *. intros y Hy. apply Himp, Hall.
  now apply in_map.
Qed.

End SortedLists.

Lemma distinctDays_sorted tz l :
  StronglySorted (precedes tz l) (distinctDays tz l).
Proof.
  induction l as [|item l IH]; simpl; constructor.
  - apply StronglySorted_weaken with (R := precedes tz l);
      [|now apply StronglySorted_filter].
    intros a b Ha Hb. apply filter_In in Ha, Hb.
    destruct Ha as [_ Ha], Hb as [_ Hb].
    rewrite negb_true_iff, String.eqb_sym in Ha, Hb.
    unfold precedes. simpl. rewrite Ha, Hb.
    destruct (firstIndex tz a l), (firstIndex tz b l); simpl; lia || tauto.
  - rewrite Forall_forall. intros k Hk. apply filter_In in Hk.
    destruct Hk as [Hin Hne]. rewrite negb_true_iff, String.eqb_sym in Hne.
    apply distinctDays_In, firstIndex_Some in Hin. destruct Hin as (j & Hj).
    unfold precedes. simpl. rewrite String.eqb_refl, Hne, Hj. simpl. lia.
Qed.

(** C8.  The summaries come in the order in which the first sample of each
    day appears in the input: their days are the distinct days of the
    input in first-encounter order, and of any two summaries the earlier
    one is the one whose day has its first sample earlier in the input.
    The output is not sorted by date: on [twoDays], whose later day comes
    first, the later date comes first. *)
Theorem groupForecastByDay_first_encounter_order tz l :
  map (dayOfSummary tz) (groupForecastByDay tz l) = distinctDays tz l /\
  StronglySorted
    (fun d1 d2 => precedes tz l (dayOfSummary tz d1) (dayOfSummary tz d2))
    (groupForecastByDay tz l) /\
  map date (groupForecastByDay Dates.UTC twoDays)
    = [Dates.Valid 1793664000000; Dates.Valid 1793577600000].
Proof.
  split; [apply groupForecastByDay_days | split; [|reflexivity]].
  apply StronglySorted_map_inv
    with (S := precedes tz l) (f := dayOfSummary tz); [tauto|].
  rewrite groupForecastByDay_days. apply distinctDays_sorted.
Qed.




Section Counting.
Variables (A K D : Type) (f : A -> K) (g : A -> D).
Hypothesis same : forall a b, g a = g b -> f a = f b.


End Counting.



(** *** More on the grouping *)

(** Three samples in chronological order, two days. *)
Definition chronological : list ForecastItem :=
  [ sample 1793577600 (204 # 10) 61 5 rain;
    sample 1793588400 (216 # 10) 64 7 clear;
    sample 1793664000 (123 # 10) 80 5 rain ].

Lemma dayOf_cons_other tz item l k :
  dateKeyOf tz item <> k -> dayOf tz (item :: l) k = dayOf tz l k.
Proof.
  intros Hne. unfold dayOf, samplesOfDay. simpl.
  now destruct (String.eqb_spec (dateKeyOf tz item) k).
Qed.

Lemma dayOf_first tz l k :
  In k (distinctDays tz l) ->
  exists first,
    In first l /\ dateKeyOf tz first = k /\
    day_date (dayOf tz l k) = dateOf first /\
    day_weather (dayOf tz l k) = nth_error (item_weather first) 0.
Proof.
  intros Hk.
  destruct (samplesOfDay_first tz _ _ Hk) as (first & rest & Hs & Hfind).
  apply find_some in Hfind. destruct Hfind as [Hin Hkey].
  exists first. unfold dayOf. rewrite Hs.
  repeat split; [exact Hin | now apply String.eqb_eq].
Qed.

Lemma StronglySorted_map_of (A B : Type) (S : B -> B -> Prop) (f : A -> B) l :
  StronglySorted (fun a b => S (f a) (f b)) l -> StronglySorted S (map f l).
Proof.
  induction 1 as [|a l Hl IH Hall]; simpl; constructor; [exact IH|].
  rewrite Forall_forall in *. intros y Hy.
  apply in_map_iff in Hy. destruct Hy as (x & <- & Hx). now apply Hall.
Qed.

Lemma dateOf_lt a b :
  (Z.abs (dt a * 1000) <= Dates.maxTimeValue)%Z ->
  (Z.abs (dt b * 1000) <= Dates.maxTimeValue)%Z ->
  (dt a < dt b)%Z -> Dates.lt (dateOf a) (dateOf b) = true.
Proof.
  intros Ha Hb Hlt. unfold dateOf, Dates.newDate.
  destruct (Z.ltb_spec Dates.maxTimeValue (Z.abs (dt a * 1000))); [lia|].
  destruct (Z.ltb_spec Dates.maxTimeValue (Z.abs (dt b * 1000))); [lia|].
  apply Z.ltb_lt. lia.
Qed.

Lemma distinctDays_chronological tz l :
  StronglySorted (fun a b => (dt a <= dt b)%Z) l ->
  (forall s, In s l -> (Z.abs (dt s * 1000) <= Dates.maxTimeValue)%Z) ->
  StronglySorted
    (fun k1 k2 =>
       Dates.lt (day_date (dayOf tz l k1)) (day_date (dayOf tz l k2)) = true)
    (distinctDays tz l).
Proof.
  induction 1 as [|item l Hl IH Hall]; intros Hvalid; simpl; constructor.
  - apply StronglySorted_weaken
      with (R := fun k1 k2 =>
                   Dates.lt (day_date (dayOf tz l k1))
                            (day_date (dayOf tz l k2)) = true);
      [|apply StronglySorted_filter, IH; intros s Hs; apply Hvalid; now right].
    intros a b Ha Hb. apply filter_In in Ha, Hb.
    destruct Ha as [_ Ha], Hb as [_ Hb].
    rewrite negb_true_iff, String.eqb_neq in Ha, Hb.
    cbv beta.
    rewrite (@dayOf_cons_other tz item l a) by now apply not_eq_sym.
    rewrite (@dayOf_cons_other tz item l b) by now apply not_eq_sym.
    trivial.
  - rewrite Forall_forall. intros k Hk. apply filter_In in Hk.
    destruct Hk as [Hin Hne]. rewrite negb_true_iff, String.eqb_neq in Hne.
    destruct (dayOf_first tz l k Hin) as (first & Hfirst & Hkey & Hdate & _).
    rewrite (@dayOf_cons_other tz item l k) by now apply not_eq_sym.
    rewrite Hdate.
    unfold dayOf, samplesOfDay. simpl. rewrite String.eqb_refl. simpl.
    rewrite Forall_forall in Hall. specialize (Hall first Hfirst).
    assert (Hdt : dt item <> dt first).
    { intros Heq. apply Hne. rewrite <- Hkey.
      unfold dateKeyOf, dateOf. now rewrite Heq. }
    apply dateOf_lt;
      [apply Hvalid; now left | apply Hvalid; now right | lia].
Qed.

(** X5.  Given samples in chronological order (by [dt]), all of them
    within the range of dates (100,000,000 days either side of the epoch),
    the summaries come out in strictly ascending order of date, as [<]
    compares dates. *)
Theorem groupForecastByDay_chronological tz l :
  StronglySorted (fun a b => (dt a <= dt b)%Z) l ->
  (forall s, In s l -> (Z.abs (dt s * 1000) <= Dates.maxTimeValue)%Z) ->
  StronglySorted (fun d1 d2 => Dates.lt (date d1) (date d2) = true)
    (groupForecastByDay tz l).
Proof.
  intros Hsorted Hvalid. rewrite groupForecastByDay_map.
  apply StronglySorted_map_of. now apply distinctDays_chronological.
Qed.

Lemma groupForecastByDay_chronological_witness :
  StronglySorted (fun d1 d2 => Dates.lt (date d1) (date d2) = true)
    (groupForecastByDay Dates.UTC chronological).
Proof.
  apply groupForecastByDay_chronological.
  - unfold chronological.
    repeat (constructor; [|repeat constructor; simpl; lia]). constructor.
  - intros s Hs. simpl in Hs.
    destruct Hs as [<-|[<-|[<-|[]]]]; vm_compute; discriminate.
Defined.

Lemma Qfloor_half (z : Z) : Qfloor (inject_Z z + (1 # 2)) = z.
Proof.
  unfold Qfloor, Qplus, inject_Z. simpl.
  replace (z * 2 + 1)%Z with (1 + z * 2)%Z by lia.
  rewrite Z.div_add by lia. reflexivity.
Qed.

Lemma Math_round_le a b :
  a <= b -> ge (Math_round (Num b)) (Math_round (Num a)) = true.
Proof.
  intros Hab. unfold Math_round, ofZ, ge. apply Qle_bool_iff.
  rewrite <- Zle_Qle. apply Qfloor_resp_le. now apply Qplus_le_l.
Qed.

(** X6.  The rounded temperature of every sample lies between the
    [minTemp] and the [maxTemp] of the summary of its day. *)
Theorem groupForecastByDay_brackets_samples tz l d s :
  In d (groupForecastByDay tz l) ->
  In s l -> dateKeyOf tz s = dayOfSummary tz d ->
  ge (maxTemp d) (Math_round (Num (main_temp s))) = true /\
  ge (Math_round (Num (main_temp s))) (minTemp d) = true.
Proof.
  intros Hd Hs Hkey.
  destruct (In_groupForecastByDay _ _ _ Hd) as (first & rest & Hg & _ & ->).
  assert (Hin : In (main_temp s) (map main_temp (first :: rest))).
  { apply in_map. rewrite <- Hg. apply filter_In. split; [exact Hs|].
    now apply String.eqb_eq. }
  unfold summarize, dayDataOf. cbn [maxTemp minTemp temps map].
  rewrite Math_max_cons, Math_min_cons. split; apply Math_round_le.
  - now apply fold_Qmax_ge.
  - now apply fold_Qmin_le.
Qed.

Lemma groupForecastByDay_brackets_samples_witness :
  ge (maxTemp secondOfNovember) (Math_round (Num (216 # 10))) = true /\
  ge (Math_round (Num (216 # 10))) (minTemp secondOfNovember) = true.
Proof.
  apply (@groupForecastByDay_brackets_samples Dates.UTC twoDays
           secondOfNovember (sample 1793588400 (216 # 10) 64 7 clear)).
  - vm_compute. right. left. reflexivity.
  - simpl. tauto.
  - vm_compute. reflexivity.
Defined.

(** Three samples of one day whose humidities are the same integer of 54
    bits: their sum is rounded, and so is its third. *)
Definition saturated : list ForecastItem :=
  [ sample 1793577600 20 12009599006321332 5 rain;
    sample 1793588400 20 12009599006321332 5 rain;
    sample 1793599200 20 12009599006321332 5 rain ].

(** Beyond 53 bits the mean of equal numbers need not be that number. *)
Lemma avgHumidity_of_equal_numbers :
  double 12009599006321332 == 12009599006321332 /\
  map avgHumidity (groupForecastByDay Dates.UTC saturated)
    = [ofZ (12009599006321332 + 2)].
Proof. split; vm_compute; reflexivity. Qed.

(** X7.  When every humidity of the input lies between two integers (0
    and 100, say), so does the [avgHumidity] of every summary, as long as
    the number of samples times the greater magnitude of the two integers
    has no more than 53 bits: the sums are then rounded between multiples
    of the bounds, and the quotient between the bounds. *)
Theorem groupForecastByDay_avgHumidity_range tz l d (lo hi : Z) :
  In d (groupForecastByDay tz l) ->
  (forall s, In s l ->
     inject_Z lo <= main_humidity s /\ main_humidity s <= inject_Z hi) ->
  (Z.of_nat (List.length l) * Z.max (Z.abs lo) (Z.abs hi) <= 2 ^ 53)%Z ->
  exists z, avgHumidity d = ofZ z /\ (lo <= z <= hi)%Z.
Proof.
  intros Hd Hall Hbits.
  destruct (In_groupForecastByDay _ _ _ Hd) as (first & rest & Hg & _ & ->).
  assert (Hgroup : forall y, In y (map main_humidity (first :: rest)) ->
                     inject_Z lo <= y /\ y <= inject_Z hi).
  { intros y Hy. apply in_map_iff in Hy. destruct Hy as (s & <- & Hs).
    apply Hall. rewrite <- Hg in Hs. now apply filter_In in Hs. }
  assert (Hlen : (List.length (first :: rest) <= List.length l)%nat).
  { rewrite <- Hg. apply filter_length_le. }
  unfold summarize, dayDataOf, reduce_sum, length_of.
  cbn [avgHumidity humidity]. rewrite length_map.
  set (g := first :: rest) in *.
  set (n := Z.of_nat (List.length g)).
  assert (Hn : (1 <= n)%Z) by (unfold n, g; simpl; lia).
  assert (Hnl : (n <= Z.of_nat (List.length l))%Z) by (unfold n; lia).
  destruct (@fold_add_between lo hi (map main_humidity g) 0 0 Hgroup)
    as (s & Hsum & Hs1 & Hs2).
  { lia. }
  { rewrite length_map. fold n. nia. }
  { simpl. apply Qle_refl. }
  { simpl. apply Qle_refl. }
  rewrite length_map in Hs1, Hs2. fold n in Hs1, Hs2.
  simpl Z.add in Hs1, Hs2. rewrite inject_Z_mult in Hs1, Hs2.
  rewrite Hsum. unfold div, ofZ.
  assert (Hpos : 0 < inject_Z n) by (rewrite <- (Zlt_Qlt 0); lia).
  destruct (Qeq_bool (inject_Z n) 0) eqn:E.
  { apply Qeq_bool_iff in E. rewrite E in Hpos. now apply Qlt_irrefl in Hpos. }
  destruct (@rnd_between lo hi (s / inject_Z n)) as (Hr & Hlo & Hhi).
  - nia.
  - nia.
  - apply Qle_shift_div_l; [exact Hpos|]. now rewrite Qmult_comm.
  - apply Qle_shift_div_r; [exact Hpos|]. now rewrite Qmult_comm.
  - rewrite Hr. cbn [Math_round]. eexists. split; [reflexivity|]. split.
    + rewrite <- (Qfloor_Z lo). apply Qfloor_resp_le.
      apply Qle_trans with (roundToDouble (s / inject_Z n)); [exact Hlo|].
      rewrite <- (Qplus_0_r (roundToDouble (s / inject_Z n))) at 1.
      now apply Qplus_le_r.
    + rewrite <- (Qfloor_half hi). apply Qfloor_resp_le. now apply Qplus_le_l.
Qed.

Lemma groupForecastByDay_avgHumidity_range_witness :
  exists z, avgHumidity secondOfNovember = ofZ z /\ (0 <= z <= 100)%Z.
Proof.
  apply (@groupForecastByDay_avgHumidity_range Dates.UTC twoDays
           secondOfNovember 0 100).
  - vm_compute. right. left. reflexivity.
  - intros s Hs. simpl in Hs.
    destruct Hs as [<-|[<-|[<-|[<-|[]]]]]; vm_compute; split; discriminate.
  - vm_compute. discriminate.
Defined.

Lemma distinctDays_app tz l l' :
  exists later, distinctDays tz (l ++ l') = (distinctDays tz l ++ later)%list.
Proof.
  induction l' as [|item l' IH] using rev_ind.
  - exists []. now rewrite !app_nil_r.
  - destruct IH as (later & IH). rewrite app_assoc, distinctDays_snoc, IH.
    destruct (in_dec _ _ _); [now exists later|].
    exists (later ++ [dateKeyOf tz item])%list. now rewrite app_assoc.
Qed.

(** X8.  Samples added at the end of the input leave the summaries of the
    days already there in their places, with their dates and weather
    conditions: new days come after them. *)
Theorem groupForecastByDay_append tz l l' :
  exists later,
    map (fun d => (date d, weather d)) (groupForecastByDay tz (l ++ l'))
    = (map (fun d => (date d, weather d)) (groupForecastByDay tz l)
       ++ later)%list.
Proof.
  destruct (distinctDays_app tz l l') as (extra & Hdays).
  rewrite !groupForecastByDay_map, Hdays, !map_map, map_app.
  eexists. f_equal. apply map_ext_in. intros k Hk.
  destruct (samplesOfDay_first tz _ _ Hk) as (first & rest & Hs & _).
  unfold dayOf, samplesOfDay. rewrite filter_app.
  fold (samplesOfDay tz k l). rewrite Hs. reflexivity.
Qed.

End Forecast.


(* ================================================================== *)
(** ** The dashboard                                                   *)
(* ================================================================== *)

Module Dashboard.
Import JS Forecast.
Local Open Scope string_scope.

(** *** Data *)

(** [currentUnit]: ['celsius'] or ['fahrenheit']. *)
Inductive TemperatureUnit : Type := celsius | fahrenheit.

Definition unit_eqb (u v : TemperatureUnit) : bool :=
  match u, v with
  | celsius, celsius | fahrenheit, fahrenheit => true
  | _, _ => false
  end.

(** The current-conditions payload: [data.name], [data.sys.country],
    [data.main.temp], ..., [data.coord.lon]. *)
Record CurrentData : Type := {
  name : string;
  sys_country : string;
  sys_sunrise : Z;
  sys_sunset : Z;
  temp : Q;
  feels_like : Q;
  cur_humidity : Q;
  pressure : Q;
  wind : Q;
  visibility : Q;
  cur_weather : list Condition;
  coord_lat : Q;
  coord_lon : Q
}.

(** The forecast payload: [data.list]. *)
Record ForecastData : Type := { forecast_list : list ForecastItem }.

(** [currentWeatherData = { current, forecast }] *)
Record WeatherData : Type := {
  current : CurrentData;
  forecast : ForecastData
}.

(** [currentLocation = { lat, lon }], [None] for [null]. *)
Record Location : Type := { lat : option Q; lon : option Q }.

(** Truthiness of a coordinate: [null] and [0] are falsy. *)
Definition truthyCoord (x : option Q) : bool :=
  match x with
  | Some q => truthy (Num q)
  | None => false
  end.

(** *** The page *)

(** The entries of [elements]. *)
Inductive ElementId : Type :=
| cityInput | searchBtn | locationBtn
| loading | errorMessage | errorText
| currentLocationEl | currentDate | currentTemp | weatherIcon
| weatherDescription
| feelsLike | humidityEl | windSpeedEl | pressureEl | visibilityEl | uvIndex
| sunrise | sunset
| aqiNumber | aqiLevel | aqiDesc
| celsiusBtn | fahrenheitBtn
| forecastContainer
| lastUpdated.

Definition ElementId_eq_dec (a b : ElementId) : {a = b} + {a <> b}.
Proof. decide equality. Defined.

(** A template literal, piece by piece: a string, a number substituted
    into it, or a time value formatted by one of the [toLocale...String]
    methods. *)
Inductive Piece : Type :=
| Str (s : string)
| Val (n : Number)
| Formatted (tv : Z).

Definition Text : Type := list Piece.

(** What [getWeatherIconClass] returns: a name of its table or, for a
    code that is the name of a property every object inherits, the
    built-in found under it. *)
Inductive IconClass : Type :=
| ClassName (name : string)
| BuiltIn (k : string).

(** What [createForecastCard] puts into the [innerHTML] of a card. *)
Record Card : Type := {
  card_dayName : string;
  card_date : string;
  card_icon : IconClass;
  card_high : Text;
  card_low : Text;
  card_desc : string;
  card_details : Text
}.

(** What the script writes of the page: [textContent], the tokens of
    [classList] (or [className]), the [value] of the city input and the
    children of the forecast container. *)
Record Elements : Type := {
  textContent : ElementId -> Text;
  classList : ElementId -> list string;
  cityInput_value : string;
  forecastCards : list Card
}.

(** *** The collaborators *)

Inductive Request : Type :=
| WeatherByCity (q : string) (appid : option string)
| WeatherByCoords (latitude longitude : Q) (appid : option string)
| ForecastByCoords (latitude longitude : Q) (appid : option string).

(** A response: [response.ok] and what [response.json()] resolves to
    ([None] when it rejects). *)
Record Response (A : Type) : Type := { ok : bool; json : option A }.

(** The operations the script starts on its collaborators. *)
Inductive Operation : Type :=
| Fetch (r : Request)
| GetCurrentPosition.

(** The browser and the provider: the configured key ([None] or the empty
    string when missing), whether [navigator.geolocation] exists, the
    time zone, what [new Date()] reads ([clock]), and the outcome of the n-th
    operation when it is a fetch ([None]: the promise of [fetch] rejects). *)
Record Env : Type := {
  API_CONFIG_key : option string;
  hasGeolocation : bool;
  LocalTZA : Z -> Z;
  clock : Z;
  weatherEndpoint : nat -> Request -> option (Response CurrentData);
  forecastEndpoint : nat -> Request -> option (Response ForecastData)
}.

(** *** The state of the script *)

Inductive EventTarget : Type :=
| Document
| Window
| Element (el : ElementId).

(** The functions the script registers as listeners.  A function
    expression is a new function each time it is evaluated: [site] tells
    the two initialisations apart. *)
Inductive Callback : Type :=
| firstInit
| gatedInit
| handleSearchFn
| onEnterKey (site : nat)
| getCurrentLocationFn
| switchTo (site : nat) (unit : TemperatureUnit)
| selectOnFocus
| keyboardShortcuts
| onUnhandledRejection
| onError.

Definition Listener : Type := (EventTarget * string * Callback)%type.

Definition EventTarget_eq_dec (a b : EventTarget) : {a = b} + {a <> b}.
Proof. decide equality. apply ElementId_eq_dec. Defined.

Definition Listener_eq_dec (a b : Listener) : {a = b} + {a <> b}.
Proof.
  repeat decide equality; try apply ElementId_eq_dec.
Defined.

Record State : Type := {
  currentWeatherData : option WeatherData;
  currentUnit : TemperatureUnit;
  currentLocation : Location;
  elements : Elements;
  listeners : list Listener;
  intervals : nat;
  pendingPositions : nat;
  initiated : list Operation
}.

(** The globals as the script declares them, over the page [page]. *)
Definition initialState (page : Elements) : State :=
  {| currentWeatherData := None;
     currentUnit := celsius;
     currentLocation := {| lat := None; lon := None |};
     elements := page;
     listeners := [];
     intervals := 0;
     pendingPositions := 0;
     initiated := [] |}.

Definition blankPage : Elements :=
  {| textContent := fun _ => [];
     classList := fun _ => [];
     cityInput_value := EmptyString;
     forecastCards := [] |}.

(** *** Statements: state and exceptions *)

Inductive Result (A : Type) : Type :=
| Return (a : A)
| Throw (e : string).
Arguments Return {A} a.
Arguments Throw {A} e.

Definition M (A : Type) : Type := State -> Result A * State.

Definition ret {A : Type} (a : A) : M A := fun s => (Return a, s).

Definition bind {A B : Type} (m : M A) (k : A -> M B) : M B :=
  fun s =>
    match m s with
    | (Return a, s') => k a s'
    | (Throw e, s') => (Throw e, s')
    end.

Definition throw {A : Type} (e : string) : M A := fun s => (Throw e, s).

(** [try { body } catch (error) { handler }] *)
Definition tryCatch (body : M unit) (handler : string -> M unit) : M unit :=
  fun s =>
    match body s with
    | (Return a, s') => (Return a, s')
    | (Throw e, s') => handler e s'
    end.

Definition modify (f : State -> State) : M unit := fun s => (Return tt, f s).
Definition gets {A : Type} (f : State -> A) : M A := fun s => (Return (f s), s).

Declare Scope js_scope.
Delimit Scope js_scope with js.
Notation "x <- m ;; k" := (bind m (fun x => k))
  (at level 61, m at next level, right associativity) : js_scope.
Notation "m ;; k" := (bind m (fun _ => k))
  (at level 61, right associativity) : js_scope.
Local Open Scope js_scope.

(** *** Assignments *)

Definition set_elements (f : Elements -> Elements) (s : State) : State :=
  {| currentWeatherData := currentWeatherData s;
     currentUnit := currentUnit s;
     currentLocation := currentLocation s;
     elements := f (elements s);
     listeners := listeners s;
     intervals := intervals s;
     pendingPositions := pendingPositions s;
     initiated := initiated s |}.

Definition set_currentWeatherData (d : option WeatherData) (s : State) : State :=
  {| currentWeatherData := d;
     currentUnit := currentUnit s;
     currentLocation := currentLocation s;
     elements := elements s;
     listeners := listeners s;
     intervals := intervals s;
     pendingPositions := pendingPositions s;
     initiated := initiated s |}.

Definition set_currentUnit (u : TemperatureUnit) (s : State) : State :=
  {| currentWeatherData := currentWeatherData s;
     currentUnit := u;
     currentLocation := currentLocation s;
     elements := elements s;
     listeners := listeners s;
     intervals := intervals s;
     pendingPositions := pendingPositions s;
     initiated := initiated s |}.

Definition set_currentLocation (l : Location) (s : State) : State :=
  {| currentWeatherData := currentWeatherData s;
     currentUnit := currentUnit s;
     currentLocation := l;
     elements := elements s;
     listeners := listeners s;
     intervals := intervals s;
     pendingPositions := pendingPositions s;
     initiated := initiated s |}.

Definition set_listeners (l : list Listener) (s : State) : State :=
  {| currentWeatherData := currentWeatherData s;
     currentUnit := currentUnit s;
     currentLocation := currentLocation s;
     elements := elements s;
     listeners := l;
     intervals := intervals s;
     pendingPositions := pendingPositions s;
     initiated := initiated s |}.

Definition set_intervals (n : nat) (s : State) : State :=
  {| currentWeatherData := currentWeatherData s;
     currentUnit := currentUnit s;
     currentLocation := currentLocation s;
     elements := elements s;
     listeners := listeners s;
     intervals := n;
     pendingPositions := pendingPositions s;
     initiated := initiated s |}.

Definition set_pendingPositions (n : nat) (s : State) : State :=
  {| currentWeatherData := currentWeatherData s;
     currentUnit := currentUnit s;
     currentLocation := currentLocation s;
     elements := elements s;
     listeners := listeners s;
     intervals := intervals s;
     pendingPositions := n;
     initiated := initiated s |}.

Definition set_initiated (l : list Operation) (s : State) : State :=
  {| currentWeatherData := currentWeatherData s;
     currentUnit := currentUnit s;
     currentLocation := currentLocation s;
     elements := elements s;
     listeners := listeners s;
     intervals := intervals s;
     pendingPositions := pendingPositions s;
     initiated := l |}.

(** [elements.el.textContent = t] *)
Definition setTextContent (el : ElementId) (t : Text) : M unit :=
  modify (set_elements (fun e =>
    {| textContent := fun x => if ElementId_eq_dec x el then t else textContent e x;
       classList := classList e;
       cityInput_value := cityInput_value e;
       forecastCards := forecastCards e |})).

Definition setClasses (el : ElementId) (f : list string -> list string)
  : M unit :=
  modify (set_elements (fun e =>
    {| textContent := textContent e;
       classList := fun x => if ElementId_eq_dec x el then f (classList e x)
                             else classList e x;
       cityInput_value := cityInput_value e;
       forecastCards := forecastCards e |})).

Definition setCityInputValue (v : string) : M unit :=
  modify (set_elements (fun e =>
    {| textContent := textContent e;
       classList := classList e;
       cityInput_value := v;
       forecastCards := forecastCards e |})).

Definition setForecastCards (f : list Card -> list Card) : M unit :=
  modify (set_elements (fun e =>
    {| textContent := textContent e;
       classList := classList e;
       cityInput_value := cityInput_value e;
       forecastCards := f (forecastCards e) |})).

Definition hasToken (token : string) (tokens : list string) : bool :=
  existsb (String.eqb token) tokens.

(** [el.classList.add(token)], [.remove(token)], [.toggle(token, force)] *)
Definition classList_add (el : ElementId) (token : string) : M unit :=
  setClasses el (fun tokens =>
    if hasToken token tokens then tokens else (tokens ++ [token])%list).

Definition classList_remove (el : ElementId) (token : string) : M unit :=
  setClasses el (filter (fun t => negb (String.eqb token t))).

Definition classList_toggle (el : ElementId) (token : string) (force : bool)
  : M unit :=
  if force then classList_add el token else classList_remove el token.

(** *** UI state management *)

Definition showLoading : M unit :=
  classList_remove loading "hidden" ;;
  classList_add errorMessage "hidden".

Definition hideLoading : M unit := classList_add loading "hidden".

Definition showError (message : Text) : M unit :=
  setTextContent errorText message ;;
  classList_remove errorMessage "hidden" ;;
  classList_add loading "hidden".

Definition hideError : M unit := classList_add errorMessage "hidden".

(** *** UI update functions *)

Definition unitLetter (u : TemperatureUnit) : string :=
  match u with celsius => "C" | fahrenheit => "F" end.

(** The class tokens of [iconMap] in [updateWeatherIcon]. *)
Definition iconMap : Obj.t (list string) :=
  [ ("01d", ["fas"; "fa-sun"]); ("01n", ["fas"; "fa-moon"]);
    ("02d", ["fas"; "fa-cloud-sun"]); ("02n", ["fas"; "fa-cloud-moon"]);
    ("03d", ["fas"; "fa-cloud"]); ("03n", ["fas"; "fa-cloud"]);
    ("04d", ["fas"; "fa-clouds"]); ("04n", ["fas"; "fa-clouds"]);
    ("09d", ["fas"; "fa-cloud-rain"]); ("09n", ["fas"; "fa-cloud-rain"]);
    ("10d", ["fas"; "fa-cloud-sun-rain"]);
    ("10n", ["fas"; "fa-cloud-moon-rain"]);
    ("11d", ["fas"; "fa-bolt"]); ("11n", ["fas"; "fa-bolt"]);
    ("13d", ["fas"; "fa-snowflake"]); ("13n", ["fas"; "fa-snowflake"]);
    ("50d", ["fas"; "fa-smog"]); ("50n", ["fas"; "fa-smog"]) ].

(** The words of the text a built-in turns into in a template literal:
    [function k() { [native code] }] for the function inherited under the
    name [k] ([Object] under [constructor]), and [[object Object]] for the
    prototype itself.  The white space between the words is the engine's;
    a class name is split at it. *)
Definition builtInWords (k : string) : list string :=
  if String.eqb k "__proto__" then ["[object"; "Object]"]
  else ["function";
        (if String.eqb k "constructor" then "Object" else k) ++ "()";
        "{"; "[native"; "code]"; "}"].

Definition updateWeatherIcon (iconCode mainWeather : string) : M unit :=
  let iconClass :=
    match Obj.lookup iconMap iconCode with
    | Obj.Own c => c
    | Obj.Inherited k => builtInWords k
    | Obj.Undefined => ["fas"; "fa-question-circle"]
    end in
  setClasses weatherIcon (fun _ => (iconClass ++ ["weather-icon"])%list).

(** [iconMap] of [getWeatherIconClass]. *)
Definition forecastIconMap : Obj.t string :=
  [ ("01d", "sun"); ("01n", "moon");
    ("02d", "cloud-sun"); ("02n", "cloud-moon");
    ("03d", "cloud"); ("03n", "cloud");
    ("04d", "clouds"); ("04n", "clouds");
    ("09d", "cloud-rain"); ("09n", "cloud-rain");
    ("10d", "cloud-sun-rain"); ("10n", "cloud-moon-rain");
    ("11d", "bolt"); ("11n", "bolt");
    ("13d", "snowflake"); ("13n", "snowflake");
    ("50d", "smog"); ("50n", "smog") ].

Definition getWeatherIconClass (iconCode : string) : IconClass :=
  match Obj.lookup forecastIconMap iconCode with
  | Obj.Own c => ClassName c
  | Obj.Inherited k => BuiltIn k
  | Obj.Undefined => ClassName "question-circle"
  end.

(** [data.weather[0]], whose properties are read next: a [TypeError] when
    the array is empty. *)
Definition firstCondition (conditions : list Condition) : M Condition :=
  match nth_error conditions 0 with
  | Some c => ret c
  | None => throw "TypeError: Cannot read properties of undefined"
  end.

Section WithEnv.
Variable env : Env.

Definition updateCurrentWeatherUI (data : CurrentData) : M unit :=
  (* location and date *)
  setTextContent currentLocationEl
    [Str (name data); Str ", "; Str (sys_country data)] ;;
  setTextContent currentDate [Formatted (clock env)] ;;
  (* temperature *)
  let temp := Math_round (Num (temp data)) in
  unit <- gets currentUnit ;;
  setTextContent currentTemp [Val temp; Str "°"; Str (unitLetter unit)] ;;
  (* weather icon and description *)
  w0 <- firstCondition (cur_weather data) ;;
  updateWeatherIcon (icon w0) (main w0) ;;
  setTextContent weatherDescription [Str (description w0)] ;;
  (* weather details *)
  unit <- gets currentUnit ;;
  setTextContent feelsLike
    [Val (Math_round (Num (feels_like data))); Str "°"; Str (unitLetter unit)] ;;
  setTextContent humidityEl [Val (Num (cur_humidity data)); Str "%"] ;;
  setTextContent windSpeedEl
    [Val (Math_round (mul (Num (wind data)) (Num (double (36 # 10))))); Str " km/h"] ;;
  setTextContent pressureEl [Val (Num (pressure data)); Str " hPa"] ;;
  setTextContent visibilityEl
    [Val (Math_round (div (Num (visibility data)) (ofZ 1000))); Str " km"] ;;
  setTextContent uvIndex [Str "N/A"] ;;
  (* sun times *)
  setTextContent sunrise [Formatted (sys_sunrise data * 1000)] ;;
  setTextContent sunset [Formatted (sys_sunset data * 1000)] ;;
  (* air quality *)
  setTextContent aqiNumber [Str "--"] ;;
  setTextContent aqiLevel [Str "--"] ;;
  setTextContent aqiDesc [Str "Data not available"].

Definition createForecastCard (forecast : DailySummary) (index : nat)
  : M Card :=
  let dayName :=
    match index with
    | O => "Today"
    | _ => Dates.weekdayShort (LocalTZA env) (date forecast)
    end in
  let date := Dates.monthAndDay (LocalTZA env) (date forecast) in
  unit <- gets currentUnit ;;
  let tempUnit := match unit with celsius => "°C" | fahrenheit => "°F" end in
  let maxTemp :=
    match unit with
    | celsius => maxTemp forecast
    | fahrenheit => celsiusToFahrenheit (maxTemp forecast)
    end in
  let minTemp :=
    match unit with
    | celsius => minTemp forecast
    | fahrenheit => celsiusToFahrenheit (minTemp forecast)
    end in
  w <- match weather forecast with
       | Some c => ret c
       | None => throw "TypeError: Cannot read properties of undefined"
       end ;;
  ret {| card_dayName := dayName;
         card_date := date;
         card_icon := getWeatherIconClass (icon w);
         card_high := [Val (Math_round maxTemp); Str tempUnit];
         card_low := [Val (Math_round minTemp); Str tempUnit];
         card_desc := description w;
         card_details :=
           [Str "💧 "; Val (avgHumidity forecast); Str "% | 💨 ";
            Val (avgWindSpeed forecast); Str " km/h"] |}.

(** [arr.forEach((x, index) => ...)], from [index] on. *)
Fixpoint forEachIndexed {A : Type} (f : A -> nat -> M unit) (l : list A)
  (index : nat) : M unit :=
  match l with
  | [] => ret tt
  | x :: rest => f x index ;; forEachIndexed f rest (S index)
  end.

Definition updateForecastUI (data : ForecastData) : M unit :=
  (* clear existing forecast cards *)
  setForecastCards (fun _ => []) ;;
  let dailyForecasts := groupForecastByDay (LocalTZA env) (forecast_list data) in
  forEachIndexed
    (fun forecast index =>
       forecastCard <- createForecastCard forecast index ;;
       setForecastCards (fun cards => (cards ++ [forecastCard])%list))
    (firstn 5 dailyForecasts) 0.

Definition updateLastUpdated : M unit :=
  setTextContent lastUpdated [Formatted (clock env)].

(** *** Temperature unit *)

Definition switchTemperatureUnit : TemperatureUnit -> M unit := fun unit =>
  active <- gets currentUnit ;;
  if unit_eqb active unit then ret tt
  else
    modify (set_currentUnit unit) ;;
    classList_toggle celsiusBtn "active" (unit_eqb unit celsius) ;;
    classList_toggle fahrenheitBtn "active" (unit_eqb unit fahrenheit) ;;
    data <- gets currentWeatherData ;;
    match data with
    | Some d =>
        updateCurrentWeatherUI (current d) ;;
        updateForecastUI (forecast d)
    | None => ret tt
    end.

End WithEnv.

(** *** Strings *)

Definition doubleQuote : string := String (ascii_of_nat 34) EmptyString.

(** A string is the sequence of the bytes of its text in UTF-8.  The
    white space that [trim] removes takes one byte, two or three. *)

(** Tab, line feed, vertical tab, form feed, carriage return, space. *)
Definition isWhiteSpace (c : ascii) : bool :=
  let n := nat_of_ascii c in
  (Nat.eqb n 32 || (Nat.leb 9 n && Nat.leb n 13))%bool.

(** The no-break space U+00A0. *)
Definition isWhiteSpace2 (c1 c2 : ascii) : bool :=
  (Nat.eqb (nat_of_ascii c1) 194 && Nat.eqb (nat_of_ascii c2) 160)%bool.

(** U+1680; U+2000 to U+200A, the line and paragraph separators U+2028
    and U+2029, U+202F and U+205F; U+3000; the byte order mark U+FEFF. *)
Definition isWhiteSpace3 (c1 c2 c3 : ascii) : bool :=
  let n1 := nat_of_ascii c1 in
  let n2 := nat_of_ascii c2 in
  let n3 := nat_of_ascii c3 in
  if Nat.eqb n1 225 then (Nat.eqb n2 154 && Nat.eqb n3 128)%bool
  else if Nat.eqb n1 226 then
    ((Nat.eqb n2 128 &&
      ((Nat.leb 128 n3 && Nat.leb n3 138) ||
       Nat.eqb n3 168 || Nat.eqb n3 169 || Nat.eqb n3 175)) ||
     (Nat.eqb n2 129 && Nat.eqb n3 159))%bool
  else if Nat.eqb n1 227 then (Nat.eqb n2 128 && Nat.eqb n3 128)%bool
  else if Nat.eqb n1 239 then (Nat.eqb n2 187 && Nat.eqb n3 191)%bool
  else false.

Fixpoint trimStart (s : string) : string :=
  match s with
  | String c1 rest1 =>
      if isWhiteSpace c1 then trimStart rest1
      else
        match rest1 with
        | String c2 rest2 =>
            if isWhiteSpace2 c1 c2 then trimStart rest2
            else
              match rest2 with
              | String c3 rest3 =>
                  if isWhiteSpace3 c1 c2 c3 then trimStart rest3 else s
              | EmptyString => s
              end
        | EmptyString => s
        end
  | EmptyString => EmptyString
  end.

(** Nothing but white space, if anything. *)
Definition isWhite (s : string) : bool :=
  match trimStart s with
  | EmptyString => true
  | String _ _ => false
  end.

Fixpoint trimEnd (s : string) : string :=
  match s with
  | String c rest =>
      if isWhite s then EmptyString else String c (trimEnd rest)
  | EmptyString => EmptyString
  end.

(** [s.trim()] *)
Definition trim (s : string) : string := trimEnd (trimStart s).

(** *** The script *)

(** What the browser delivers to the script. *)
Inductive Event : Type :=
| DOMContentLoaded
| Click (el : ElementId)
| Keypress (key : string)
| Focus
| Keydown (ctrlKey metaKey : bool) (key : string)
| IntervalElapsed
| PositionFound (latitude longitude : Q)
| PositionFailed (code : nat)
| Typed (text : string).

Section Script.
Variable env : Env.

(** [await fetch(url)]: the operation is started, and its outcome is the
    provider's. *)
Definition fetchWeather (r : Request) : M (Response CurrentData) :=
  fun s =>
    let s' := set_initiated (initiated s ++ [Fetch r])%list s in
    match weatherEndpoint env (List.length (initiated s)) r with
    | Some response => (Return response, s')
    | None => (Throw "TypeError: Failed to fetch", s')
    end.

Definition fetchForecast (r : Request) : M (Response ForecastData) :=
  fun s =>
    let s' := set_initiated (initiated s ++ [Fetch r])%list s in
    match forecastEndpoint env (List.length (initiated s)) r with
    | Some response => (Return response, s')
    | None => (Throw "TypeError: Failed to fetch", s')
    end.

(** [await response.json()] *)
Definition jsonOf {A : Type} (response : Response A) : M A :=
  match json response with
  | Some data => ret data
  | None => throw "SyntaxError: Unexpected token in JSON"
  end.

Definition getWeatherByCoordinates (lat lon : Q) (cityName : option string)
  : M unit :=
  tryCatch
    ((* current weather data *)
     currentResponse <-
       fetchWeather (WeatherByCoords lat lon (API_CONFIG_key env)) ;;
     (if ok currentResponse then ret tt
      else throw "Failed to fetch current weather data") ;;
     currentData <- jsonOf currentResponse ;;
     (* 5-day forecast data *)
     forecastResponse <-
       fetchForecast (ForecastByCoords lat lon (API_CONFIG_key env)) ;;
     (if ok forecastResponse then ret tt
      else throw "Failed to fetch forecast data") ;;
     forecastData <- jsonOf forecastResponse ;;
     (* store the data globally *)
     modify (set_currentWeatherData
               (Some {| current := currentData; forecast := forecastData |})) ;;
     (* update the UI with the fetched data *)
     updateCurrentWeatherUI env currentData ;;
     updateForecastUI env forecastData ;;
     updateLastUpdated env ;;
     hideLoading ;;
     hideError)
    (fun error =>
       showError [Str "Unable to fetch weather data. Please try again."]).

Definition getWeatherByCity (city : string) : M unit :=
  showLoading ;;
  tryCatch
    ((* first, get coordinates from city name *)
     response <- fetchWeather (WeatherByCity city (API_CONFIG_key env)) ;;
     (if ok response then ret tt else throw ("City not found: " ++ city)) ;;
     data <- jsonOf response ;;
     modify (set_currentLocation
               {| lat := Some (coord_lat data); lon := Some (coord_lon data) |}) ;;
     (* now get detailed weather data using coordinates *)
     getWeatherByCoordinates (coord_lat data) (coord_lon data) (Some city))
    (fun error =>
       showError [Str "Unable to find weather data for "; Str doubleQuote;
                  Str city; Str doubleQuote;
                  Str ". Please check the city name."]).

(** [navigator.geolocation.getCurrentPosition(success, error, options)]:
    the request is started; its outcome comes as a later event. *)
Definition getCurrentPosition : M unit :=
  modify (fun s =>
    set_pendingPositions (S (pendingPositions s))
      (set_initiated (initiated s ++ [GetCurrentPosition])%list s)).

Definition getCurrentLocation : M unit :=
  showLoading ;;
  if negb (hasGeolocation env)
  then showError [Str "Geolocation is not supported by your browser"]
  else getCurrentPosition.

(** The success callback of [getCurrentLocation]. *)
Definition onPosition (latitude longitude : Q) : M unit :=
  modify (set_currentLocation
            {| lat := Some latitude; lon := Some longitude |}) ;;
  getWeatherByCoordinates latitude longitude None.

(** The error callback of [getCurrentLocation]; the codes are
    [PERMISSION_DENIED], [POSITION_UNAVAILABLE] and [TIMEOUT]. *)
Definition onPositionError (code : nat) : M unit :=
  let errorMessage :=
    match code with
    | 1 => "Location access denied by user"
    | 2 => "Location information unavailable"
    | 3 => "Location request timed out"
    | _ => "Unable to get your location"
    end%nat in
  showError [Str errorMessage].

Definition loadDefaultWeather : M unit :=
  tryCatch
    (if hasGeolocation env then getCurrentLocation
     else getWeatherByCity "New York")
    (fun error => showError [Str "Unable to load default weather data"]).

Definition handleSearch : M unit :=
  city <- gets (fun s => trim (cityInput_value (elements s))) ;;
  match city with
  | EmptyString => showError [Str "Please enter a city name"]
  | _ => getWeatherByCity city
  end.

(** [API_CONFIG.key && API_CONFIG.key !== 'YOUR_API_KEY_HERE'] *)
Definition isApiKeyConfigured : bool :=
  match API_CONFIG_key env with
  | Some key =>
      (negb (String.eqb key EmptyString) &&
       negb (String.eqb key "YOUR_API_KEY_HERE"))%bool
  | None => false
  end.

Definition checkApiKeyConfiguration : M bool :=
  if negb isApiKeyConfigured then
    showError [Str "Please configure your OpenWeatherMap API key in the script.js file. Get your free API key at openweathermap.org"] ;;
    ret false
  else ret true.

(** [target.addEventListener(type, callback)]: a listener already
    registered is not registered again. *)
Definition addEventListener (target : EventTarget) (type : string)
  (callback : Callback) : M unit :=
  modify (fun s =>
    if in_dec Listener_eq_dec (target, type, callback) (listeners s) then s
    else set_listeners (listeners s ++ [(target, type, callback)])%list s).

Definition initializeEventListeners : M unit :=
  addEventListener (Element searchBtn) "click" handleSearchFn ;;
  addEventListener (Element cityInput) "keypress" (onEnterKey 2) ;;
  addEventListener (Element locationBtn) "click" getCurrentLocationFn ;;
  addEventListener (Element celsiusBtn) "click" (switchTo 2 celsius) ;;
  addEventListener (Element fahrenheitBtn) "click" (switchTo 2 fahrenheit) ;;
  addEventListener (Element cityInput) "focus" selectOnFocus.

(** The callback of [setInterval]. *)
Definition autoRefresh : M unit :=
  location <- gets currentLocation ;;
  if (truthyCoord (lat location) && truthyCoord (lon location))%bool then
    match lat location, lon location with
    | Some latitude, Some longitude =>
        getWeatherByCoordinates latitude longitude None
    | _, _ => ret tt
    end
  else ret tt.

(** The body of a registered function, called with the event [e]. *)
Definition call (callback : Callback) (e : Event) : M unit :=
  match callback with
  | firstInit =>
      addEventListener (Element searchBtn) "click" handleSearchFn ;;
      addEventListener (Element cityInput) "keypress" (onEnterKey 1) ;;
      addEventListener (Element locationBtn) "click" getCurrentLocationFn ;;
      addEventListener (Element celsiusBtn) "click" (switchTo 1 celsius) ;;
      addEventListener (Element fahrenheitBtn) "click" (switchTo 1 fahrenheit) ;;
      loadDefaultWeather
  | gatedInit =>
      configured <- checkApiKeyConfiguration ;;
      if negb configured then ret tt
      else
        initializeEventListeners ;;
        loadDefaultWeather
  | handleSearchFn => handleSearch
  | onEnterKey _ =>
      match e with
      | Keypress key => if String.eqb key "Enter" then handleSearch else ret tt
      | _ => ret tt
      end
  | getCurrentLocationFn => getCurrentLocation
  | switchTo _ unit => switchTemperatureUnit env unit
  | selectOnFocus => ret tt
  | keyboardShortcuts =>
      match e with
      | Keydown ctrlKey metaKey key =>
          (if ((ctrlKey || metaKey) && String.eqb key "l")%bool
           then getCurrentLocation else ret tt) ;;
          (if String.eqb key "Escape"
           then setCityInputValue EmptyString else ret tt)
      | _ => ret tt
      end
  | onUnhandledRejection =>
      showError [Str "An unexpected error occurred. Please try again."]
  | onError =>
      showError [Str "An error occurred while loading the application."]
  end.

(** The statements of the script outside its functions, in order. *)
Definition loadScript : M unit :=
  addEventListener Document "DOMContentLoaded" firstInit ;;
  addEventListener Window "unhandledrejection" onUnhandledRejection ;;
  addEventListener Window "error" onError ;;
  addEventListener Document "DOMContentLoaded" gatedInit ;;
  addEventListener Document "keydown" keyboardShortcuts ;;
  modify (fun s => set_intervals (S (intervals s)) s).

(** *** The event loop *)

Definition registeredFor (target : EventTarget) (type : string) (s : State)
  : list Callback :=
  map snd
    (filter (fun '(target', type', _) =>
       if EventTarget_eq_dec target' target then String.eqb type' type
       else false) (listeners s)).

(** Calls of [handleSearch()] return a promise: what they throw is an
    unhandled rejection, what the other callbacks throw an error. *)
Definition isAsync (callback : Callback) : bool :=
  match callback with
  | handleSearchFn | onEnterKey _ => true
  | _ => false
  end.

Definition invoke (e : Event) (s : State) (callback : Callback) : State :=
  match call callback e s with
  | (Return _, s') => s'
  | (Throw _, s') =>
      fold_left (fun s1 handler => snd (call handler e s1))
        (registeredFor Window
           (if isAsync callback then "unhandledrejection" else "error") s')
        s'
  end.

Definition listenersOf (e : Event) (s : State) : list Callback :=
  match e with
  | DOMContentLoaded => registeredFor Document "DOMContentLoaded" s
  | Click el => registeredFor (Element el) "click" s
  | Keypress _ => registeredFor (Element cityInput) "keypress" s
  | Focus => registeredFor (Element cityInput) "focus" s
  | Keydown _ _ _ => registeredFor Document "keydown" s
  | _ => []
  end.

(** One event, its callbacks called in the order of their registration
    and each run to its end before the next: the course of things when
    every answer of the provider is there before anything else happens.
    (How calls in progress at the same time take turns is the matter of
    [interleave] below.) *)
Definition dispatch (s : State) (e : Event) : State :=
  match e with
  | IntervalElapsed =>
      match intervals s with
      | O => s
      | S _ => snd (autoRefresh s)
      end
  | PositionFound latitude longitude =>
      match pendingPositions s with
      | O => s
      | S n => snd (onPosition latitude longitude (set_pendingPositions n s))
      end
  | PositionFailed code =>
      match pendingPositions s with
      | O => s
      | S n => snd (onPositionError code (set_pendingPositions n s))
      end
  | Typed text => snd (setCityInputValue text s)
  | _ => fold_left (invoke e) (listenersOf e s) s
  end.

(** The page from the loading of the script through the events [es]. *)
Definition run (page : Elements) (es : list Event) : State :=
  fold_left dispatch es (snd (loadScript (initialState page))).

End Script.

(** *** A provider and a browser to run the script against *)

Definition london : CurrentData :=
  {| name := "London"; sys_country := "GB";
     sys_sunrise := 1793602800; sys_sunset := 1793637000;
     temp := 20; feels_like := 194 # 10; cur_humidity := 60;
     pressure := 1012; wind := 5; visibility := 10000;
     cur_weather := [rain];
     coord_lat := 515 # 10; coord_lon := - (1 # 10) |}.

Definition londonForecast : ForecastData :=
  {| forecast_list := twoDays |}.

Definition respond {A : Type} (data : A) : option (Response A) :=
  Some {| ok := true; json := Some data |}.

(** Every request answered, on a browser with geolocation, set to UTC. *)
Definition answering (key : option string) : Env :=
  {| API_CONFIG_key := key;
     hasGeolocation := true;
     LocalTZA := Dates.UTC;
     clock := 1793600000000;
     weatherEndpoint := fun _ _ => respond london;
     forecastEndpoint := fun _ _ => respond londonForecast |}.

(** The same, the forecast endpoint answering with a server error. *)
Definition forecastDown (key : option string) : Env :=
  {| API_CONFIG_key := key;
     hasGeolocation := true;
     LocalTZA := Dates.UTC;
     clock := 1793600000000;
     weatherEndpoint := fun _ _ => respond london;
     forecastEndpoint := fun _ _ => Some {| ok := false; json := None |} |}.

(** A browser without geolocation. *)
Definition withoutGeolocation (key : option string) : Env :=
  {| API_CONFIG_key := key;
     hasGeolocation := false;
     LocalTZA := Dates.UTC;
     clock := 1793600000000;
     weatherEndpoint := fun _ _ => respond london;
     forecastEndpoint := fun _ _ => respond londonForecast |}.

(** *** Statements that only write to the page *)

(** [m] changes nothing of the state but [elements]. *)
Definition uiOnly {A : Type} (m : M A) : Prop :=
  forall s, exists f, snd (m s) = set_elements f s.

Lemma set_elements_id s : set_elements (fun e => e) s = s.
Proof. now destruct s. Qed.

Lemma uiOnly_ret (A : Type) (a : A) : uiOnly (ret a).
Proof. intros s. exists (fun e => e). simpl. now rewrite set_elements_id. Qed.

Lemma uiOnly_throw (A : Type) (e : string) : uiOnly (throw e : M A).
Proof. intros s. exists (fun e => e). simpl. now rewrite set_elements_id. Qed.

Lemma uiOnly_gets (A : Type) (f : State -> A) : uiOnly (gets f).
Proof. intros s. exists (fun e => e). simpl. now rewrite set_elements_id. Qed.

Lemma uiOnly_modify f : uiOnly (modify (set_elements f)).
Proof. intros s. now exists f. Qed.

Lemma uiOnly_bind (A B : Type) (m : M A) (k : A -> M B) :
  uiOnly m -> (forall a, uiOnly (k a)) -> uiOnly (bind m k).
Proof.
  intros Hm Hk s. unfold bind. destruct (Hm s) as (f & Hf).
  destruct (m s) as [[a|e] s1]; simpl in Hf; subst s1.
  - destruct (Hk a (set_elements f s)) as (g & Hg). rewrite Hg.
    now exists (fun e => g (f e)).
  - now exists f.
Qed.

Lemma uiOnly_tryCatch body handler :
  uiOnly body -> (forall e, uiOnly (handler e)) -> uiOnly (tryCatch body handler).
Proof.
  intros Hb Hh s. unfold tryCatch. destruct (Hb s) as (f & Hf).
  destruct (body s) as [[a|e] s1]; simpl in Hf; subst s1.
  - now exists f.
  - destruct (Hh e (set_elements f s)) as (g & Hg). rewrite Hg.
    now exists (fun e => g (f e)).
Qed.

Lemma uiOnly_forEachIndexed (A : Type) (f : A -> nat -> M unit) l :
  (forall x i, uiOnly (f x i)) -> forall i, uiOnly (forEachIndexed f l i).
Proof.
  intros Hf. induction l as [|x l IH]; intros i; simpl.
  - apply uiOnly_ret.
  - apply uiOnly_bind; [apply Hf | intros _; apply IH].
Qed.

Ltac ui_only :=
  repeat first
    [ apply uiOnly_bind; [|intros ?]
    | apply uiOnly_modify | apply uiOnly_ret | apply uiOnly_throw
    | apply uiOnly_gets
    | match goal with
      | |- uiOnly (if ?b then _ else _) => destruct b
      | |- uiOnly (match ?x with _ => _ end) => destruct x
      end ].

Lemma uiOnly_showError message : uiOnly (showError message).
Proof.
  unfold showError, setTextContent, classList_remove, classList_add, setClasses.
  ui_only.
Qed.

Lemma uiOnly_updateCurrentWeatherUI env data :
  uiOnly (updateCurrentWeatherUI env data).
Proof.
  unfold updateCurrentWeatherUI, updateWeatherIcon, firstCondition,
    setTextContent, setClasses.
  ui_only.
Qed.

Lemma uiOnly_updateForecastUI env data : uiOnly (updateForecastUI env data).
Proof.
  unfold updateForecastUI. apply uiOnly_bind; [apply uiOnly_modify|].
  intros _. apply uiOnly_forEachIndexed. intros forecast index.
  unfold createForecastCard, setForecastCards. ui_only.
Qed.

Lemma uiOnly_render env data :
  uiOnly (updateCurrentWeatherUI env (current data) ;;
          updateForecastUI env (forecast data)).
Proof.
  apply uiOnly_bind; [apply uiOnly_updateCurrentWeatherUI|].
  intros _. apply uiOnly_updateForecastUI.
Qed.

(** *** Fetching by coordinates *)

(** The state once the operation [op] is started. *)
Definition started (op : Operation) (s : State) : State :=
  set_initiated (initiated s ++ [op])%list s.

(** A fetch has failed when its promise rejects, when the response is not
    [ok], or when its body is not JSON. *)
Definition fetchFailed {A : Type} (outcome : option (Response A)) : bool :=
  match outcome with
  | Some {| ok := true; json := Some _ |} => false
  | _ => true
  end.

Definition fetchErrorMessage : Text :=
  [Str "Unable to fetch weather data. Please try again."].

(** What [getWeatherByCoordinates] does after both fetches have succeeded. *)
Definition storeAndRender (env : Env) (currentData : CurrentData)
  (forecastData : ForecastData) : M unit :=
  modify (set_currentWeatherData
            (Some {| current := currentData; forecast := forecastData |})) ;;
  updateCurrentWeatherUI env currentData ;;
  updateForecastUI env forecastData ;;
  updateLastUpdated env ;;
  hideLoading ;;
  hideError.

Lemma getWeatherByCoordinates_cases env la lo cityName s :
  let key := API_CONFIG_key env in
  let s1 := started (Fetch (WeatherByCoords la lo key)) s in
  let s2 := started (Fetch (ForecastByCoords la lo key)) s1 in
  getWeatherByCoordinates env la lo cityName s =
  match weatherEndpoint env (List.length (initiated s))
          (WeatherByCoords la lo key) with
  | Some {| ok := true; json := Some currentData |} =>
      match forecastEndpoint env (List.length (initiated s1))
              (ForecastByCoords la lo key) with
      | Some {| ok := true; json := Some forecastData |} =>
          tryCatch (storeAndRender env currentData forecastData)
            (fun _ => showError fetchErrorMessage) s2
      | _ => showError fetchErrorMessage s2
      end
  | _ => showError fetchErrorMessage s1
  end.
Proof.
  intros key s1 s2. subst s1 s2 key.
  unfold getWeatherByCoordinates, storeAndRender, tryCatch, fetchWeather,
    fetchForecast, started.
  unfold bind at 1.
  destruct (weatherEndpoint env _ _) as [[[|] [currentData|]]|];
    try reflexivity.
  cbn [ok json jsonOf]. unfold bind at 1 2 3. unfold ret at 1 2.
  destruct (forecastEndpoint env _ _) as [[[|] [forecastData|]]|];
    reflexivity.
Qed.

Lemma hasToken_remove token tokens :
  hasToken token (filter (fun t => negb (String.eqb token t)) tokens) = false.
Proof.
  unfold hasToken. induction tokens as [|t tokens IH]; simpl; [reflexivity|].
  destruct (String.eqb token t) eqn:E; simpl; [exact IH|].
  now rewrite E.
Qed.

(** The failure path: the message is shown, and nothing else changes. *)
Lemma showError_effect message s :
  fst (showError message s) = Return tt /\
  textContent (elements (snd (showError message s))) errorText = message /\
  hasToken "hidden"
    (classList (elements (snd (showError message s))) errorMessage) = false /\
  (forall el, el <> errorText ->
     textContent (elements (snd (showError message s))) el
     = textContent (elements s) el) /\
  forecastCards (elements (snd (showError message s)))
  = forecastCards (elements s) /\
  currentWeatherData (snd (showError message s)) = currentWeatherData s /\
  initiated (snd (showError message s)) = initiated s.
Proof.
  unfold showError, setTextContent, classList_remove, classList_add,
    setClasses, bind, modify. simpl.
  repeat split; try reflexivity.
  - apply hasToken_remove.
  - intros el Hel. now destruct (ElementId_eq_dec el errorText).
Qed.


Lemma storeAndRender_state env currentData forecastData s :
  exists f,
    snd (tryCatch (storeAndRender env currentData forecastData)
           (fun _ => showError fetchErrorMessage) s)
    = set_elements f
        (set_currentWeatherData
           (Some {| current := currentData; forecast := forecastData |}) s).
Proof.
  set (s' := set_currentWeatherData _ s).
  change (exists f,
    snd (tryCatch
           (updateCurrentWeatherUI env currentData ;;
            updateForecastUI env forecastData ;;
            updateLastUpdated env ;; hideLoading ;; hideError)
           (fun _ => showError fetchErrorMessage) s') = set_elements f s').
  apply uiOnly_tryCatch; [|intros _; apply uiOnly_showError].
  apply uiOnly_bind; [apply uiOnly_updateCurrentWeatherUI | intros _].
  apply uiOnly_bind; [apply uiOnly_updateForecastUI | intros _].
  unfold updateLastUpdated, hideLoading, hideError, setTextContent,
    classList_add, setClasses.
  ui_only.
Qed.

(** Whatever the provider answers, [getWeatherByCoordinates] starts with
    the fetch of the current conditions at the given coordinates. *)
Lemma getWeatherByCoordinates_starts_fetch env la lo cityName s :
  exists rest,
    initiated (snd (getWeatherByCoordinates env la lo cityName s))
    = (initiated s ++
       Fetch (WeatherByCoords la lo (API_CONFIG_key env)) :: rest)%list.
Proof.
  rewrite getWeatherByCoordinates_cases. cbv zeta.
  set (w := Fetch (WeatherByCoords la lo (API_CONFIG_key env))).
  set (f := Fetch (ForecastByCoords la lo (API_CONFIG_key env))).
  assert (H1 : initiated (snd (showError fetchErrorMessage (started w s)))
               = (initiated s ++ [w])%list) by apply showError_effect.
  assert (H2 : initiated
                 (snd (showError fetchErrorMessage (started f (started w s))))
               = (initiated s ++ [w; f])%list).
  { destruct (showError_effect fetchErrorMessage (started f (started w s)))
      as (_ & _ & _ & _ & _ & _ & ->).
    simpl. now rewrite <- app_assoc. }
  destruct (weatherEndpoint env _ _) as [[[|] [currentData|]]|];
    try (exists []; exact H1).
  destruct (forecastEndpoint env _ _) as [[[|] [forecastData|]]|];
    try (exists [f]; exact H2).
  destruct (storeAndRender_state env currentData forecastData
              (started f (started w s))) as (g & ->).
  exists [f]. simpl. now rewrite <- app_assoc.
Qed.

(** *** The periodic refresh *)

(** C10.  A tick of the auto-refresh timer fetches only when the stored
    latitude and longitude are both truthy: it then calls
    [getWeatherByCoordinates] on them, which starts a fetch.  Otherwise the
    tick changes nothing: so it is when no location has been resolved yet
    ([null]), and so it is too for a resolved location whose latitude or
    longitude is 0. *)
Theorem autoRefresh_only_with_truthy_coordinates env s :
  (forall latitude longitude,
      currentLocation s = {| lat := Some latitude; lon := Some longitude |} ->
      ~ latitude == 0 -> ~ longitude == 0 ->
      autoRefresh env s = getWeatherByCoordinates env latitude longitude None s /\
      exists rest,
        initiated (snd (autoRefresh env s))
        = (initiated s ++
           Fetch (WeatherByCoords latitude longitude (API_CONFIG_key env))
           :: rest)%list) /\
  ((truthyCoord (lat (currentLocation s)) &&
    truthyCoord (lon (currentLocation s)))%bool = false ->
   autoRefresh env s = (Return tt, s)) /\
  (lat (currentLocation s) = None \/ lon (currentLocation s) = None ->
   autoRefresh env s = (Return tt, s)) /\
  (forall q, q == 0 ->
     lat (currentLocation s) = Some q \/ lon (currentLocation s) = Some q ->
     autoRefresh env s = (Return tt, s)) /\
  dispatch env s IntervalElapsed
  = match intervals s with O => s | S _ => snd (autoRefresh env s) end.
Proof.
  assert (Hgate :
    (truthyCoord (lat (currentLocation s)) &&
     truthyCoord (lon (currentLocation s)))%bool = false ->
    autoRefresh env s = (Return tt, s)).
  { intros Hfalsy. unfold autoRefresh, bind, gets. now rewrite Hfalsy. }
  split; [|split; [exact Hgate | split; [|split; [|reflexivity]]]].
  - intros latitude longitude Hloc Hlat Hlon.
    assert (Heq : autoRefresh env s
                  = getWeatherByCoordinates env latitude longitude None s).
    { unfold autoRefresh, bind, gets. rewrite Hloc. simpl.
      destruct (Qeq_bool latitude 0) eqn:E1;
        [apply Qeq_bool_eq in E1; contradiction|].
      destruct (Qeq_bool longitude 0) eqn:E2;
        [apply Qeq_bool_eq in E2; contradiction|].
      reflexivity. }
    split; [exact Heq|]. rewrite Heq.
    apply getWeatherByCoordinates_starts_fetch.
  - intros [Hnull|Hnull]; apply Hgate; rewrite Hnull; simpl;
      [reflexivity | apply andb_false_r].
  - intros q Hq [Hzero|Hzero]; apply Hgate; rewrite Hzero; simpl;
      rewrite (Qeq_eq_bool _ _ Hq); simpl; [reflexivity | apply andb_false_r].
Qed.

Definition placeholderKey : option string := Some "YOUR_API_KEY_HERE".
Definition someKey : option string := Some "9fc67b87b2bfe061d8dfb530c5a6337d".


(** *** The unit switch on the current conditions *)

(** The number [updateCurrentWeatherUI] shows as the current temperature
    is the rounded stored value, whatever the unit; only the letter after
    it follows the unit. *)
Lemma updateCurrentWeatherUI_currentTemp env data s :
  textContent (elements (snd (updateCurrentWeatherUI env data s))) currentTemp
  = [Val (Math_round (Num (temp data))); Str "°";
     Str (unitLetter (currentUnit s))].
Proof.
  unfold updateCurrentWeatherUI, firstCondition.
  destruct (cur_weather data); reflexivity.
Qed.

(** The page after London has been loaded and the Fahrenheit button
    clicked. *)
Definition londonInFahrenheit : State :=
  run (answering someKey) blankPage
    [DOMContentLoaded; PositionFound 51 0; Click fahrenheitBtn].

(** C3, at a concrete input.  With 20 degrees Celsius stored (feels like
    19.4) and the unit switched to Fahrenheit, the current temperature
    reads 20 and the feels-like temperature 19, each followed by the
    letter F, where the converted values are 68 and 67; the stored value is
    still 20, and the forecast cards do show converted values (54 and 72
    for 12 and 22 degrees Celsius). *)
Theorem fahrenheit_letter_on_celsius_number :
  currentUnit londonInFahrenheit = fahrenheit /\
  option_map (fun d => temp (current d)) (currentWeatherData londonInFahrenheit)
  = Some (20 : Q) /\
  textContent (elements londonInFahrenheit) currentTemp
  = [Val (ofZ 20); Str "°"; Str "F"] /\
  Math_round (celsiusToFahrenheit (Num 20)) = ofZ 68 /\
  textContent (elements londonInFahrenheit) feelsLike
  = [Val (ofZ 19); Str "°"; Str "F"] /\
  Math_round (celsiusToFahrenheit (Num (194 # 10))) = ofZ 67 /\
  map card_high (forecastCards (elements londonInFahrenheit))
  = [[Val (ofZ 54); Str "°F"]; [Val (ofZ 72); Str "°F"]].
Proof. vm_compute. repeat split. Qed.

(** A stored Celsius value in the unit [unit]. *)
Definition inUnit (unit : TemperatureUnit) (celsiusValue : Number) : Number :=
  match unit with
  | celsius => celsiusValue
  | fahrenheit => celsiusToFahrenheit celsiusValue
  end.

Definition unitSuffix (unit : TemperatureUnit) : string :=
  match unit with celsius => "°C" | fahrenheit => "°F" end.

(** X2.  The forecast cards do convert: for a summary that has a weather
    condition, high and low are the stored values converted to the active
    unit, then rounded, followed by the suffix of that unit; the state is
    left as it is. *)
Theorem createForecastCard_converts env forecast index s c :
  weather forecast = Some c ->
  exists card,
    createForecastCard env forecast index s = (Return card, s) /\
    card_high card
    = [Val (Math_round (inUnit (currentUnit s) (maxTemp forecast)));
       Str (unitSuffix (currentUnit s))] /\
    card_low card
    = [Val (Math_round (inUnit (currentUnit s) (minTemp forecast)));
       Str (unitSuffix (currentUnit s))].
Proof.
  intros Hw. unfold createForecastCard, bind, gets. rewrite Hw.
  eexists. split; [reflexivity|]. now destruct (currentUnit s).
Qed.

Lemma createForecastCard_converts_witness :
  exists card,
    createForecastCard (answering someKey) secondOfNovember 1
      (set_currentUnit fahrenheit (initialState blankPage))
    = (Return card, set_currentUnit fahrenheit (initialState blankPage)) /\
    card_high card = [Val (ofZ 72); Str "°F"].
Proof.
  destruct (@createForecastCard_converts (answering someKey) secondOfNovember
              1 (set_currentUnit fahrenheit (initialState blankPage)) rain
              eq_refl) as (card & Hcard & Hhigh & _).
  exists card. split; [exact Hcard | exact Hhigh].
Defined.

(** The cards [updateForecastUI] appends, from [index] on: they stop at
    the first summary without a weather condition. *)
Fixpoint cardsOf (env : Env) (unit : TemperatureUnit)
  (l : list DailySummary) (index : nat) : list Card :=
  match l with
  | [] => []
  | forecast :: rest =>
      match fst (createForecastCard env forecast index
                   (set_currentUnit unit (initialState blankPage))) with
      | Return card => card :: cardsOf env unit rest (S index)
      | Throw _ => []
      end
  end.

Definition withCards (f : list Card -> list Card) (s : State) : State :=
  set_elements (fun e =>
    {| textContent := textContent e;
       classList := classList e;
       cityInput_value := cityInput_value e;
       forecastCards := f (forecastCards e) |}) s.

Lemma createForecastCard_pure env forecast index s :
  createForecastCard env forecast index s
  = (fst (createForecastCard env forecast index
            (set_currentUnit (currentUnit s) (initialState blankPage))), s).
Proof.
  unfold createForecastCard, bind, gets. simpl.
  destruct (weather forecast); reflexivity.
Qed.

Lemma withCards_id s : withCards (fun cards => cards) s = s.
Proof. destruct s as [? ? ? [? ? ? ?] ? ? ? ?]. reflexivity. Qed.

Lemma appendCards_state env l : forall index s,
  snd (forEachIndexed
         (fun forecast index =>
            forecastCard <- createForecastCard env forecast index ;;
            setForecastCards (fun cards => (cards ++ [forecastCard])%list))
         l index s)
  = withCards (fun cards => (cards ++ cardsOf env (currentUnit s) l index)%list) s.
Proof.
  induction l as [|forecast l IH]; intros index s.
  - destruct s as [? ? ? [? ? ? ?] ? ? ? ?].
    unfold withCards, set_elements. simpl. now rewrite app_nil_r.
  - cbn [forEachIndexed cardsOf]. unfold bind at 1 2.
    rewrite createForecastCard_pure.
    destruct (fst (createForecastCard env forecast index _)) as [card|e].
    + unfold setForecastCards at 1, modify at 1. rewrite IH.
      unfold withCards, set_elements. simpl. now rewrite <- app_assoc.
    + destruct s as [? ? ? [? ? ? ?] ? ? ? ?].
      unfold withCards, set_elements. simpl. now rewrite app_nil_r.
Qed.

(** [updateForecastUI] replaces the cards by those of the data in the
    active unit, and changes nothing else. *)
Lemma updateForecastUI_state env data s :
  snd (updateForecastUI env data s)
  = withCards
      (fun _ =>
         cardsOf env (currentUnit s)
           (firstn 5 (groupForecastByDay (LocalTZA env) (forecast_list data)))
           0) s.
Proof.
  unfold updateForecastUI. unfold bind at 1, setForecastCards at 1, modify at 1.
  rewrite appendCards_state. reflexivity.
Qed.

Lemma updateCurrentWeatherUI_feelsLike env data s c :
  nth_error (cur_weather data) 0 = Some c ->
  fst (updateCurrentWeatherUI env data s) = Return tt /\
  textContent (elements (snd (updateCurrentWeatherUI env data s))) feelsLike
  = [Val (Math_round (Num (feels_like data))); Str "°";
     Str (unitLetter (currentUnit s))].
Proof.
  intros Hw. unfold updateCurrentWeatherUI, firstCondition. rewrite Hw.
  split; reflexivity.
Qed.

(** The temperatures on the page: current, feels-like, and the cards. *)
Definition temperaturesShown (s : State) : Text * Text * list Card :=
  (textContent (elements s) currentTemp,
   textContent (elements s) feelsLike,
   forecastCards (elements s)).

(** [updateCurrentWeatherUI(data.current); updateForecastUI(data.forecast)] *)
Definition render (env : Env) (data : WeatherData) : M unit :=
  updateCurrentWeatherUI env (current data) ;;
  updateForecastUI env (forecast data).

(** What a rendering shows of temperatures depends on the payload and on
    the unit only. *)
Lemma render_temperaturesShown env data s c :
  nth_error (cur_weather (current data)) 0 = Some c ->
  temperaturesShown (snd (render env data s))
  = ([Val (Math_round (Num (temp (current data)))); Str "°";
      Str (unitLetter (currentUnit s))],
     [Val (Math_round (Num (feels_like (current data)))); Str "°";
      Str (unitLetter (currentUnit s))],
     cardsOf env (currentUnit s)
       (firstn 5 (groupForecastByDay (LocalTZA env)
                    (forecast_list (forecast data)))) 0).
Proof.
  intros Hw. unfold render, bind.
  destruct (updateCurrentWeatherUI_feelsLike env (current data) s Hw)
    as (Hr & Hfeels).
  pose proof (updateCurrentWeatherUI_currentTemp env (current data) s) as Htemp.
  destruct (uiOnly_updateCurrentWeatherUI env (current data) s) as (f & Hs).
  destruct (updateCurrentWeatherUI env (current data) s) as [r s1].
  simpl in Hr, Hfeels, Htemp, Hs. subst r.
  rewrite updateForecastUI_state. unfold temperaturesShown.
  assert (Hunit : currentUnit s1 = currentUnit s) by now rewrite Hs.
  rewrite Hunit. unfold withCards. simpl. now rewrite Hfeels, Htemp.
Qed.

(** The state with the new unit stored and the two buttons toggled. *)
Definition unitSelected (unit : TemperatureUnit) (s : State) : State :=
  snd ((classList_toggle celsiusBtn "active" (unit_eqb unit celsius) ;;
        classList_toggle fahrenheitBtn "active" (unit_eqb unit fahrenheit))
         (set_currentUnit unit s)).

Lemma switchTemperatureUnit_cases env unit s :
  switchTemperatureUnit env unit s =
  if unit_eqb (currentUnit s) unit then (Return tt, s)
  else
    match currentWeatherData s with
    | Some data => render env data (unitSelected unit s)
    | None => (Return tt, unitSelected unit s)
    end.
Proof.
  unfold switchTemperatureUnit, unitSelected, render.
  unfold bind at 1, gets at 1.
  destruct (unit_eqb (currentUnit s) unit); [reflexivity|].
  unfold classList_toggle.
  destruct (unit_eqb unit celsius), (unit_eqb unit fahrenheit);
    destruct (currentWeatherData s) eqn:Hdata;
    unfold bind at 1 2 3 4, modify at 1, gets at 1; simpl;
    rewrite Hdata; reflexivity.
Qed.

Lemma unitSelected_fields unit s :
  currentUnit (unitSelected unit s) = unit /\
  currentWeatherData (unitSelected unit s) = currentWeatherData s.
Proof.
  unfold unitSelected, classList_toggle.
  destruct (unit_eqb unit celsius), (unit_eqb unit fahrenheit);
    split; reflexivity.
Qed.

(** X1.  A unit switch leaves the stored payload alone. *)
Theorem switchTemperatureUnit_keeps_data env unit s :
  currentWeatherData (snd (switchTemperatureUnit env unit s))
  = currentWeatherData s.
Proof.
  rewrite switchTemperatureUnit_cases.
  destruct (unit_eqb (currentUnit s) unit); [reflexivity|].
  destruct (currentWeatherData s) as [data|] eqn:Hdata.
  - destruct (uiOnly_render env data (unitSelected unit s)) as (f & Hf).
    unfold render. rewrite Hf. simpl.
    rewrite (proj2 (unitSelected_fields unit s)). exact Hdata.
  - simpl. rewrite (proj2 (unitSelected_fields unit s)). exact Hdata.
Qed.

(** X3.  Switching to the other unit and back shows the temperatures the
    page showed before (current, feels-like and the forecast cards), when
    the page had been rendered from the stored payload and the current
    conditions carry a weather entry. *)
Theorem switchTemperatureUnit_there_and_back env s data c other :
  currentWeatherData s = Some data ->
  nth_error (cur_weather (current data)) 0 = Some c ->
  other <> currentUnit s ->
  temperaturesShown
    (snd (switchTemperatureUnit env (currentUnit s)
            (snd (switchTemperatureUnit env other
                    (snd (render env data s))))))
  = temperaturesShown (snd (render env data s)).
Proof.
  intros Hdata Hw Hother.
  set (u := currentUnit s) in *.
  set (s0 := snd (render env data s)).
  assert (H0 : currentUnit s0 = u /\ currentWeatherData s0 = Some data).
  { destruct (uiOnly_render env data s) as (f & Hf).
    unfold s0, render. rewrite Hf. now split. }
  destruct H0 as [Hu0 Hd0].
  assert (Hne : unit_eqb u other = false /\ unit_eqb other u = false)
    by (subst u; revert Hother; destruct (currentUnit s), other;
        intros Hother; simpl; split; congruence).
  destruct Hne as [Hne Hne'].
  set (s1 := snd (switchTemperatureUnit env other s0)).
  assert (H1 : currentUnit s1 = other /\ currentWeatherData s1 = Some data).
  { unfold s1. rewrite switchTemperatureUnit_cases, Hu0, Hne, Hd0.
    destruct (uiOnly_render env data (unitSelected other s0)) as (f & Hf).
    unfold render. rewrite Hf. simpl.
    destruct (unitSelected_fields other s0) as [-> ->]. now split. }
  destruct H1 as [Hu1 Hd1].
  rewrite switchTemperatureUnit_cases, Hu1, Hne', Hd1.
  unfold s0. rewrite !(render_temperaturesShown env data _ Hw).
  now rewrite (proj1 (unitSelected_fields u s1)).
Qed.

Lemma switchTemperatureUnit_there_and_back_witness :
  temperaturesShown
    (snd (switchTemperatureUnit (answering someKey) celsius
            (snd (switchTemperatureUnit (answering someKey) fahrenheit
                    (snd (render (answering someKey)
                            {| current := london; forecast := londonForecast |}
                            (set_currentWeatherData
                               (Some {| current := london;
                                        forecast := londonForecast |})
                               (initialState blankPage))))))))
  = temperaturesShown
      (snd (render (answering someKey)
              {| current := london; forecast := londonForecast |}
              (set_currentWeatherData
                 (Some {| current := london; forecast := londonForecast |})
                 (initialState blankPage)))).
Proof.
  apply (@switchTemperatureUnit_there_and_back (answering someKey)
           (set_currentWeatherData
              (Some {| current := london; forecast := londonForecast |})
              (initialState blankPage))
           {| current := london; forecast := londonForecast |} rain fahrenheit);
    [reflexivity | reflexivity | discriminate].
Defined.

(** *** The API key check *)

(** With an unconfigured key, the gated initialisation is the error
    message and nothing more. *)
Lemma gatedInit_unconfigured env e s :
  isApiKeyConfigured env = false ->
  call env gatedInit e s
  = (Return tt,
     snd (showError
            [Str "Please configure your OpenWeatherMap API key in the script.js file. Get your free API key at openweathermap.org"]
            s)).
Proof.
  intros Hkey. unfold call, checkApiKeyConfiguration. now rewrite Hkey.
Qed.

(** X4.  On its own, the gated initialisation stops at the error message
    when the key is not configured: it registers no listener and starts
    no fetch and no geolocation request. *)
Theorem gatedInit_stops env e s :
  isApiKeyConfigured env = false ->
  listeners (snd (call env gatedInit e s)) = listeners s /\
  initiated (snd (call env gatedInit e s)) = initiated s /\
  pendingPositions (snd (call env gatedInit e s)) = pendingPositions s.
Proof.
  intros Hkey. rewrite (@gatedInit_unconfigured env e s Hkey).
  repeat split.
Qed.

Lemma gatedInit_stops_witness :
  initiated (snd (call (answering placeholderKey) gatedInit DOMContentLoaded
                    (initialState blankPage))) = [].
Proof.
  apply (@gatedInit_stops (answering placeholderKey) DOMContentLoaded
           (initialState blankPage) eq_refl).
Defined.

Lemma tryCatch_showError_returns body message s :
  fst (tryCatch body (fun _ => showError message) s) = Return tt.
Proof.
  unfold tryCatch. destruct (body s) as [[[]|e] s']; [reflexivity|].
  apply showError_effect.
Qed.

Lemma getWeatherByCoordinates_returns env la lo cityName s :
  fst (getWeatherByCoordinates env la lo cityName s) = Return tt.
Proof. apply tryCatch_showError_returns. Qed.

Lemma getWeatherByCity_starts_fetch env city s :
  fst (getWeatherByCity env city s) = Return tt /\
  exists rest,
    initiated (snd (getWeatherByCity env city s))
    = (initiated s ++ Fetch (WeatherByCity city (API_CONFIG_key env)) :: rest)%list.
Proof.
  set (s0 := snd (showLoading s)).
  assert (Hi0 : initiated s0 = initiated s) by reflexivity.
  rewrite <- Hi0.
  change (getWeatherByCity env city s) with
    (tryCatch
       (response <- fetchWeather env (WeatherByCity city (API_CONFIG_key env)) ;;
        (if ok response then ret tt else throw ("City not found: " ++ city)) ;;
        data <- jsonOf response ;;
        modify (set_currentLocation
                  {| lat := Some (coord_lat data); lon := Some (coord_lon data) |}) ;;
        getWeatherByCoordinates env (coord_lat data) (coord_lon data) (Some city))
       (fun error =>
          showError [Str "Unable to find weather data for "; Str doubleQuote;
                     Str city; Str doubleQuote;
                     Str ". Please check the city name."]) s0).
  clearbody s0. clear Hi0 s.
  split; [apply tryCatch_showError_returns|].
  unfold tryCatch, fetchWeather. unfold bind at 1.
  set (r := Fetch (WeatherByCity city (API_CONFIG_key env))).
  fold (started r s0).
  assert (Herr : forall m, initiated (snd (showError m (started r s0)))
                           = (initiated s0 ++ [r])%list)
    by (intros m; apply showError_effect).
  destruct (weatherEndpoint env _ _) as [[[|] [data|]]|];
    try (exists []; apply Herr).
  cbn [ok json jsonOf]. unfold bind at 1 2 3. unfold ret at 1 2.
  unfold modify at 1.
  rewrite (surjective_pairing (getWeatherByCoordinates _ _ _ _ _)).
  rewrite getWeatherByCoordinates_returns. cbn [snd].
  destruct (getWeatherByCoordinates_starts_fetch env (coord_lat data)
              (coord_lon data) (Some city)
              (set_currentLocation
                 {| lat := Some (coord_lat data); lon := Some (coord_lon data) |}
                 (started r s0))) as (rest & ->).
  eexists. simpl. rewrite <- app_assoc. reflexivity.
Qed.

Lemma loadDefaultWeather_starts env s :
  fst (loadDefaultWeather env s) = Return tt /\
  exists op rest,
    initiated (snd (loadDefaultWeather env s)) = (initiated s ++ op :: rest)%list.
Proof.
  split; [apply tryCatch_showError_returns|].
  unfold loadDefaultWeather, tryCatch. destruct (hasGeolocation env) eqn:Hgeo.
  - unfold getCurrentLocation. rewrite Hgeo. exists GetCurrentPosition, [].
    reflexivity.
  - destruct (getWeatherByCity_starts_fetch env "New York" s) as (Hr & rest & Hi).
    rewrite (surjective_pairing (getWeatherByCity _ _ _)), Hr.
    eexists _, _. exact Hi.
Qed.

(** [m] registers and removes no listener. *)
Definition keepsListeners {A : Type} (m : M A) : Prop :=
  forall s, listeners (snd (m s)) = listeners s.

Lemma keepsListeners_uiOnly (A : Type) (m : M A) :
  uiOnly m -> keepsListeners m.
Proof. intros Hm s. destruct (Hm s) as (f & ->). reflexivity. Qed.

Lemma keepsListeners_bind (A B : Type) (m : M A) (k : A -> M B) :
  keepsListeners m -> (forall a, keepsListeners (k a)) ->
  keepsListeners (bind m k).
Proof.
  intros Hm Hk s. unfold bind. specialize (Hm s).
  destruct (m s) as [[a|e] s1]; simpl in Hm; [|exact Hm].
  now rewrite Hk.
Qed.

Lemma keepsListeners_tryCatch body handler :
  keepsListeners body -> (forall e, keepsListeners (handler e)) ->
  keepsListeners (tryCatch body handler).
Proof.
  intros Hb Hh s. unfold tryCatch. specialize (Hb s).
  destruct (body s) as [[a|e] s1]; simpl in Hb; [exact Hb|].
  now rewrite Hh.
Qed.

Ltac keeps_listeners :=
  repeat first
    [ apply keepsListeners_uiOnly, uiOnly_showError
    | apply keepsListeners_uiOnly, uiOnly_updateCurrentWeatherUI
    | apply keepsListeners_uiOnly, uiOnly_updateForecastUI
    | match goal with
      | |- keepsListeners (bind _ _) =>
          apply keepsListeners_bind; [|intros ?]
      | |- keepsListeners (tryCatch _ _) =>
          apply keepsListeners_tryCatch; [|intros ?]
      | |- keepsListeners (if ?b then _ else _) => destruct b
      | |- keepsListeners (match ?x with _ => _ end) => destruct x
      | |- keepsListeners _ => intros ?; reflexivity
      end ].

Lemma keepsListeners_fetchWeather env r : keepsListeners (fetchWeather env r).
Proof.
  intros s. unfold fetchWeather. now destruct (weatherEndpoint env _ _).
Qed.

Lemma keepsListeners_fetchForecast env r : keepsListeners (fetchForecast env r).
Proof.
  intros s. unfold fetchForecast. now destruct (forecastEndpoint env _ _).
Qed.

Lemma keepsListeners_getWeatherByCoordinates env la lo cityName :
  keepsListeners (getWeatherByCoordinates env la lo cityName).
Proof.
  unfold getWeatherByCoordinates, jsonOf.
  apply keepsListeners_tryCatch; [|intros ?; keeps_listeners].
  apply keepsListeners_bind; [apply keepsListeners_fetchWeather | intros ?].
  apply keepsListeners_bind; [keeps_listeners | intros ?].
  apply keepsListeners_bind; [keeps_listeners | intros ?].
  apply keepsListeners_bind; [apply keepsListeners_fetchForecast | intros ?].
  keeps_listeners.
Qed.

Lemma keepsListeners_getWeatherByCity env city :
  keepsListeners (getWeatherByCity env city).
Proof.
  unfold getWeatherByCity, jsonOf.
  apply keepsListeners_bind; [keeps_listeners | intros ?].
  apply keepsListeners_tryCatch; [|intros ?; keeps_listeners].
  apply keepsListeners_bind; [apply keepsListeners_fetchWeather | intros ?].
  apply keepsListeners_bind; [keeps_listeners | intros ?].
  apply keepsListeners_bind; [keeps_listeners | intros ?].
  apply keepsListeners_bind; [keeps_listeners | intros ?].
  apply keepsListeners_getWeatherByCoordinates.
Qed.

Lemma keepsListeners_loadDefaultWeather env :
  keepsListeners (loadDefaultWeather env).
Proof.
  unfold loadDefaultWeather, getCurrentLocation.
  apply keepsListeners_tryCatch; [|intros ?; keeps_listeners].
  destruct (hasGeolocation env); [keeps_listeners|].
  apply keepsListeners_getWeatherByCity.
Qed.

(** Whatever the key, the first [DOMContentLoaded] listener wires the
    search button and starts an operation; an unconfigured key stops the
    second listener only. *)
Lemma firstInit_not_gated env page :
  isApiKeyConfigured env = false ->
  In (Element searchBtn, "click", handleSearchFn)
     (listeners (run env page [DOMContentLoaded])) /\
  exists op rest, initiated (run env page [DOMContentLoaded]) = op :: rest.
Proof.
  intros Hkey. unfold run. cbn [fold_left].
  set (s0 := snd (loadScript (initialState page))).
  assert (Hreg : listenersOf DOMContentLoaded s0 = [firstInit; gatedInit])
    by reflexivity.
  unfold dispatch. rewrite Hreg. cbn [fold_left].
  set (s1 := invoke env DOMContentLoaded s0 firstInit).
  assert (H1 : In (Element searchBtn, "click", handleSearchFn) (listeners s1) /\
               exists op rest, initiated s1 = op :: rest).
  { unfold s1, invoke.
    set (wired := snd ((addEventListener (Element searchBtn) "click" handleSearchFn ;;
                        addEventListener (Element cityInput) "keypress" (onEnterKey 1) ;;
                        addEventListener (Element locationBtn) "click" getCurrentLocationFn ;;
                        addEventListener (Element celsiusBtn) "click" (switchTo 1 celsius) ;;
                        addEventListener (Element fahrenheitBtn) "click" (switchTo 1 fahrenheit)) s0)).
    change (call env firstInit DOMContentLoaded s0)
      with (loadDefaultWeather env wired).
    destruct (loadDefaultWeather_starts env wired) as (Hr & op & rest & Hi).
    rewrite (surjective_pairing (loadDefaultWeather env wired)), Hr.
    rewrite keepsListeners_loadDefaultWeather, Hi. split.
    - vm_compute. tauto.
    - now exists op, rest. }
  destruct H1 as (Hwired & op & rest & Hops).
  unfold invoke. rewrite (@gatedInit_unconfigured env DOMContentLoaded s1 Hkey).
  split; [exact Hwired | now exists op, rest].
Qed.

(** C4, at concrete inputs.  With the placeholder key, or no key at all,
    the first [DOMContentLoaded] listener still wires the page and loads
    the default weather: a geolocation request is started, or the fetches
    for New York where the browser has no geolocation; a search for Paris
    is fetched; and the keyboard shortcut asks for the position even
    before the page is loaded. *)
Theorem unconfigured_key_still_queries :
  isApiKeyConfigured (answering placeholderKey) = false /\
  isApiKeyConfigured (answering None) = false /\
  initiated (run (answering placeholderKey) blankPage [DOMContentLoaded])
  = [GetCurrentPosition] /\
  initiated (run (answering None) blankPage [DOMContentLoaded])
  = [GetCurrentPosition] /\
  initiated (run (withoutGeolocation placeholderKey) blankPage
               [DOMContentLoaded])
  = [Fetch (WeatherByCity "New York" placeholderKey);
     Fetch (WeatherByCoords (515 # 10) (- (1 # 10)) placeholderKey);
     Fetch (ForecastByCoords (515 # 10) (- (1 # 10)) placeholderKey)] /\
  initiated (run (answering placeholderKey) blankPage
               [DOMContentLoaded; Typed "Paris"; Click searchBtn])
  = [GetCurrentPosition;
     Fetch (WeatherByCity "Paris" placeholderKey);
     Fetch (WeatherByCoords (515 # 10) (- (1 # 10)) placeholderKey);
     Fetch (ForecastByCoords (515 # 10) (- (1 # 10)) placeholderKey)] /\
  initiated (run (answering placeholderKey) blankPage
               [Keydown true false "l"])
  = [GetCurrentPosition].
Proof. vm_compute. repeat split. Qed.

(** *** What every statement of the script keeps *)

(** A relation between the state before and the state after that holds
    of every statement, once it holds of the assignments: statements
    compose by sequence, branching and [try]/[catch]. *)
Section Always.
Variable R : State -> State -> Prop.
Hypothesis R_refl : forall s, R s s.
Hypothesis R_trans : forall s1 s2 s3, R s1 s2 -> R s2 s3 -> R s1 s3.

Definition always {A : Type} (m : M A) : Prop :=
  forall s, R s (snd (m s)).

Lemma always_ret (A : Type) (a : A) : always (ret a).
Proof. intros s. apply R_refl. Qed.

Lemma always_throw (A : Type) (e : string) : always (throw e : M A).
Proof. intros s. apply R_refl. Qed.

Lemma always_gets (A : Type) (f : State -> A) : always (gets f).
Proof. intros s. apply R_refl. Qed.

Lemma always_bind (A B : Type) (m : M A) (k : A -> M B) :
  always m -> (forall a, always (k a)) -> always (bind m k).
Proof.
  intros Hm Hk s. unfold bind. specialize (Hm s).
  destruct (m s) as [[a|e] s1]; simpl in Hm; [|exact Hm].
  apply R_trans with s1; [exact Hm | apply Hk].
Qed.

Lemma always_tryCatch body handler :
  always body -> (forall e, always (handler e)) ->
  always (tryCatch body handler).
Proof.
  intros Hb Hh s. unfold tryCatch. specialize (Hb s).
  destruct (body s) as [[a|e] s1]; simpl in Hb; [exact Hb|].
  apply R_trans with s1; [exact Hb | apply Hh].
Qed.

Lemma always_forEachIndexed (A : Type) (f : A -> nat -> M unit) l :
  (forall x i, always (f x i)) -> forall i, always (forEachIndexed f l i).
Proof.
  intros Hf. induction l as [|x l IH]; intros i; simpl.
  - apply always_ret.
  - apply always_bind; [apply Hf | intros _; apply IH].
Qed.

Lemma always_fold (A : Type) (f : State -> A -> State) l :
  (forall s a, R s (f s a)) -> forall s, R s (fold_left f l s).
Proof.
  intros Hf. induction l as [|a l IH]; intros s; simpl; [apply R_refl|].
  apply R_trans with (f s a); [apply Hf | apply IH].
Qed.

End Always.

Arguments always_ret [R] R_refl [A] a.
Arguments always_throw [R] R_refl [A] e.
Arguments always_gets [R] R_refl [A] f.
Arguments always_fold [R] R_refl R_trans [A] f l.

(** Splits a statement into its assignments and calls, each left as a
    goal for [leaf]; [refl] and [trans] are the proofs that the relation
    is reflexive and transitive. *)
Ltac statement_by refl trans leaf :=
  repeat first
    [ match goal with
      | |- always _ (bind _ _) => apply (always_bind trans); [|intros ?]
      | |- always _ (tryCatch _ _) => apply (always_tryCatch trans); [|intros ?]
      | |- always _ (forEachIndexed _ _ _) =>
          apply (always_forEachIndexed refl trans); intros ? ?
      | |- always _ (ret _) => apply (always_ret refl)
      | |- always _ (throw _) => apply (always_throw refl)
      | |- always _ (gets _) => apply (always_gets refl)
      | |- always _ (if ?b then _ else _) => destruct b
      | |- always _ (match ?x with _ => _ end) => destruct x
      end
    | solve [leaf] ].

(** *** The log of operations *)

(** A log in which every forecast fetch comes right after the fetch of the
    current conditions at the same coordinates, with the same key. *)
Inductive Paired : list Operation -> Prop :=
| Paired_nil : Paired []
| Paired_position l : Paired l -> Paired (GetCurrentPosition :: l)
| Paired_city q key l : Paired l -> Paired (Fetch (WeatherByCity q key) :: l)
| Paired_current la lo key l :
    Paired l -> Paired (Fetch (WeatherByCoords la lo key) :: l)
| Paired_both la lo key l :
    Paired l ->
    Paired (Fetch (WeatherByCoords la lo key)
            :: Fetch (ForecastByCoords la lo key) :: l).

Lemma Paired_app l1 l2 : Paired l1 -> Paired l2 -> Paired (l1 ++ l2)%list.
Proof.
  intros H1 H2. induction H1; simpl; [exact H2|..]; now constructor.
Qed.

Lemma Paired_forecast l : Paired l ->
  forall i la lo key,
    nth_error l i = Some (Fetch (ForecastByCoords la lo key)) ->
    exists j, i = S j /\
              nth_error l j = Some (Fetch (WeatherByCoords la lo key)).
Proof.
  induction 1 as [|l Hl IH|q k l Hl IH|la' lo' k l Hl IH|la' lo' k l Hl IH];
    intros i la lo key Hi.
  - now destruct i.
  - destruct i as [|i]; [discriminate|]. simpl in Hi.
    destruct (IH _ _ _ _ Hi) as (j & -> & Hj). now exists (S j).
  - destruct i as [|i]; [discriminate|]. simpl in Hi.
    destruct (IH _ _ _ _ Hi) as (j & -> & Hj). now exists (S j).
  - destruct i as [|i]; [discriminate|]. simpl in Hi.
    destruct (IH _ _ _ _ Hi) as (j & -> & Hj). now exists (S j).
  - destruct i as [|[|i]]; [discriminate| |].
    + simpl in Hi. injection Hi as -> -> ->. now exists O.
    + simpl in Hi. destruct (IH _ _ _ _ Hi) as (j & -> & Hj).
      now exists (S (S j)).
Qed.

(** The log has grown by a well-paired list of operations. *)
Definition logged (s s' : State) : Prop :=
  exists ext, initiated s' = (initiated s ++ ext)%list /\ Paired ext.

Lemma logged_refl s : logged s s.
Proof. exists []. split; [now rewrite app_nil_r | constructor]. Qed.

Lemma logged_trans s1 s2 s3 : logged s1 s2 -> logged s2 s3 -> logged s1 s3.
Proof.
  intros (e1 & H1 & P1) (e2 & H2 & P2). exists (e1 ++ e2)%list. split.
  - now rewrite H2, H1, app_assoc.
  - now apply Paired_app.
Qed.

Lemma logged_same s s' : initiated s' = initiated s -> logged s s'.
Proof.
  intros H. exists []. split; [now rewrite app_nil_r | constructor].
Qed.

Lemma logged_uiOnly (A : Type) (m : M A) : uiOnly m -> always logged m.
Proof.
  intros Hm s. destruct (Hm s) as (f & ->). now apply logged_same.
Qed.

Lemma logged_getWeatherByCoordinates env la lo cityName :
  always logged (getWeatherByCoordinates env la lo cityName).
Proof.
  intros s. rewrite getWeatherByCoordinates_cases. cbv zeta.
  set (w := Fetch (WeatherByCoords la lo (API_CONFIG_key env))).
  set (f := Fetch (ForecastByCoords la lo (API_CONFIG_key env))).
  assert (H1 : logged s (snd (showError fetchErrorMessage (started w s)))).
  { exists [w]. split; [|repeat constructor].
    now destruct (showError_effect fetchErrorMessage (started w s))
      as (_ & _ & _ & _ & _ & _ & ->). }
  assert (H2 : logged s (snd (showError fetchErrorMessage
                                (started f (started w s))))).
  { exists [w; f]. split; [|apply Paired_both, Paired_nil].
    destruct (showError_effect fetchErrorMessage (started f (started w s)))
      as (_ & _ & _ & _ & _ & _ & ->).
    simpl. now rewrite <- app_assoc. }
  destruct (weatherEndpoint env _ _) as [[[|] [currentData|]]|];
    try exact H1.
  destruct (forecastEndpoint env _ _) as [[[|] [forecastData|]]|];
    try exact H2.
  destruct (storeAndRender_state env currentData forecastData
              (started f (started w s))) as (g & ->).
  exists [w; f]. split; [|apply Paired_both, Paired_nil].
  simpl. now rewrite <- app_assoc.
Qed.

Lemma logged_fetchWeather env r :
  (forall la lo key, r <> ForecastByCoords la lo key) ->
  always logged (fetchWeather env r).
Proof.
  intros Hr s. exists [Fetch r]. split.
  - unfold fetchWeather. now destruct (weatherEndpoint env _ _).
  - destruct r; try (repeat constructor). now elim (Hr latitude longitude appid).
Qed.

Ltac logged_leaf :=
  first
    [ apply logged_uiOnly, uiOnly_showError
    | apply logged_uiOnly, uiOnly_updateCurrentWeatherUI
    | apply logged_uiOnly, uiOnly_updateForecastUI
    | apply logged_getWeatherByCoordinates
    | apply logged_fetchWeather; discriminate
    | intros ?; apply logged_same; reflexivity
    | intros ?; apply logged_same; unfold addEventListener, modify; simpl;
      match goal with |- context [in_dec ?d ?x ?l] => destruct (in_dec d x l) end;
      reflexivity
    | intros ?; exists [GetCurrentPosition]; split;
      [reflexivity | repeat constructor] ].

Ltac logged_statement := statement_by logged_refl logged_trans logged_leaf.

Lemma logged_getWeatherByCity env city :
  always logged (getWeatherByCity env city).
Proof. unfold getWeatherByCity, jsonOf. logged_statement. Qed.

Lemma logged_getCurrentLocation env : always logged (getCurrentLocation env).
Proof. unfold getCurrentLocation. logged_statement. Qed.

Lemma logged_loadDefaultWeather env : always logged (loadDefaultWeather env).
Proof.
  unfold loadDefaultWeather.
  apply (always_tryCatch logged_trans); [|intros ?; logged_statement].
  destruct (hasGeolocation env);
    [apply logged_getCurrentLocation | apply logged_getWeatherByCity].
Qed.

Lemma logged_handleSearch env : always logged (handleSearch env).
Proof.
  unfold handleSearch.
  apply (always_bind logged_trans); [logged_statement | intros city].
  destruct city; [logged_statement | apply logged_getWeatherByCity].
Qed.

Lemma logged_switchTemperatureUnit env unit :
  always logged (switchTemperatureUnit env unit).
Proof.
  unfold switchTemperatureUnit, classList_toggle. logged_statement.
Qed.

Lemma logged_call env callback e : always logged (call env callback e).
Proof.
  destruct callback; cbn [call].
  - apply (always_bind logged_trans); [logged_statement | intros ?].
    apply (always_bind logged_trans); [logged_statement | intros ?].
    apply (always_bind logged_trans); [logged_statement | intros ?].
    apply (always_bind logged_trans); [logged_statement | intros ?].
    apply (always_bind logged_trans); [logged_statement | intros ?].
    apply logged_loadDefaultWeather.
  - unfold checkApiKeyConfiguration, initializeEventListeners.
    apply (always_bind logged_trans); [logged_statement | intros configured].
    destruct (negb configured); [logged_statement|].
    apply (always_bind logged_trans); [logged_statement | intros ?].
    apply logged_loadDefaultWeather.
  - apply logged_handleSearch.
  - destruct e as [| |key| | | | | |]; try apply (always_ret logged_refl).
    destruct (String.eqb key "Enter");
      [apply logged_handleSearch | apply (always_ret logged_refl)].
  - apply logged_getCurrentLocation.
  - apply logged_switchTemperatureUnit.
  - apply (always_ret logged_refl).
  - destruct e as [| | | |ctrlKey metaKey key| | | |];
      try apply (always_ret logged_refl).
    apply (always_bind logged_trans).
    + destruct ((ctrlKey || metaKey) && String.eqb key "l")%bool;
        [apply logged_getCurrentLocation | apply (always_ret logged_refl)].
    + intros _. destruct (String.eqb key "Escape"); logged_statement.
  - logged_statement.
  - logged_statement.
Qed.

Lemma logged_invoke env e s callback : logged s (invoke env e s callback).
Proof.
  unfold invoke. pose proof (logged_call env callback e s) as Hcall.
  destruct (call env callback e s) as [[[]|err] s']; simpl in Hcall;
    [exact Hcall|].
  apply logged_trans with s'; [exact Hcall|].
  apply (always_fold logged_refl logged_trans).
  intros s1 handler. apply logged_call.
Qed.

Lemma logged_autoRefresh env : always logged (autoRefresh env).
Proof.
  unfold autoRefresh.
  apply (always_bind logged_trans); [logged_statement | intros location].
  destruct (truthyCoord (lat location) && truthyCoord (lon location))%bool;
    [|logged_statement].
  destruct (lat location), (lon location); logged_statement.
Qed.

Lemma logged_dispatch env s e : logged s (dispatch env s e).
Proof.
  destruct e as [| | | | | |latitude longitude|code|text]; cbn [dispatch];
    try (apply (always_fold logged_refl logged_trans);
         intros s1 callback; apply logged_invoke).
  - destruct (intervals s); [apply logged_refl | apply logged_autoRefresh].
  - destruct (pendingPositions s) as [|n]; [apply logged_refl|].
    apply logged_trans with (set_pendingPositions n s);
      [now apply logged_same|].
    unfold onPosition. revert s. intros s.
    generalize (set_pendingPositions n s). 
    change (always logged
              (modify (set_currentLocation
                         {| lat := Some latitude; lon := Some longitude |}) ;;
               getWeatherByCoordinates env latitude longitude None)).
    logged_statement.
  - destruct (pendingPositions s) as [|n]; [apply logged_refl|].
    apply logged_trans with (set_pendingPositions n s);
      [now apply logged_same|].
    unfold onPositionError. apply logged_uiOnly, uiOnly_showError.
  - now apply logged_same.
Qed.

(** *** Calls that give way to one another *)

(** One call of the script by the browser: of a listener with its event,
    of the callback of the timer, or of a callback of a geolocation
    request. *)
Inductive Call : Type :=
| OfListener (callback : Callback) (e : Event)
| OfTimer
| OfPosition (latitude longitude : Q)
| OfPositionError (code : nat).

(** The state after the call, run on its own to its end. *)
Definition perform (env : Env) (c : Call) (s : State) : State :=
  match c with
  | OfListener callback e => invoke env e s callback
  | OfTimer => snd (autoRefresh env s)
  | OfPosition latitude longitude =>
      snd (onPosition env latitude longitude s)
  | OfPositionError code => snd (onPositionError code s)
  end.

(** The operations the call starts, in order. *)
Definition startedBy (env : Env) (c : Call) (s : State) : list Operation :=
  skipn (List.length (initiated s)) (initiated (perform env c s)).

Fixpoint setNth (A : Type) (n : nat) (x : A) (l : list A) : list A :=
  match l, n with
  | [], _ => []
  | _ :: rest, O => x :: rest
  | y :: rest, S n' => y :: setNth n' x rest
  end.

(** An [async] function gives way at each [await]: calls in progress at
    the same time start their operations in turns.  The log of the calls
    whose operations are [logs], when they take the [turns]: at each turn
    the call of that number starts its next operation. *)
Fixpoint interleave (logs : list (list Operation)) (turns : list nat)
  : option (list Operation) :=
  match turns with
  | [] => Some []
  | n :: rest =>
      match nth_error logs n with
      | Some (op :: l) => option_map (cons op) (interleave (setNth n l logs) rest)
      | _ => None
      end
  end.

(** Every forecast fetch of [log] has the fetch of the current conditions
    at the same coordinates, with the same key, before it in [log] or
    among the operations [seen] before. *)
Definition Preceded (seen log : list Operation) : Prop :=
  forall i la lo key,
    nth_error log i = Some (Fetch (ForecastByCoords la lo key)) ->
    (exists j, (j < i)%nat /\
               nth_error log j = Some (Fetch (WeatherByCoords la lo key))) \/
    In (Fetch (WeatherByCoords la lo key)) seen.

Lemma Preceded_Paired l : Paired l -> Preceded [] l.
Proof.
  intros Hl i la lo key Hi. left.
  destruct (Paired_forecast Hl _ Hi) as (j & -> & Hj).
  exists j. split; [lia | exact Hj].
Qed.

Lemma Preceded_seen op seen l : Preceded seen l -> Preceded (op :: seen) l.
Proof.
  intros Hl i la lo key Hi.
  destruct (Hl i la lo key Hi) as [H|H]; [now left | right; now right].
Qed.

Lemma Preceded_tail op seen l : Preceded seen (op :: l) -> Preceded (op :: seen) l.
Proof.
  intros Hl i la lo key Hi.
  destruct (Hl (S i) la lo key Hi) as [(j & Hlt & Hj)|H].
  - destruct j as [|j].
    + right. left. simpl in Hj. now injection Hj.
    + left. exists j. split; [lia | exact Hj].
  - right. now right.
Qed.

Lemma Forall_setNth (A : Type) (P : A -> Prop) x : forall n (l : list A),
  Forall P l -> P x -> Forall P (setNth n x l).
Proof.
  induction n as [|n IH]; intros [|y l] Hl Hx; simpl; try constructor;
    inversion Hl; subst; try assumption.
  now apply IH.
Qed.

Lemma Preceded_interleave turns : forall logs seen log,
  Forall (Preceded seen) logs ->
  interleave logs turns = Some log ->
  Preceded seen log.
Proof.
  induction turns as [|n turns IH]; intros logs seen log Hlogs Hlog.
  - simpl in Hlog. injection Hlog as <-. intros [|i] la lo key Hi; discriminate.
  - simpl in Hlog.
    destruct (nth_error logs n) as [[|op l]|] eqn:Hn; try discriminate.
    destruct (interleave (setNth n l logs) turns) as [log'|] eqn:Hrest;
      [|discriminate].
    simpl in Hlog. injection Hlog as <-.
    assert (Hop : Preceded seen (op :: l)).
    { rewrite Forall_forall in Hlogs. apply Hlogs.
      now apply nth_error_In with n. }
    assert (Hlog' : Preceded (op :: seen) log').
    { apply (IH (setNth n l logs)); [|exact Hrest].
      apply Forall_setNth; [|now apply Preceded_tail].
      apply Forall_impl with (P := Preceded seen); [|exact Hlogs].
      intros l0. apply Preceded_seen. }
    intros [|i] la lo key Hi.
    + simpl in Hi. injection Hi as ->.
      destruct (Hop O la lo key eq_refl) as [(j & Hlt & _)|H]; [lia|].
      now right.
    + simpl in Hi. destruct (Hlog' i la lo key Hi) as [(j & Hlt & Hj)|[H|H]].
      * left. exists (S j). split; [lia | exact Hj].
      * left. exists O. split; [lia|]. simpl. now rewrite H.
      * now right.
Qed.

Lemma startedBy_Paired env c s : Paired (startedBy env c s).
Proof.
  assert (Hlog : logged s (perform env c s)).
  { destruct c as [callback e| |latitude longitude|code]; cbn [perform].
    - apply logged_invoke.
    - apply logged_autoRefresh.
    - unfold onPosition. revert s.
      change (always logged
                (modify (set_currentLocation
                           {| lat := Some latitude; lon := Some longitude |}) ;;
                 getWeatherByCoordinates env latitude longitude None)).
      logged_statement.
    - unfold onPositionError. apply logged_uiOnly, uiOnly_showError. }
  destruct Hlog as (ext & Hext & Hpaired).
  unfold startedBy. rewrite Hext, skipn_app, Nat.sub_diag, skipn_all.
  exact Hpaired.
Qed.

(** The page with [Paris] typed into the search input. *)
Definition parisTyped : State :=
  run (answering someKey) blankPage [DOMContentLoaded; Typed "Paris"].

(** X9.  Whatever calls of the script are in progress at the same time,
    of listeners, of the timer or of geolocation callbacks, each begun in
    any state and with any provider, and in whatever turns they start
    their operations: in the log, every forecast fetch comes after a fetch
    of the current conditions at the same coordinates and with the same
    key.  (Within one call it comes right after it; between the two the
    operations of other calls may come, so that the two keypress listeners
    on the Enter key give two fetches of the current conditions followed
    by two forecast fetches.) *)
Theorem forecast_after_current (calls : list (Env * Call * State))
  turns log i la lo key :
  interleave (map (fun '(env, c, s) => startedBy env c s) calls) turns
  = Some log ->
  nth_error log i = Some (Fetch (ForecastByCoords la lo key)) ->
  exists j,
    (j < i)%nat /\
    nth_error log j = Some (Fetch (WeatherByCoords la lo key)).
Proof.
  intros Hlog Hi.
  assert (Hall : Forall (Preceded [])
                   (map (fun '(env, c, s) => startedBy env c s) calls)).
  { apply Forall_forall. intros l Hl. apply in_map_iff in Hl.
    destruct Hl as ([[env c] s] & <- & _).
    apply Preceded_Paired, startedBy_Paired. }
  destruct (Preceded_interleave _ Hall Hlog _ Hi) as [H|[]]. exact H.
Qed.

Lemma forecast_after_current_witness :
  interleave
    [startedBy (answering someKey)
       (OfListener (onEnterKey 1) (Keypress "Enter")) parisTyped;
     startedBy (answering someKey)
       (OfListener (onEnterKey 2) (Keypress "Enter")) parisTyped]
    [0; 1; 0; 1; 0; 1]%nat
  = Some [Fetch (WeatherByCity "Paris" someKey);
          Fetch (WeatherByCity "Paris" someKey);
          Fetch (WeatherByCoords (515 # 10) (- (1 # 10)) someKey);
          Fetch (WeatherByCoords (515 # 10) (- (1 # 10)) someKey);
          Fetch (ForecastByCoords (515 # 10) (- (1 # 10)) someKey);
          Fetch (ForecastByCoords (515 # 10) (- (1 # 10)) someKey)] /\
  exists j,
    (j < 5)%nat /\
    nth_error
      [Fetch (WeatherByCity "Paris" someKey);
       Fetch (WeatherByCity "Paris" someKey);
       Fetch (WeatherByCoords (515 # 10) (- (1 # 10)) someKey);
       Fetch (WeatherByCoords (515 # 10) (- (1 # 10)) someKey);
       Fetch (ForecastByCoords (515 # 10) (- (1 # 10)) someKey);
       Fetch (ForecastByCoords (515 # 10) (- (1 # 10)) someKey)] j
    = Some (Fetch (WeatherByCoords (515 # 10) (- (1 # 10)) someKey)).
Proof.
  assert (Hlog : interleave
            (map (fun '(env, c, s) => startedBy env c s)
               [(answering someKey,
                 OfListener (onEnterKey 1) (Keypress "Enter"), parisTyped);
                (answering someKey,
                 OfListener (onEnterKey 2) (Keypress "Enter"), parisTyped)])
            [0; 1; 0; 1; 0; 1]%nat
          = Some [Fetch (WeatherByCity "Paris" someKey);
                  Fetch (WeatherByCity "Paris" someKey);
                  Fetch (WeatherByCoords (515 # 10) (- (1 # 10)) someKey);
                  Fetch (WeatherByCoords (515 # 10) (- (1 # 10)) someKey);
                  Fetch (ForecastByCoords (515 # 10) (- (1 # 10)) someKey);
                  Fetch (ForecastByCoords (515 # 10) (- (1 # 10)) someKey)])
    by (vm_compute; reflexivity).
  split; [exact Hlog|].
  apply (@forecast_after_current _ _ _ 5%nat _ _ _ Hlog). reflexivity.
Defined.

(** *** The spinner and the error message *)

(** The element [el] carries the class [hidden]. *)
Definition isHidden (s : State) (el : ElementId) : bool :=
  hasToken "hidden" (classList (elements s) el).

(** The loading spinner and the error message are not both on show. *)
Definition notBothShown (s : State) : Prop :=
  isHidden s loading = true \/ isHidden s errorMessage = true.

Definition staysExclusive (s s' : State) : Prop :=
  notBothShown s -> notBothShown s'.

Lemma staysExclusive_refl s : staysExclusive s s.
Proof. intros H. exact H. Qed.

Lemma staysExclusive_trans s1 s2 s3 :
  staysExclusive s1 s2 -> staysExclusive s2 s3 -> staysExclusive s1 s3.
Proof. unfold staysExclusive. tauto. Qed.

Lemma hasToken_add token tokens :
  hasToken token
    (if hasToken token tokens then tokens else (tokens ++ [token])%list)
  = true.
Proof.
  destruct (hasToken token tokens) eqn:E; [exact E|].
  unfold hasToken. rewrite existsb_app. simpl.
  now rewrite String.eqb_refl, orb_true_r.
Qed.

Lemma showLoading_hides_error s :
  isHidden (snd (showLoading s)) errorMessage = true.
Proof. unfold isHidden. simpl. apply hasToken_add. Qed.

Lemma showError_hides_loading message s :
  isHidden (snd (showError message s)) loading = true.
Proof. unfold isHidden. simpl. apply hasToken_add. Qed.

Lemma hideLoading_hides_loading s :
  isHidden (snd (hideLoading s)) loading = true /\
  isHidden (snd (hideLoading s)) errorMessage = isHidden s errorMessage.
Proof. unfold isHidden. simpl. split; [apply hasToken_add | reflexivity]. Qed.

Lemma hideError_hides_error s :
  isHidden (snd (hideError s)) errorMessage = true /\
  isHidden (snd (hideError s)) loading = isHidden s loading.
Proof. unfold isHidden. simpl. split; [apply hasToken_add | reflexivity]. Qed.

Ltac exclusive_leaf :=
  first
    [ intros ? _; right; apply showLoading_hides_error
    | intros ? _; left; apply showError_hides_loading
    | intros ? _; left; apply hideLoading_hides_loading
    | intros ? _; right; apply hideError_hides_error
    | intros ? H; exact H
    | intros ? H; unfold fetchWeather;
      match goal with |- context [weatherEndpoint ?e ?n ?r] =>
        destruct (weatherEndpoint e n r) end; exact H
    | intros ? H; unfold fetchForecast;
      match goal with |- context [forecastEndpoint ?e ?n ?r] =>
        destruct (forecastEndpoint e n r) end; exact H
    | intros ? H; unfold addEventListener, modify; simpl;
      match goal with |- context [in_dec ?d ?x ?l] => destruct (in_dec d x l) end;
      exact H ].

Ltac exclusive_statement :=
  repeat first
    [ progress (cbv zeta)
    | progress (statement_by staysExclusive_refl staysExclusive_trans
                  exclusive_leaf) ].

Lemma exclusive_updateCurrentWeatherUI env data :
  always staysExclusive (updateCurrentWeatherUI env data).
Proof.
  unfold updateCurrentWeatherUI, firstCondition. exclusive_statement.
Qed.

Lemma exclusive_updateForecastUI env data :
  always staysExclusive (updateForecastUI env data).
Proof.
  unfold updateForecastUI, createForecastCard. exclusive_statement.
Qed.

Lemma exclusive_getWeatherByCoordinates env la lo cityName :
  always staysExclusive (getWeatherByCoordinates env la lo cityName).
Proof.
  unfold getWeatherByCoordinates, jsonOf.
  apply (always_tryCatch staysExclusive_trans); [|intros ?; exclusive_statement].
  apply (always_bind staysExclusive_trans); [exclusive_statement | intros ?].
  apply (always_bind staysExclusive_trans); [exclusive_statement | intros ?].
  apply (always_bind staysExclusive_trans); [exclusive_statement | intros ?].
  apply (always_bind staysExclusive_trans); [exclusive_statement | intros ?].
  apply (always_bind staysExclusive_trans); [exclusive_statement | intros ?].
  apply (always_bind staysExclusive_trans); [exclusive_statement | intros ?].
  apply (always_bind staysExclusive_trans); [exclusive_statement | intros ?].
  apply (always_bind staysExclusive_trans);
    [apply exclusive_updateCurrentWeatherUI | intros ?].
  apply (always_bind staysExclusive_trans);
    [apply exclusive_updateForecastUI | intros ?].
  unfold updateLastUpdated. exclusive_statement.
Qed.

Lemma exclusive_getWeatherByCity env city :
  always staysExclusive (getWeatherByCity env city).
Proof.
  unfold getWeatherByCity, jsonOf.
  apply (always_bind staysExclusive_trans); [exclusive_statement | intros ?].
  apply (always_tryCatch staysExclusive_trans); [|intros ?; exclusive_statement].
  apply (always_bind staysExclusive_trans); [exclusive_statement | intros ?].
  apply (always_bind staysExclusive_trans); [exclusive_statement | intros ?].
  apply (always_bind staysExclusive_trans); [exclusive_statement | intros ?].
  apply (always_bind staysExclusive_trans); [exclusive_statement | intros ?].
  apply exclusive_getWeatherByCoordinates.
Qed.

Lemma exclusive_getCurrentLocation env :
  always staysExclusive (getCurrentLocation env).
Proof. unfold getCurrentLocation. exclusive_statement. Qed.

Lemma exclusive_loadDefaultWeather env :
  always staysExclusive (loadDefaultWeather env).
Proof.
  unfold loadDefaultWeather.
  apply (always_tryCatch staysExclusive_trans); [|intros ?; exclusive_statement].
  destruct (hasGeolocation env);
    [apply exclusive_getCurrentLocation | apply exclusive_getWeatherByCity].
Qed.

Lemma exclusive_handleSearch env : always staysExclusive (handleSearch env).
Proof.
  unfold handleSearch.
  apply (always_bind staysExclusive_trans); [exclusive_statement | intros city].
  destruct city; [exclusive_statement | apply exclusive_getWeatherByCity].
Qed.

Lemma exclusive_switchTemperatureUnit env unit :
  always staysExclusive (switchTemperatureUnit env unit).
Proof.
  unfold switchTemperatureUnit.
  apply (always_bind staysExclusive_trans); [exclusive_statement | intros ?].
  destruct (unit_eqb _ _); [exclusive_statement|].
  apply (always_bind staysExclusive_trans); [exclusive_statement | intros ?].
  apply (always_bind staysExclusive_trans);
    [destruct unit; exclusive_statement | intros ?].
  apply (always_bind staysExclusive_trans);
    [destruct unit; exclusive_statement | intros ?].
  apply (always_bind staysExclusive_trans); [exclusive_statement | intros data].
  destruct data; [|exclusive_statement].
  apply (always_bind staysExclusive_trans);
    [apply exclusive_updateCurrentWeatherUI | intros ?].
  apply exclusive_updateForecastUI.
Qed.

Lemma exclusive_call env callback e :
  always staysExclusive (call env callback e).
Proof.
  destruct callback; cbn [call].
  - apply (always_bind staysExclusive_trans); [exclusive_statement | intros ?].
    apply (always_bind staysExclusive_trans); [exclusive_statement | intros ?].
    apply (always_bind staysExclusive_trans); [exclusive_statement | intros ?].
    apply (always_bind staysExclusive_trans); [exclusive_statement | intros ?].
    apply (always_bind staysExclusive_trans); [exclusive_statement | intros ?].
    apply exclusive_loadDefaultWeather.
  - unfold checkApiKeyConfiguration, initializeEventListeners.
    apply (always_bind staysExclusive_trans);
      [exclusive_statement | intros configured].
    destruct (negb configured); [exclusive_statement|].
    apply (always_bind staysExclusive_trans); [exclusive_statement | intros ?].
    apply exclusive_loadDefaultWeather.
  - apply exclusive_handleSearch.
  - destruct e as [| |key| | | | | |];
      try apply (always_ret staysExclusive_refl).
    destruct (String.eqb key "Enter");
      [apply exclusive_handleSearch | apply (always_ret staysExclusive_refl)].
  - apply exclusive_getCurrentLocation.
  - apply exclusive_switchTemperatureUnit.
  - apply (always_ret staysExclusive_refl).
  - destruct e as [| | | |ctrlKey metaKey key| | | |];
      try apply (always_ret staysExclusive_refl).
    apply (always_bind staysExclusive_trans).
    + destruct ((ctrlKey || metaKey) && String.eqb key "l")%bool;
        [apply exclusive_getCurrentLocation
        | apply (always_ret staysExclusive_refl)].
    + intros _. destruct (String.eqb key "Escape"); exclusive_statement.
  - exclusive_statement.
  - exclusive_statement.
Qed.

Lemma exclusive_invoke env e s callback :
  staysExclusive s (invoke env e s callback).
Proof.
  unfold invoke. pose proof (@exclusive_call env callback e s) as Hcall.
  destruct (call env callback e s) as [[[]|err] s']; simpl in Hcall;
    [exact Hcall|].
  apply staysExclusive_trans with s'; [exact Hcall|].
  apply (always_fold staysExclusive_refl staysExclusive_trans).
  intros s1 handler. apply exclusive_call.
Qed.

Lemma exclusive_dispatch env s e : staysExclusive s (dispatch env s e).
Proof.
  destruct e as [| | | | | |latitude longitude|code|text]; cbn [dispatch];
    try (apply (always_fold staysExclusive_refl staysExclusive_trans);
         intros s1 callback; apply exclusive_invoke).
  - destruct (intervals s); [apply staysExclusive_refl|].
    revert s. change (always staysExclusive (autoRefresh env)).
    unfold autoRefresh.
    apply (always_bind staysExclusive_trans);
      [exclusive_statement | intros location].
    destruct (truthyCoord (lat location) && truthyCoord (lon location))%bool;
      [|exclusive_statement].
    destruct (lat location), (lon location);
      first [apply exclusive_getWeatherByCoordinates | exclusive_statement].
  - destruct (pendingPositions s) as [|n]; [apply staysExclusive_refl|].
    apply staysExclusive_trans with (set_pendingPositions n s);
      [intros H; exact H|].
    generalize (set_pendingPositions n s).
    change (always staysExclusive (onPosition env latitude longitude)).
    unfold onPosition.
    apply (always_bind staysExclusive_trans); [exclusive_statement | intros ?].
    apply exclusive_getWeatherByCoordinates.
  - destruct (pendingPositions s) as [|n]; [apply staysExclusive_refl|].
    intros _. left. apply showError_hides_loading.
  - intros H. exact H.
Qed.

(** A page whose spinner and error message start hidden. *)
Definition quietPage : Elements :=
  {| textContent := fun _ => [];
     classList := fun el =>
       match el with
       | loading | errorMessage => ["hidden"]
       | _ => []
       end;
     cityInput_value := EmptyString;
     forecastCards := [] |}.

(** X10.  On a page where the loading spinner and the error message are
    not both on show to begin with, no sequence of events ever leaves
    both on show. *)
Theorem spinner_and_error_never_both env page es :
  notBothShown (initialState page) ->
  notBothShown (run env page es).
Proof.
  intros Hpage. unfold run.
  apply (always_fold staysExclusive_refl staysExclusive_trans
           (dispatch env) es (exclusive_dispatch env)).
  unfold loadScript. exact Hpage.
Qed.

Lemma spinner_and_error_never_both_witness :
  notBothShown
    (run (forecastDown someKey) quietPage
       [DOMContentLoaded; PositionFound 51 1; Typed "Paris"; Click searchBtn]).
Proof.
  apply spinner_and_error_never_both. left. reflexivity.
Defined.

(** *** Icons and cards *)

(** X12.  The two icon tables agree.  For every icon code that
    [getWeatherIconClass] gives a class name for, a code of its table or
    an unknown one, the class [updateWeatherIcon] gives the icon of the
    current weather is [fas], then [fa-] followed by that name, then
    [weather-icon]; a code that is in neither table and names no property
    that every object has gives the question mark in both.  A code that
    names such a property ([constructor], say) finds the built-in in both
    tables, and the question mark is not shown: the class is then made of
    the words of the built-in's text. *)
Theorem icon_tables_agree iconCode mainWeather s :
  match getWeatherIconClass iconCode with
  | ClassName name =>
      classList (elements (snd (updateWeatherIcon iconCode mainWeather s)))
        weatherIcon
      = ["fas"; "fa-" ++ name; "weather-icon"]
  | BuiltIn k =>
      k = iconCode /\ In iconCode Dates.inheritedProperties /\
      classList (elements (snd (updateWeatherIcon iconCode mainWeather s)))
        weatherIcon
      = (builtInWords iconCode ++ ["weather-icon"])%list
  end /\
  (Obj.get forecastIconMap iconCode = None ->
   ~ In iconCode Dates.inheritedProperties ->
   getWeatherIconClass iconCode = ClassName "question-circle") /\
  getWeatherIconClass "constructor" = BuiltIn "constructor" /\
  classList (elements (snd (updateWeatherIcon "constructor" mainWeather s)))
    weatherIcon
  = ["function"; "Object()"; "{"; "[native"; "code]"; "}"; "weather-icon"].
Proof.
  split; [|split; [|split; reflexivity]].
  - unfold updateWeatherIcon, getWeatherIconClass, Obj.lookup.
    set (inherited := existsb (String.eqb iconCode) Dates.inheritedProperties).
    assert (Hin : inherited = true -> In iconCode Dates.inheritedProperties).
    { intros E. apply existsb_exists in E. destruct E as (k & Hk & Heq).
      apply String.eqb_eq in Heq. now subst k. }
    clearbody inherited. unfold iconMap, forecastIconMap. simpl.
    repeat (destruct (String.eqb iconCode _); [reflexivity|]).
    destruct inherited; [|reflexivity].
    split; [reflexivity | split; [now apply Hin | reflexivity]].
  - intros Hnone Hnot. unfold getWeatherIconClass, Obj.lookup.
    rewrite Hnone.
    destruct (existsb _ _) eqn:E; [|reflexivity].
    apply existsb_exists in E. destruct E as (k & Hk & Heq).
    apply String.eqb_eq in Heq. subst k. contradiction.
Qed.

Lemma Math_round_monotone x y :
  ge y x = true -> ge (Math_round y) (Math_round x) = true.
Proof.
  destruct x as [a| | |], y as [b| | |]; simpl; try (intros; assumption).
  intros Hab. apply Qle_bool_iff in Hab. now apply Math_round_le.
Qed.

Lemma rounded_celsiusToFahrenheit_le (a b : Z) :
  (a <= b)%Z ->
  ge (Math_round (celsiusToFahrenheit (ofZ b)))
     (Math_round (celsiusToFahrenheit (ofZ a))) = true.
Proof.
  intros Hab. apply Math_round_monotone, celsiusToFahrenheit_monotone.
  unfold ofZ, ge. apply Qle_bool_iff. now rewrite <- Zle_Qle.
Qed.

Lemma summary_extremes tz l d :
  In d (groupForecastByDay tz l) ->
  exists lo hi, minTemp d = ofZ lo /\ maxTemp d = ofZ hi /\ (lo <= hi)%Z.
Proof.
  intros Hd.
  destruct (In_groupForecastByDay _ _ _ Hd) as (first & rest & _ & _ & ->).
  unfold summarize, dayDataOf. cbn [maxTemp minTemp temps map].
  rewrite Math_max_cons, Math_min_cons. eexists _, _.
  split; [reflexivity | split; [reflexivity|]].
  apply Qfloor_resp_le, Qplus_le_l, fold_Qmin_le_Qmax, Qle_refl.
Qed.

(** X13.  On the card of a summary of [groupForecastByDay], the high
    shown is never below the low shown, in Celsius and in Fahrenheit
    alike, and both carry the same unit suffix. *)
Theorem card_high_not_below_low env l d index s card :
  In d (groupForecastByDay (LocalTZA env) l) ->
  fst (createForecastCard env d index s) = Return card ->
  exists high low suffix,
    card_high card = [Val high; Str suffix] /\
    card_low card = [Val low; Str suffix] /\
    ge high low = true.
Proof.
  intros Hd Hcard.
  destruct (summary_extremes _ _ _ Hd) as (lo & hi & Hlo & Hhi & Hle).
  unfold createForecastCard, bind, gets in Hcard. simpl in Hcard.
  destruct (weather d) as [c|]; [|discriminate Hcard].
  simpl in Hcard. injection Hcard as <-. cbn [card_high card_low].
  rewrite Hlo, Hhi.
  destruct (currentUnit s); eexists _, _, _;
    (split; [reflexivity | split; [reflexivity|]]).
  - unfold Math_round, ofZ, ge. apply Qle_bool_iff. rewrite <- Zle_Qle.
    apply Qfloor_resp_le, Qplus_le_l. now rewrite <- Zle_Qle.
  - now apply rounded_celsiusToFahrenheit_le.
Qed.

(** The card of [secondOfNovember] in Fahrenheit, second in the list. *)
Definition mondayCard : Card :=
  {| card_dayName := "Mon"; card_date := "Nov 2";
     card_icon := ClassName "cloud-sun-rain";
     card_high := [Val (ofZ 72); Str "°F"];
     card_low := [Val (ofZ 68); Str "°F"];
     card_desc := "light rain";
     card_details :=
       [Str "💧 "; Val (ofZ 63); Str "% | 💨 "; Val (ofZ 22); Str " km/h"] |}.

Lemma card_high_not_below_low_witness :
  exists high low suffix,
    card_high mondayCard = [Val high; Str suffix] /\
    card_low mondayCard = [Val low; Str suffix] /\
    ge high low = true.
Proof.
  apply (@card_high_not_below_low (answering someKey) twoDays
           secondOfNovember 1
           (set_currentUnit fahrenheit (initialState blankPage))).
  - vm_compute. right. left. reflexivity.
  - vm_compute. reflexivity.
Defined.

Lemma cardsOf_length env unit l : forall index,
  (List.length (cardsOf env unit l index) <= List.length l)%nat.
Proof.
  induction l as [|d l IH]; intros index; simpl; [lia|].
  destruct (fst (createForecastCard env d index _)); simpl; [|lia].
  specialize (IH (S index)). lia.
Qed.

Lemma createForecastCard_returns env d index s :
  weather d <> None ->
  exists card, fst (createForecastCard env d index s) = Return card.
Proof.
  intros Hw. unfold createForecastCard, bind, gets. simpl.
  destruct (weather d); [|congruence]. simpl. now eexists.
Qed.

Lemma cardsOf_all env unit l : forall index,
  (forall d, In d l -> weather d <> None) ->
  List.length (cardsOf env unit l index) = List.length l.
Proof.
  induction l as [|d l IH]; intros index Hall; simpl; [reflexivity|].
  destruct (@createForecastCard_returns env d index
              (set_currentUnit unit (initialState blankPage))
              (Hall d (or_introl eq_refl))) as (card & ->).
  simpl. f_equal. apply IH. intros d' Hd'. apply Hall. now right.
Qed.

Lemma appendCards_returns env l : forall index s,
  (forall d, In d l -> weather d <> None) ->
  fst (forEachIndexed
         (fun forecast index =>
            forecastCard <- createForecastCard env forecast index ;;
            setForecastCards (fun cards => (cards ++ [forecastCard])%list))
         l index s) = Return tt.
Proof.
  induction l as [|d l IH]; intros index s Hall; [reflexivity|].
  cbn [forEachIndexed]. unfold bind at 1 2.
  rewrite createForecastCard_pure.
  destruct (@createForecastCard_returns env d index
              (set_currentUnit (currentUnit s) (initialState blankPage))
              (Hall d (or_introl eq_refl))) as (card & ->).
  unfold setForecastCards at 1, modify at 1.
  apply IH. intros d' Hd'. apply Hall. now right.
Qed.

Lemma summaries_have_weather tz l :
  (forall item, In item l -> item_weather item <> []) ->
  forall d, In d (groupForecastByDay tz l) -> weather d <> None.
Proof.
  intros Hall d Hd.
  destruct (In_groupForecastByDay _ _ _ Hd) as (first & rest & _ & Hf & ->).
  apply find_some in Hf. destruct Hf as [Hin _].
  specialize (Hall first Hin). unfold summarize, dayDataOf. simpl.
  now destruct (item_weather first).
Qed.

Lemma updateForecastUI_returns env data s :
  (forall item, In item (forecast_list data) -> item_weather item <> []) ->
  fst (updateForecastUI env data s) = Return tt.
Proof.
  intros Hall.
  unfold updateForecastUI. unfold bind at 1, setForecastCards at 1, modify at 1.
  apply appendCards_returns. intros d Hd.
  apply (summaries_have_weather (LocalTZA env) _ Hall).
  rewrite <- (firstn_skipn 5 (groupForecastByDay _ _)).
  apply in_or_app. now left.
Qed.

(** X14.  [updateForecastUI] shows at most five cards, whatever the
    forecast; it replaces the cards of the page, so that running it again
    changes nothing; and when every sample of the forecast has a weather
    entry, it does not throw and shows one card for each of the first
    five days. *)
Theorem updateForecastUI_cards env data s :
  (List.length
     (forecastCards (elements (snd (updateForecastUI env data s)))) <= 5)%nat /\
  snd (updateForecastUI env data (snd (updateForecastUI env data s)))
  = snd (updateForecastUI env data s) /\
  ((forall item, In item (forecast_list data) -> item_weather item <> []) ->
   fst (updateForecastUI env data s) = Return tt /\
   List.length (forecastCards (elements (snd (updateForecastUI env data s))))
   = Nat.min 5
       (List.length (groupForecastByDay (LocalTZA env) (forecast_list data)))).
Proof.
  rewrite !updateForecastUI_state.
  set (days := groupForecastByDay (LocalTZA env) (forecast_list data)).
  split; [|split].
  - unfold withCards, set_elements. cbn [elements forecastCards].
    pose proof (cardsOf_length env (currentUnit s) (firstn 5 days) 0).
    pose proof (firstn_le_length 5 days). lia.
  - destruct s as [? ? ? [? ? ? ?] ? ? ? ?]. reflexivity.
  - intros Hall.
    assert (Hw : forall d, In d (firstn 5 days) -> weather d <> None).
    { intros d Hd. apply (summaries_have_weather (LocalTZA env) _ Hall).
      fold days. rewrite <- (firstn_skipn 5 days). apply in_or_app. now left. }
    split.
    + now apply updateForecastUI_returns.
    + unfold withCards, set_elements. cbn [elements forecastCards].
      rewrite cardsOf_all by exact Hw. apply length_firstn.
Qed.

(** *** Fetching by coordinates, the other outcomes *)

Lemma bind_returns (A B : Type) (m : M A) (k : A -> M B) s b s' :
  bind m k s = (Return b, s') ->
  exists a s1, m s = (Return a, s1) /\ k a s1 = (Return b, s').
Proof.
  unfold bind. destruct (m s) as [[a|e] s1]; [|discriminate].
  intros H. now exists a, s1.
Qed.

Lemma storeAndRender_hides_loading env currentData forecastData s r s' :
  storeAndRender env currentData forecastData s = (Return r, s') ->
  isHidden s' loading = true /\ isHidden s' errorMessage = true.
Proof.
  unfold storeAndRender. intros H.
  do 4 (apply bind_returns in H; destruct H as (? & ? & _ & H)).
  apply bind_returns in H. destruct H as (? & s4 & Hload & Herr).
  match type of Hload with hideLoading ?s3 = _ =>
    assert (Hs4 : s4 = snd (hideLoading s3)) by now rewrite Hload
  end.
  assert (Hs' : s' = snd (hideError s4)) by now rewrite Herr.
  subst s' s4.
  match goal with |- context [hideLoading ?s3] =>
    destruct (hideError_hides_error (snd (hideLoading s3))) as [He Hl];
    split; [|exact He]; rewrite Hl; apply hideLoading_hides_loading
  end.
Qed.

(** X15.  [getWeatherByCoordinates] never throws to its caller, whatever
    the provider answers and whatever the payloads hold, and it always
    ends with the loading spinner hidden. *)
Theorem getWeatherByCoordinates_settles env la lo cityName s :
  fst (getWeatherByCoordinates env la lo cityName s) = Return tt /\
  isHidden (snd (getWeatherByCoordinates env la lo cityName s)) loading = true.
Proof.
  split; [apply getWeatherByCoordinates_returns|].
  rewrite getWeatherByCoordinates_cases. cbv zeta.
  destruct (weatherEndpoint env _ _) as [[[|] [currentData|]]|];
    try apply showError_hides_loading.
  destruct (forecastEndpoint env _ _) as [[[|] [forecastData|]]|];
    try apply showError_hides_loading.
  unfold tryCatch.
  destruct (storeAndRender env currentData forecastData _) as [[r|e] s'] eqn:E.
  - now apply storeAndRender_hides_loading in E.
  - apply showError_hides_loading.
Qed.

(** X16.  When the fetch of the current conditions fails (its promise
    rejects, its status is not ok, or its body does not parse), the
    forecast is not requested at all: that one fetch is the only operation
    started, the stored payload and the forecast cards are left as they
    were, and the error message is shown. *)
Theorem getWeatherByCoordinates_current_failure env la lo cityName s :
  fetchFailed
    (weatherEndpoint env (List.length (initiated s))
       (WeatherByCoords la lo (API_CONFIG_key env))) = true ->
  initiated (snd (getWeatherByCoordinates env la lo cityName s))
  = (initiated s ++ [Fetch (WeatherByCoords la lo (API_CONFIG_key env))])%list /\
  currentWeatherData (snd (getWeatherByCoordinates env la lo cityName s))
  = currentWeatherData s /\
  forecastCards (elements (snd (getWeatherByCoordinates env la lo cityName s)))
  = forecastCards (elements s) /\
  textContent (elements (snd (getWeatherByCoordinates env la lo cityName s)))
    errorText = fetchErrorMessage /\
  isHidden (snd (getWeatherByCoordinates env la lo cityName s)) errorMessage
  = false.
Proof.
  intros Hfail. rewrite getWeatherByCoordinates_cases. cbv zeta.
  set (s1 := started _ s).
  destruct (showError_effect fetchErrorMessage s1)
    as (_ & Herr & Hvisible & _ & Hcards & Hdata & Hops).
  destruct (weatherEndpoint env _ _) as [[[|] [currentData|]]|];
    try discriminate Hfail;
    (split; [exact Hops|]); (split; [exact Hdata|]);
    (split; [exact Hcards|]); (split; [exact Herr | exact Hvisible]).
Qed.

Lemma getWeatherByCoordinates_current_failure_witness :
  initiated
    (snd (getWeatherByCoordinates
            {| API_CONFIG_key := someKey; hasGeolocation := true;
               LocalTZA := Dates.UTC; clock := 0;
               weatherEndpoint := fun _ _ => None;
               forecastEndpoint := fun _ _ => respond londonForecast |}
            51 1 None (initialState blankPage)))
  = [Fetch (WeatherByCoords 51 1 someKey)].
Proof.
  apply (@getWeatherByCoordinates_current_failure
           {| API_CONFIG_key := someKey; hasGeolocation := true;
              LocalTZA := Dates.UTC; clock := 0;
              weatherEndpoint := fun _ _ => None;
              forecastEndpoint := fun _ _ => respond londonForecast |}
           51 1 None (initialState blankPage)).
  reflexivity.
Defined.

(** X17.  When both fetches succeed, the two payloads are stored together
    even before the page is drawn; and when the current conditions carry a
    weather entry and so does every sample of the forecast,
    [getWeatherByCoordinates] ends with the spinner and the error message
    hidden and with the temperatures of the payload on the page, in the
    active unit's notation. *)
Theorem getWeatherByCoordinates_success
  env la lo cityName s currentData forecastData :
  weatherEndpoint env (List.length (initiated s))
    (WeatherByCoords la lo (API_CONFIG_key env))
  = Some {| ok := true; json := Some currentData |} ->
  forecastEndpoint env (S (List.length (initiated s)))
    (ForecastByCoords la lo (API_CONFIG_key env))
  = Some {| ok := true; json := Some forecastData |} ->
  currentWeatherData (snd (getWeatherByCoordinates env la lo cityName s))
  = Some {| current := currentData; forecast := forecastData |} /\
  initiated (snd (getWeatherByCoordinates env la lo cityName s))
  = (initiated s ++
     [Fetch (WeatherByCoords la lo (API_CONFIG_key env));
      Fetch (ForecastByCoords la lo (API_CONFIG_key env))])%list /\
  (cur_weather currentData <> [] ->
   (forall item, In item (forecast_list forecastData) ->
                 item_weather item <> []) ->
   isHidden (snd (getWeatherByCoordinates env la lo cityName s)) errorMessage
   = true /\
   temperaturesShown (snd (getWeatherByCoordinates env la lo cityName s))
   = temperaturesShown
       (snd (render env
               {| current := currentData; forecast := forecastData |} s))).
Proof.
  intros Hcurrent Hforecast.
  rewrite getWeatherByCoordinates_cases. cbv zeta. rewrite Hcurrent.
  replace (List.length (initiated (started _ s)))
    with (S (List.length (initiated s)))
    by (simpl; rewrite length_app; simpl; lia).
  rewrite Hforecast.
  set (s2 := started (Fetch (ForecastByCoords _ _ _)) _).
  destruct (storeAndRender_state env currentData forecastData s2) as (g & Hg).
  split; [now rewrite Hg|].
  split; [rewrite Hg; unfold s2, started; simpl; now rewrite <- app_assoc|].
  intros Hweather Hitems. clear g Hg.
  destruct (nth_error (cur_weather currentData) 0) as [c|] eqn:Hc;
    [|now destruct (cur_weather currentData)].
  set (data := {| current := currentData; forecast := forecastData |}).
  set (s3 := set_currentWeatherData (Some data) s2).
  destruct (updateCurrentWeatherUI_feelsLike env currentData s3 Hc)
    as [Hr1 _].
  pose proof (@updateForecastUI_returns env forecastData
                (snd (updateCurrentWeatherUI env currentData s3)) Hitems)
    as Hr2'.
  assert (Hbody :
    tryCatch (storeAndRender env currentData forecastData)
      (fun _ => showError fetchErrorMessage) s2
    = (hideLoading ;; hideError)
        (snd (updateLastUpdated env (snd (render env data s3))))).
  { revert Hr1 Hr2'. unfold tryCatch, storeAndRender, render, data.
    cbn [current forecast]. fold data. unfold bind, modify. fold s3.
    destruct (updateCurrentWeatherUI env currentData s3) as [r1 s4].
    cbn [fst snd]. intros ->.
    destruct (updateForecastUI env forecastData s4) as [r2 s5].
    cbn [fst snd]. intros ->. reflexivity. }
  rewrite Hbody.
  rewrite (render_temperaturesShown env data s Hc).
  pose proof (render_temperaturesShown env data s3 Hc) as Hshown.
  split; [unfold isHidden; simpl; apply hasToken_add|].
  unfold temperaturesShown in *. simpl in *. exact Hshown.
Qed.

Lemma getWeatherByCoordinates_success_witness :
  currentWeatherData
    (snd (getWeatherByCoordinates (answering someKey) 51 0 None
            (initialState blankPage)))
  = Some {| current := london; forecast := londonForecast |}.
Proof.
  apply (@getWeatherByCoordinates_success (answering someKey) 51 0 None
           (initialState blankPage) london londonForecast);
    reflexivity.
Defined.

(** *** Fetching by city *)

Definition cityErrorMessage (city : string) : Text :=
  [Str "Unable to find weather data for "; Str doubleQuote; Str city;
   Str doubleQuote; Str ". Please check the city name."].

Definition locationOf (data : CurrentData) : Location :=
  {| lat := Some (coord_lat data); lon := Some (coord_lon data) |}.

Lemma getWeatherByCity_cases env city s :
  let key := API_CONFIG_key env in
  let s1 := started (Fetch (WeatherByCity city key)) (snd (showLoading s)) in
  getWeatherByCity env city s =
  match weatherEndpoint env (List.length (initiated s))
          (WeatherByCity city key) with
  | Some {| ok := true; json := Some data |} =>
      getWeatherByCoordinates env (coord_lat data) (coord_lon data)
        (Some city) (set_currentLocation (locationOf data) s1)
  | _ => showError (cityErrorMessage city) s1
  end.
Proof.
  cbv zeta. set (s0 := snd (showLoading s)).
  assert (Hi0 : initiated s0 = initiated s) by reflexivity.
  rewrite <- Hi0.
  change (getWeatherByCity env city s) with
    (tryCatch
       (response <- fetchWeather env (WeatherByCity city (API_CONFIG_key env)) ;;
        (if ok response then ret tt else throw ("City not found: " ++ city)) ;;
        data <- jsonOf response ;;
        modify (set_currentLocation (locationOf data)) ;;
        getWeatherByCoordinates env (coord_lat data) (coord_lon data) (Some city))
       (fun error => showError (cityErrorMessage city)) s0).
  clearbody s0. clear Hi0 s.
  unfold tryCatch, fetchWeather, started. unfold bind at 1.
  destruct (weatherEndpoint env _ _) as [[[|] [data|]]|]; try reflexivity.
  cbn [ok json jsonOf]. unfold bind at 1 2 3. unfold ret at 1 2.
  unfold modify at 1.
  pose proof (getWeatherByCoordinates_returns env (coord_lat data)
                (coord_lon data) (Some city)
                (set_currentLocation (locationOf data)
                   (set_initiated
                      (initiated s0 ++
                       [Fetch (WeatherByCity city (API_CONFIG_key env))])%list
                      s0))) as Hr.
  destruct (getWeatherByCoordinates _ _ _ _ _) as [r s']. simpl in Hr.
  now subst r.
Qed.

(** X18.  When the lookup of the city fails (the promise rejects, the
    status is not ok, or the body does not parse), [getWeatherByCity]
    returns normally with the message that names the city on show and the
    spinner hidden; that lookup is the only operation started, and the
    stored location and payload are left as they were. *)
Theorem getWeatherByCity_not_found env city s :
  fetchFailed
    (weatherEndpoint env (List.length (initiated s))
       (WeatherByCity city (API_CONFIG_key env))) = true ->
  fst (getWeatherByCity env city s) = Return tt /\
  initiated (snd (getWeatherByCity env city s))
  = (initiated s ++ [Fetch (WeatherByCity city (API_CONFIG_key env))])%list /\
  currentLocation (snd (getWeatherByCity env city s)) = currentLocation s /\
  currentWeatherData (snd (getWeatherByCity env city s))
  = currentWeatherData s /\
  textContent (elements (snd (getWeatherByCity env city s))) errorText
  = cityErrorMessage city /\
  isHidden (snd (getWeatherByCity env city s)) errorMessage = false /\
  isHidden (snd (getWeatherByCity env city s)) loading = true.
Proof.
  intros Hfail. rewrite getWeatherByCity_cases. cbv zeta.
  set (s1 := started _ _).
  destruct (showError_effect (cityErrorMessage city) s1)
    as (Hr & Herr & Hvisible & _ & _ & Hdata & Hops).
  pose proof (showError_hides_loading (cityErrorMessage city) s1) as Hload.
  destruct (weatherEndpoint env _ _) as [[[|] [data|]]|];
    try discriminate Hfail;
    (split; [exact Hr|]); (split; [exact Hops|]); (split; [reflexivity|]);
    (split; [exact Hdata|]); (split; [exact Herr|]);
    (split; [exact Hvisible | exact Hload]).
Qed.

Lemma getWeatherByCity_not_found_witness :
  textContent
    (elements
       (snd (getWeatherByCity
               {| API_CONFIG_key := someKey; hasGeolocation := true;
                  LocalTZA := Dates.UTC; clock := 0;
                  weatherEndpoint :=
                    fun _ _ => Some {| ok := false; json := Some london |};
                  forecastEndpoint := fun _ _ => respond londonForecast |}
               "Atlantis" (initialState blankPage)))) errorText
  = cityErrorMessage "Atlantis".
Proof.
  apply (@getWeatherByCity_not_found
           {| API_CONFIG_key := someKey; hasGeolocation := true;
              LocalTZA := Dates.UTC; clock := 0;
              weatherEndpoint :=
                fun _ _ => Some {| ok := false; json := Some london |};
              forecastEndpoint := fun _ _ => respond londonForecast |}
           "Atlantis" (initialState blankPage)).
  reflexivity.
Defined.

(** X19.  When the lookup of the city succeeds, the coordinates of its
    answer become the stored location and the next operation is the fetch
    of the current conditions at exactly those coordinates.  The location
    is stored before that fetch: when the fetch fails, the stored location
    has moved to the new city all the same, the stored payload is the old
    one, and the message on show is the general one, not the one that
    names the city. *)
Theorem getWeatherByCity_found env city s data :
  weatherEndpoint env (List.length (initiated s))
    (WeatherByCity city (API_CONFIG_key env))
  = Some {| ok := true; json := Some data |} ->
  currentLocation (snd (getWeatherByCity env city s)) = locationOf data /\
  (exists rest,
     initiated (snd (getWeatherByCity env city s))
     = (initiated s ++
        Fetch (WeatherByCity city (API_CONFIG_key env)) ::
        Fetch (WeatherByCoords (coord_lat data) (coord_lon data)
                 (API_CONFIG_key env)) :: rest)%list) /\
  (fetchFailed
     (weatherEndpoint env (S (List.length (initiated s)))
        (WeatherByCoords (coord_lat data) (coord_lon data)
           (API_CONFIG_key env))) = true ->
   currentWeatherData (snd (getWeatherByCity env city s))
   = currentWeatherData s /\
   textContent (elements (snd (getWeatherByCity env city s))) errorText
   = fetchErrorMessage).
Proof.
  intros Hfound. rewrite getWeatherByCity_cases. cbv zeta. rewrite Hfound.
  set (s2 := set_currentLocation _ _).
  assert (Hi2 : initiated s2 =
                (initiated s ++
                 [Fetch (WeatherByCity city (API_CONFIG_key env))])%list)
    by reflexivity.
  split; [|split].
  - rewrite getWeatherByCoordinates_cases. cbv zeta.
    assert (Herr : forall s', currentLocation
                                (snd (showError fetchErrorMessage s'))
                              = currentLocation s') by reflexivity.
    destruct (weatherEndpoint env (List.length (initiated s2)) _)
      as [[[|] [currentData|]]|];
      try (rewrite Herr; reflexivity).
    destruct (forecastEndpoint env _ _) as [[[|] [forecastData|]]|];
      try (rewrite Herr; reflexivity).
    destruct (storeAndRender_state env currentData forecastData
                (started
                   (Fetch (ForecastByCoords (coord_lat data) (coord_lon data)
                             (API_CONFIG_key env)))
                   (started
                      (Fetch (WeatherByCoords (coord_lat data)
                                (coord_lon data) (API_CONFIG_key env))) s2)))
      as (g & ->).
    reflexivity.
  - destruct (getWeatherByCoordinates_starts_fetch env (coord_lat data)
                (coord_lon data) (Some city) s2) as (rest & ->).
    exists rest. rewrite Hi2, <- app_assoc. reflexivity.
  - intros Hfail.
    assert (Hlen : List.length (initiated s2) = S (List.length (initiated s)))
      by (rewrite Hi2, length_app; simpl; lia).
    rewrite <- Hlen in Hfail.
    rewrite getWeatherByCoordinates_cases. cbv zeta.
    set (s3 := started _ s2).
    destruct (showError_effect fetchErrorMessage s3)
      as (_ & Herr & _ & _ & _ & Hdata & _).
    destruct (weatherEndpoint env (List.length (initiated s2)) _)
      as [[[|] [currentData|]]|];
      try discriminate Hfail; (split; [exact Hdata | exact Herr]).
Qed.

Lemma getWeatherByCity_found_witness :
  currentLocation
    (snd (getWeatherByCity (answering someKey) "London"
            (initialState blankPage)))
  = {| lat := Some (515 # 10); lon := Some (- (1 # 10)) |}.
Proof.
  apply (@getWeatherByCity_found (answering someKey) "London"
           (initialState blankPage) london).
  reflexivity.
Defined.

(** *** Searching *)

(** The text holds the white space of ASCII only, if anything. *)
Definition blank (text : string) : bool :=
  forallb isWhiteSpace (list_ascii_of_string text).

(** The text is made of ASCII characters. *)
Definition isAscii (text : string) : bool :=
  forallb (fun c => Nat.ltb (nat_of_ascii c) 128) (list_ascii_of_string text).

(** The string of the given bytes. *)
Definition utf8 (bytes : list nat) : string :=
  string_of_list_ascii (map ascii_of_nat bytes).

(** The white space and the line terminators of JavaScript, which
    [trim] removes: the six of ASCII, U+00A0, U+1680, U+2000 to U+200A,
    U+2028, U+2029, U+202F, U+205F, U+3000 and U+FEFF. *)
Definition whiteSpace : list string :=
  map utf8
    [ [9]; [10]; [11]; [12]; [13]; [32];
      [194; 160];
      [225; 154; 128];
      [226; 128; 128]; [226; 128; 129]; [226; 128; 130]; [226; 128; 131];
      [226; 128; 132]; [226; 128; 133]; [226; 128; 134]; [226; 128; 135];
      [226; 128; 136]; [226; 128; 137]; [226; 128; 138];
      [226; 128; 168]; [226; 128; 169]; [226; 128; 175];
      [226; 129; 159];
      [227; 128; 128];
      [239; 187; 191] ]%nat.

(** The text is made of white space only, if of anything. *)
Definition whiteSpaceOnly (text : string) : Prop :=
  exists ws,
    Forall (fun w => In w whiteSpace) ws /\
    text = String.concat EmptyString ws.

Definition firstChar (text : string) : option ascii :=
  match text with
  | String c _ => Some c
  | EmptyString => None
  end.

Fixpoint lastChar (text : string) : option ascii :=
  match text with
  | String c rest =>
      match lastChar rest with
      | Some d => Some d
      | None => Some c
      end
  | EmptyString => None
  end.

Lemma blank_cons c text :
  blank (String c text) = (isWhiteSpace c && blank text)%bool.
Proof. reflexivity. Qed.

Lemma isAscii_cons c text :
  isAscii (String c text)
  = (Nat.ltb (nat_of_ascii c) 128 && isAscii text)%bool.
Proof. reflexivity. Qed.

(** A byte of ASCII begins no white space of two or three bytes. *)
Lemma ascii_begins_itself c c2 c3 :
  Nat.ltb (nat_of_ascii c) 128 = true ->
  isWhiteSpace2 c c2 = false /\ isWhiteSpace3 c c2 c3 = false.
Proof.
  intros Hc. apply Nat.ltb_lt in Hc.
  unfold isWhiteSpace2, isWhiteSpace3. cbv zeta.
  destruct (Nat.eqb_spec (nat_of_ascii c) 194); [lia|].
  destruct (Nat.eqb_spec (nat_of_ascii c) 225); [lia|].
  destruct (Nat.eqb_spec (nat_of_ascii c) 226); [lia|].
  destruct (Nat.eqb_spec (nat_of_ascii c) 227); [lia|].
  destruct (Nat.eqb_spec (nat_of_ascii c) 239); [lia|].
  split; reflexivity.
Qed.

Lemma trimStart_space c rest :
  isWhiteSpace c = true -> trimStart (String c rest) = trimStart rest.
Proof. intros Hc. cbn [trimStart]. now rewrite Hc. Qed.

Lemma trimStart_ascii c rest :
  Nat.ltb (nat_of_ascii c) 128 = true -> isWhiteSpace c = false ->
  trimStart (String c rest) = String c rest.
Proof.
  intros Hc Hw. cbn [trimStart]. rewrite Hw.
  destruct rest as [|c2 [|c3 rest]]; try reflexivity.
  - now rewrite (proj1 (@ascii_begins_itself c c2 c2 Hc)).
  - rewrite (proj1 (@ascii_begins_itself c c2 c3 Hc)).
    now rewrite (proj2 (@ascii_begins_itself c c2 c3 Hc)).
Qed.

Lemma trimStart_blank text :
  blank text = true -> trimStart text = EmptyString.
Proof.
  induction text as [|c text IH]; [reflexivity|].
  rewrite blank_cons. intros H. apply andb_prop in H as [Hc Ht].
  rewrite (@trimStart_space c text Hc). now apply IH.
Qed.

Lemma trimStart_not_blank text :
  isAscii text = true -> blank text = false ->
  exists c rest,
    trimStart text = String c rest /\ isWhiteSpace c = false /\
    trimStart (String c rest) = String c rest.
Proof.
  induction text as [|c text IH]; [discriminate|].
  rewrite isAscii_cons, blank_cons. intros Ha Hb.
  apply andb_prop in Ha as [Hc Ha].
  destruct (isWhiteSpace c) eqn:Hw.
  - rewrite (@trimStart_space c text Hw). now apply IH.
  - exists c, text. rewrite (@trimStart_ascii c text Hc Hw). now repeat split.
Qed.

Lemma trimEnd_empty text :
  trimEnd text = EmptyString <-> isWhite text = true.
Proof.
  destruct text as [|c text]; [split; reflexivity|].
  cbn [trimEnd]. destruct (isWhite (String c text)); split;
    (reflexivity || discriminate).
Qed.

Lemma trim_of_white text : trimStart text = EmptyString -> trim text = EmptyString.
Proof. intros H. unfold trim. now rewrite H. Qed.

Lemma trim_empty text :
  isAscii text = true -> (trim text = EmptyString <-> blank text = true).
Proof.
  intros Ha. split; intros H.
  - destruct (blank text) eqn:E; [reflexivity|].
    destruct (@trimStart_not_blank text Ha E) as (c & rest & Hs & _ & Hfix).
    unfold trim in H. rewrite Hs in H. apply trimEnd_empty in H.
    unfold isWhite in H. rewrite Hfix in H. discriminate.
  - apply trim_of_white. now apply trimStart_blank.
Qed.

Lemma trimEnd_firstChar c rest :
  trimStart (String c rest) = String c rest ->
  firstChar (trimEnd (String c rest)) = Some c.
Proof.
  intros Hfix. cbn [trimEnd]. unfold isWhite. now rewrite Hfix.
Qed.

Lemma lastChar_cons c d rest :
  lastChar (String c (String d rest)) = lastChar (String d rest).
Proof.
  change (lastChar (String c (String d rest)))
    with (match lastChar (String d rest) with
          | Some e => Some e
          | None => Some c
          end).
  simpl. now destruct (lastChar rest).
Qed.

Lemma trimEnd_lastChar text d :
  lastChar (trimEnd text) = Some d -> isWhiteSpace d = false.
Proof.
  induction text as [|c text IH]; [discriminate|].
  cbn [trimEnd]. destruct (isWhite (String c text)) eqn:Hs; [discriminate|].
  destruct (trimEnd text) as [|e rest] eqn:E.
  - simpl. intros H. injection H as <-.
    destruct (isWhiteSpace c) eqn:Hc; [|reflexivity].
    apply trimEnd_empty in E. unfold isWhite in Hs, E.
    rewrite (@trimStart_space c text Hc) in Hs. rewrite Hs in E. discriminate.
  - rewrite lastChar_cons. exact IH.
Qed.

(** [trim] removes each of the white space characters. *)
Lemma trimStart_whiteSpace w text :
  In w whiteSpace -> trimStart (w ++ text) = trimStart text.
Proof.
  intros Hw. unfold whiteSpace in Hw. simpl in Hw.
  repeat (destruct Hw as [<-|Hw]; [reflexivity|]). contradiction.
Qed.

Lemma trim_whiteSpaceOnly text : whiteSpaceOnly text -> trim text = EmptyString.
Proof.
  intros (ws & Hws & ->). apply trim_of_white.
  induction Hws as [|w ws Hw Hall IH]; [reflexivity|].
  destruct ws as [|w' ws].
  - assert (Hnil : forall x : string, (x ++ EmptyString)%string = x)
      by (induction x; simpl; congruence).
    simpl. rewrite <- (Hnil w). now rewrite (@trimStart_whiteSpace w _ Hw).
  - change (String.concat EmptyString (w :: w' :: ws))
      with (w ++ String.concat EmptyString (w' :: ws)).
    now rewrite (@trimStart_whiteSpace w _ Hw).
Qed.

(** A no-break space, an em space and a space. *)
Definition spaces : string := utf8 [194; 160; 226; 128; 131; 32]%nat.

(** X20.  A search on an input that holds nothing but white space, of
    ASCII or beyond it, starts no operation and stores nothing: it
    returns with the request to enter a city name on show. *)
Theorem handleSearch_blank env s :
  whiteSpaceOnly (cityInput_value (elements s)) ->
  fst (handleSearch env s) = Return tt /\
  initiated (snd (handleSearch env s)) = initiated s /\
  currentLocation (snd (handleSearch env s)) = currentLocation s /\
  currentWeatherData (snd (handleSearch env s)) = currentWeatherData s /\
  textContent (elements (snd (handleSearch env s))) errorText
  = [Str "Please enter a city name"] /\
  isHidden (snd (handleSearch env s)) errorMessage = false.
Proof.
  intros Hblank. apply trim_whiteSpaceOnly in Hblank.
  unfold handleSearch, bind, gets. rewrite Hblank.
  destruct (showError_effect [Str "Please enter a city name"] s)
    as (Hr & Herr & Hvisible & _ & _ & Hdata & Hops).
  split; [exact Hr|]. split; [exact Hops|]. split; [reflexivity|].
  split; [exact Hdata|]. split; [exact Herr | exact Hvisible].
Qed.

Lemma handleSearch_blank_witness :
  initiated
    (snd (handleSearch (answering someKey)
            (snd (setCityInputValue spaces (initialState blankPage)))))
  = [].
Proof.
  apply (@handleSearch_blank (answering someKey)
           (snd (setCityInputValue spaces (initialState blankPage)))).
  exists [utf8 [194; 160]%nat; utf8 [226; 128; 131]%nat; utf8 [32]%nat].
  split; [|reflexivity].
  repeat constructor; vm_compute; tauto.
Defined.

(** X21.  A search on an input of ASCII characters that are not all white
    space is [getWeatherByCity] on the trimmed input: the city looked up
    begins and ends with a character that is not white space, and its
    lookup is the first operation started. *)
Theorem handleSearch_trimmed env s :
  isAscii (cityInput_value (elements s)) = true ->
  blank (cityInput_value (elements s)) = false ->
  let city := trim (cityInput_value (elements s)) in
  handleSearch env s = getWeatherByCity env city s /\
  (exists first last,
     firstChar city = Some first /\ isWhiteSpace first = false /\
     lastChar city = Some last /\ isWhiteSpace last = false) /\
  exists rest,
    initiated (snd (handleSearch env s))
    = (initiated s ++
       Fetch (WeatherByCity city (API_CONFIG_key env)) :: rest)%list.
Proof.
  intros Hascii Hblank city.
  assert (Hcity : city <> EmptyString).
  { unfold city. rewrite (@trim_empty _ Hascii). congruence. }
  assert (Hsearch : handleSearch env s = getWeatherByCity env city s).
  { unfold handleSearch, bind, gets. fold city. now destruct city. }
  split; [exact Hsearch|]. split.
  - destruct (@trimStart_not_blank _ Hascii Hblank)
      as (c & rest & Hstart & Hc & Hfix).
    destruct (lastChar city) as [d|] eqn:Hlast.
    + exists c, d. split; [|split; [exact Hc|split; [reflexivity|]]].
      * unfold city, trim. rewrite Hstart. now apply trimEnd_firstChar.
      * apply (trimEnd_lastChar _ Hlast).
    + destruct city as [|e rest']; [congruence|].
      simpl in Hlast. now destruct (lastChar rest').
  - rewrite Hsearch.
    destruct (getWeatherByCity_starts_fetch env city s) as (_ & rest & Hops).
    now exists rest.
Qed.

Lemma handleSearch_trimmed_witness :
  handleSearch (answering someKey)
    (snd (setCityInputValue "  New York " (initialState blankPage)))
  = getWeatherByCity (answering someKey) "New York"
      (snd (setCityInputValue "  New York " (initialState blankPage))).
Proof.
  apply (@handleSearch_trimmed (answering someKey)
           (snd (setCityInputValue "  New York " (initialState blankPage))));
    reflexivity.
Defined.

(** *** What fetching and drawing leave alone *)

(** The search input, the unit, the two unit buttons, the listeners and
    the timers are the same in [s'] as in [s]. *)
Definition sameControls (s s' : State) : Prop :=
  cityInput_value (elements s') = cityInput_value (elements s) /\
  currentUnit s' = currentUnit s /\
  classList (elements s') celsiusBtn = classList (elements s) celsiusBtn /\
  classList (elements s') fahrenheitBtn
  = classList (elements s) fahrenheitBtn /\
  listeners s' = listeners s /\
  intervals s' = intervals s.

Lemma sameControls_refl s : sameControls s s.
Proof. repeat split. Qed.

Lemma sameControls_trans s1 s2 s3 :
  sameControls s1 s2 -> sameControls s2 s3 -> sameControls s1 s3.
Proof.
  intros (H1 & H2 & H3 & H4 & H5 & H6) (K1 & K2 & K3 & K4 & K5 & K6).
  repeat split; congruence.
Qed.

Ltac controls_leaf :=
  first
    [ intros ?; repeat split; reflexivity
    | intros ?; unfold fetchWeather;
      match goal with |- context [weatherEndpoint ?e ?n ?r] =>
        destruct (weatherEndpoint e n r) end; repeat split; reflexivity
    | intros ?; unfold fetchForecast;
      match goal with |- context [forecastEndpoint ?e ?n ?r] =>
        destruct (forecastEndpoint e n r) end; repeat split; reflexivity ].

Ltac controls_statement :=
  repeat first
    [ progress (cbv zeta)
    | progress (statement_by sameControls_refl sameControls_trans
                  controls_leaf) ].

Lemma controls_updateCurrentWeatherUI env data :
  always sameControls (updateCurrentWeatherUI env data).
Proof.
  unfold updateCurrentWeatherUI, firstCondition. controls_statement.
Qed.

Lemma controls_updateForecastUI env data :
  always sameControls (updateForecastUI env data).
Proof.
  unfold updateForecastUI, createForecastCard. controls_statement.
Qed.

Lemma controls_render env data : always sameControls (render env data).
Proof.
  apply (always_bind sameControls_trans);
    [apply controls_updateCurrentWeatherUI | intros ?].
  apply controls_updateForecastUI.
Qed.

Lemma controls_getWeatherByCoordinates env la lo cityName :
  always sameControls (getWeatherByCoordinates env la lo cityName).
Proof.
  unfold getWeatherByCoordinates, jsonOf.
  apply (always_tryCatch sameControls_trans); [|intros ?; controls_statement].
  apply (always_bind sameControls_trans); [controls_statement | intros ?].
  apply (always_bind sameControls_trans); [controls_statement | intros ?].
  apply (always_bind sameControls_trans); [controls_statement | intros ?].
  apply (always_bind sameControls_trans); [controls_statement | intros ?].
  apply (always_bind sameControls_trans); [controls_statement | intros ?].
  apply (always_bind sameControls_trans); [controls_statement | intros ?].
  apply (always_bind sameControls_trans); [controls_statement | intros ?].
  apply (always_bind sameControls_trans);
    [apply controls_updateCurrentWeatherUI | intros ?].
  apply (always_bind sameControls_trans);
    [apply controls_updateForecastUI | intros ?].
  unfold updateLastUpdated. controls_statement.
Qed.

Lemma controls_getWeatherByCity env city :
  always sameControls (getWeatherByCity env city).
Proof.
  unfold getWeatherByCity, jsonOf.
  apply (always_bind sameControls_trans); [controls_statement | intros ?].
  apply (always_tryCatch sameControls_trans); [|intros ?; controls_statement].
  apply (always_bind sameControls_trans); [controls_statement | intros ?].
  apply (always_bind sameControls_trans); [controls_statement | intros ?].
  apply (always_bind sameControls_trans); [controls_statement | intros ?].
  apply (always_bind sameControls_trans); [controls_statement | intros ?].
  apply controls_getWeatherByCoordinates.
Qed.

Lemma controls_getCurrentLocation env :
  always sameControls (getCurrentLocation env).
Proof. unfold getCurrentLocation. controls_statement. Qed.

Lemma controls_loadDefaultWeather env :
  always sameControls (loadDefaultWeather env).
Proof.
  unfold loadDefaultWeather.
  apply (always_tryCatch sameControls_trans); [|intros ?; controls_statement].
  destruct (hasGeolocation env);
    [apply controls_getCurrentLocation | apply controls_getWeatherByCity].
Qed.

Lemma controls_handleSearch env : always sameControls (handleSearch env).
Proof.
  unfold handleSearch.
  apply (always_bind sameControls_trans); [controls_statement | intros city].
  destruct city; [controls_statement | apply controls_getWeatherByCity].
Qed.

(** *** The city lookups of a session *)

Definition cityOf (op : Operation) : list string :=
  match op with
  | Fetch (WeatherByCity city _) => [city]
  | _ => []
  end.

(** The cities looked up so far, in order. *)
Definition citiesLookedUp (s : State) : list string :=
  flat_map cityOf (initiated s).

Lemma citiesLookedUp_started op s :
  citiesLookedUp (started op s) = (citiesLookedUp s ++ cityOf op)%list.
Proof.
  unfold citiesLookedUp, started. simpl.
  rewrite flat_map_app. simpl. now rewrite app_nil_r.
Qed.

Lemma citiesLookedUp_showError message s :
  citiesLookedUp (snd (showError message s)) = citiesLookedUp s.
Proof. reflexivity. Qed.

Lemma getWeatherByCoordinates_lookups env la lo cityName s :
  citiesLookedUp (snd (getWeatherByCoordinates env la lo cityName s))
  = citiesLookedUp s.
Proof.
  rewrite getWeatherByCoordinates_cases. cbv zeta.
  set (w := Fetch (WeatherByCoords la lo (API_CONFIG_key env))).
  set (f := Fetch (ForecastByCoords la lo (API_CONFIG_key env))).
  assert (H1 : citiesLookedUp (started w s) = citiesLookedUp s)
    by (rewrite citiesLookedUp_started; apply app_nil_r).
  assert (H2 : citiesLookedUp (started f (started w s)) = citiesLookedUp s)
    by (rewrite citiesLookedUp_started, H1; apply app_nil_r).
  destruct (weatherEndpoint env _ _) as [[[|] [currentData|]]|];
    try (rewrite citiesLookedUp_showError; exact H1).
  destruct (forecastEndpoint env _ _) as [[[|] [forecastData|]]|];
    try (rewrite citiesLookedUp_showError; exact H2).
  destruct (storeAndRender_state env currentData forecastData
              (started f (started w s))) as (g & ->).
  exact H2.
Qed.

Lemma getWeatherByCity_lookups env city s :
  citiesLookedUp (snd (getWeatherByCity env city s))
  = (citiesLookedUp s ++ [city])%list.
Proof.
  rewrite getWeatherByCity_cases. cbv zeta.
  set (s1 := started _ _).
  assert (H1 : citiesLookedUp s1 = (citiesLookedUp s ++ [city])%list)
    by (unfold s1; now rewrite citiesLookedUp_started).
  destruct (weatherEndpoint env _ _) as [[[|] [data|]]|];
    try (rewrite citiesLookedUp_showError; exact H1).
  rewrite getWeatherByCoordinates_lookups. exact H1.
Qed.

Lemma getWeatherByCity_returns env city s :
  fst (getWeatherByCity env city s) = Return tt.
Proof. apply getWeatherByCity_starts_fetch. Qed.

Lemma handleSearch_returns env s : fst (handleSearch env s) = Return tt.
Proof.
  unfold handleSearch, bind, gets.
  destruct (trim _); [apply showError_effect | apply getWeatherByCity_returns].
Qed.

Lemma handleSearch_lookups env s :
  trim (cityInput_value (elements s)) <> EmptyString ->
  citiesLookedUp (snd (handleSearch env s))
  = (citiesLookedUp s ++ [trim (cityInput_value (elements s))])%list.
Proof.
  intros Hcity. unfold handleSearch, bind, gets.
  destruct (trim (cityInput_value (elements s))) as [|c city] eqn:E.
  - congruence.
  - apply getWeatherByCity_lookups.
Qed.

(** *** The listeners of the loaded page *)

Definition addListener (l : list Listener) (x : Listener) : list Listener :=
  if in_dec Listener_eq_dec x l then l else (l ++ [x])%list.

Lemma addEventListener_effect target type callback s :
  addEventListener target type callback s
  = (Return tt,
     set_listeners (addListener (listeners s) (target, type, callback)) s).
Proof.
  unfold addEventListener, modify, addListener.
  destruct (in_dec _ _ _); [now destruct s | reflexivity].
Qed.

(** The listeners once both [DOMContentLoaded] listeners have run. *)
Definition loadedListeners : list Listener :=
  [(Document, "DOMContentLoaded", firstInit);
   (Window, "unhandledrejection", onUnhandledRejection);
   (Window, "error", onError);
   (Document, "DOMContentLoaded", gatedInit);
   (Document, "keydown", keyboardShortcuts);
   (Element searchBtn, "click", handleSearchFn);
   (Element cityInput, "keypress", onEnterKey 1);
   (Element locationBtn, "click", getCurrentLocationFn);
   (Element celsiusBtn, "click", switchTo 1 celsius);
   (Element fahrenheitBtn, "click", switchTo 1 fahrenheit);
   (Element cityInput, "keypress", onEnterKey 2);
   (Element celsiusBtn, "click", switchTo 2 celsius);
   (Element fahrenheitBtn, "click", switchTo 2 fahrenheit);
   (Element cityInput, "focus", selectOnFocus)].

Lemma loadDefaultWeather_returns env s :
  fst (loadDefaultWeather env s) = Return tt.
Proof. apply tryCatch_showError_returns. Qed.

Lemma initializeEventListeners_effect s :
  fst (initializeEventListeners s) = Return tt /\
  listeners (snd (initializeEventListeners s))
  = fold_left addListener
      [(Element searchBtn, "click", handleSearchFn);
       (Element cityInput, "keypress", onEnterKey 2);
       (Element locationBtn, "click", getCurrentLocationFn);
       (Element celsiusBtn, "click", switchTo 2 celsius);
       (Element fahrenheitBtn, "click", switchTo 2 fahrenheit);
       (Element cityInput, "focus", selectOnFocus)]
      (listeners s) /\
  initiated (snd (initializeEventListeners s)) = initiated s.
Proof.
  unfold initializeEventListeners, bind.
  repeat (rewrite addEventListener_effect; cbv beta iota).
  repeat split.
Qed.

Lemma loaded_listeners env page :
  isApiKeyConfigured env = true ->
  listeners (run env page [DOMContentLoaded]) = loadedListeners.
Proof.
  intros Hkey. unfold run. cbn [fold_left].
  set (s0 := snd (loadScript (initialState page))).
  assert (Hreg : listenersOf DOMContentLoaded s0 = [firstInit; gatedInit])
    by reflexivity.
  unfold dispatch. rewrite Hreg. cbn [fold_left].
  set (s1 := invoke env DOMContentLoaded s0 firstInit).
  assert (H1 : listeners s1 = firstn 10 loadedListeners).
  { unfold s1, invoke.
    set (wired := snd ((addEventListener (Element searchBtn) "click" handleSearchFn ;;
                        addEventListener (Element cityInput) "keypress" (onEnterKey 1) ;;
                        addEventListener (Element locationBtn) "click" getCurrentLocationFn ;;
                        addEventListener (Element celsiusBtn) "click" (switchTo 1 celsius) ;;
                        addEventListener (Element fahrenheitBtn) "click" (switchTo 1 fahrenheit)) s0)).
    change (call env firstInit DOMContentLoaded s0)
      with (loadDefaultWeather env wired).
    rewrite (surjective_pairing (loadDefaultWeather env wired)).
    rewrite loadDefaultWeather_returns, keepsListeners_loadDefaultWeather.
    reflexivity. }
  clearbody s1. unfold invoke.
  assert (Hcall : call env gatedInit DOMContentLoaded s1
                  = loadDefaultWeather env (snd (initializeEventListeners s1))).
  { cbn [call]. unfold checkApiKeyConfiguration. rewrite Hkey.
    cbn [negb]. unfold bind at 1, ret at 1. cbn [negb]. unfold bind at 1.
    destruct (initializeEventListeners_effect s1) as (Hr & _).
    rewrite (surjective_pairing (initializeEventListeners s1)), Hr.
    reflexivity. }
  rewrite Hcall.
  rewrite (surjective_pairing (loadDefaultWeather env _)).
  rewrite loadDefaultWeather_returns, keepsListeners_loadDefaultWeather.
  destruct (initializeEventListeners_effect s1) as (_ & -> & _).
  rewrite H1. reflexivity.
Qed.

(** X22.  With a configured key, both [DOMContentLoaded] listeners wire
    the page.  The functions registered by name, [handleSearch] and
    [getCurrentLocation], end up registered once; the function expressions
    are new functions each time, so that the search input has two keypress
    listeners and each unit button two click listeners. *)
Theorem loaded_page_listeners env page :
  isApiKeyConfigured env = true ->
  let s := run env page [DOMContentLoaded] in
  registeredFor (Element searchBtn) "click" s = [handleSearchFn] /\
  registeredFor (Element locationBtn) "click" s = [getCurrentLocationFn] /\
  registeredFor (Element cityInput) "keypress" s
  = [onEnterKey 1; onEnterKey 2] /\
  registeredFor (Element celsiusBtn) "click" s
  = [switchTo 1 celsius; switchTo 2 celsius] /\
  registeredFor (Element fahrenheitBtn) "click" s
  = [switchTo 1 fahrenheit; switchTo 2 fahrenheit] /\
  registeredFor (Element cityInput) "focus" s = [selectOnFocus] /\
  registeredFor Document "keydown" s = [keyboardShortcuts].
Proof.
  intros Hkey s. unfold registeredFor, s.
  rewrite (@loaded_listeners env page Hkey). repeat split.
Qed.

Lemma loaded_page_listeners_witness :
  registeredFor (Element cityInput) "keypress"
    (run (answering someKey) blankPage [DOMContentLoaded])
  = [onEnterKey 1; onEnterKey 2].
Proof.
  apply (@loaded_page_listeners (answering someKey) blankPage).
  reflexivity.
Defined.

Lemma invoke_handleSearch env e s callback :
  call env callback e = handleSearch env ->
  invoke env e s callback = snd (handleSearch env s).
Proof.
  intros Hcall. unfold invoke. rewrite Hcall.
  rewrite (surjective_pairing (handleSearch env s)).
  now rewrite handleSearch_returns.
Qed.

(** X23.  With a configured key, on the loaded page, the Enter key in a
    search input of ASCII characters that are not all white space looks
    the trimmed city up twice, once for each keypress listener; a click
    on the search button looks it up once. *)
Theorem enter_searches_twice env page text :
  isApiKeyConfigured env = true ->
  isAscii text = true ->
  blank text = false ->
  citiesLookedUp
    (run env page [DOMContentLoaded; Typed text; Keypress "Enter"])
  = (citiesLookedUp (run env page [DOMContentLoaded]) ++
     [trim text; trim text])%list /\
  citiesLookedUp
    (run env page [DOMContentLoaded; Typed text; Click searchBtn])
  = (citiesLookedUp (run env page [DOMContentLoaded]) ++ [trim text])%list.
Proof.
  intros Hkey Hascii Hblank.
  assert (Hcity : trim text <> EmptyString).
  { rewrite (@trim_empty _ Hascii). congruence. }
  pose proof (@loaded_listeners env page Hkey) as Hl.
  unfold run in *. cbn [fold_left] in *.
  set (s0 := snd (loadScript (initialState page))) in *.
  set (s1 := dispatch env s0 DOMContentLoaded) in *. clearbody s1.
  set (s2 := dispatch env s1 (Typed text)).
  assert (H2 : listeners s2 = loadedListeners /\
               cityInput_value (elements s2) = text /\
               citiesLookedUp s2 = citiesLookedUp s1)
    by (split; [exact Hl | split; reflexivity]).
  clearbody s2. destruct H2 as (Hl2 & Hin2 & Hc2).
  assert (Hkeys : listenersOf (Keypress "Enter") s2
                  = [onEnterKey 1; onEnterKey 2])
    by (unfold listenersOf, registeredFor; now rewrite Hl2).
  assert (Hclick : listenersOf (Click searchBtn) s2 = [handleSearchFn])
    by (unfold listenersOf, registeredFor; now rewrite Hl2).
  split.
  - unfold dispatch. rewrite Hkeys. cbn [fold_left].
    rewrite !(@invoke_handleSearch env (Keypress "Enter")) by reflexivity.
    destruct (controls_handleSearch env s2) as (Hin3 & _).
    rewrite handleSearch_lookups by (rewrite Hin3, Hin2; exact Hcity).
    rewrite handleSearch_lookups by (rewrite Hin2; exact Hcity).
    rewrite Hin3, Hin2, Hc2, <- app_assoc. reflexivity.
  - unfold dispatch. rewrite Hclick. cbn [fold_left].
    rewrite (@invoke_handleSearch env (Click searchBtn)) by reflexivity.
    rewrite handleSearch_lookups by (rewrite Hin2; exact Hcity).
    now rewrite Hin2, Hc2.
Qed.

Lemma enter_searches_twice_witness :
  citiesLookedUp
    (run (answering someKey) blankPage
       [DOMContentLoaded; Typed " Paris"; Keypress "Enter"])
  = ["Paris"; "Paris"].
Proof.
  apply (@enter_searches_twice (answering someKey) blankPage " Paris");
    reflexivity.
Defined.

(** *** The unit buttons *)

(** The button marked [active] is the one of the unit in use. *)
Definition buttonsMatch (s : State) : Prop :=
  hasToken "active" (classList (elements s) celsiusBtn)
  = unit_eqb (currentUnit s) celsius /\
  hasToken "active" (classList (elements s) fahrenheitBtn)
  = unit_eqb (currentUnit s) fahrenheit.

Definition buttonsKept (s s' : State) : Prop :=
  buttonsMatch s -> buttonsMatch s'.

Lemma buttonsKept_refl s : buttonsKept s s.
Proof. intros H. exact H. Qed.

Lemma buttonsKept_trans s1 s2 s3 :
  buttonsKept s1 s2 -> buttonsKept s2 s3 -> buttonsKept s1 s3.
Proof. unfold buttonsKept. tauto. Qed.

Lemma buttonsKept_controls s s' : sameControls s s' -> buttonsKept s s'.
Proof.
  intros (_ & Hu & Hc & Hf & _) [H1 H2]. unfold buttonsMatch.
  now rewrite Hu, Hc, Hf.
Qed.

Lemma buttons_of_controls (A : Type) (m : M A) :
  always sameControls m -> always buttonsKept m.
Proof. intros Hm s. apply buttonsKept_controls, Hm. Qed.

Lemma unitSelected_buttons unit s : buttonsMatch (unitSelected unit s).
Proof.
  unfold unitSelected, classList_toggle, buttonsMatch.
  destruct unit; simpl; split;
    first [apply hasToken_add | apply hasToken_remove].
Qed.

Lemma buttons_switchTemperatureUnit env unit :
  always buttonsKept (switchTemperatureUnit env unit).
Proof.
  intros s H. rewrite switchTemperatureUnit_cases.
  destruct (unit_eqb (currentUnit s) unit); [exact H|].
  destruct (currentWeatherData s) as [data|].
  - apply (buttonsKept_controls (controls_render env data (unitSelected unit s))).
    apply unitSelected_buttons.
  - apply unitSelected_buttons.
Qed.

Ltac buttons_leaf :=
  first
    [ intros ? H; exact H
    | intros ? H; unfold addEventListener, modify; simpl;
      match goal with |- context [in_dec ?d ?x ?l] => destruct (in_dec d x l) end;
      exact H
    | apply buttons_of_controls;
      first [ apply controls_loadDefaultWeather
            | apply controls_handleSearch
            | apply controls_getCurrentLocation
            | apply controls_getWeatherByCoordinates ] ].

Ltac buttons_statement :=
  repeat first
    [ progress (cbv zeta)
    | progress (statement_by buttonsKept_refl buttonsKept_trans
                  buttons_leaf) ].

Lemma buttons_call env callback e : always buttonsKept (call env callback e).
Proof.
  destruct callback; cbn [call].
  - buttons_statement.
  - unfold checkApiKeyConfiguration, initializeEventListeners.
    apply (always_bind buttonsKept_trans);
      [buttons_statement | intros configured].
    destruct (negb configured); buttons_statement.
  - buttons_statement.
  - destruct e as [| |key| | | | | |];
      try apply (always_ret buttonsKept_refl).
    destruct (String.eqb key "Enter"); buttons_statement.
  - buttons_statement.
  - apply buttons_switchTemperatureUnit.
  - apply (always_ret buttonsKept_refl).
  - destruct e as [| | | |ctrlKey metaKey key| | | |];
      try apply (always_ret buttonsKept_refl).
    apply (always_bind buttonsKept_trans).
    + destruct ((ctrlKey || metaKey) && String.eqb key "l")%bool;
        buttons_statement.
    + intros _. destruct (String.eqb key "Escape"); buttons_statement.
  - buttons_statement.
  - buttons_statement.
Qed.

Lemma buttons_invoke env e s callback :
  buttonsKept s (invoke env e s callback).
Proof.
  unfold invoke. pose proof (@buttons_call env callback e s) as Hcall.
  destruct (call env callback e s) as [[[]|err] s']; simpl in Hcall;
    [exact Hcall|].
  apply buttonsKept_trans with s'; [exact Hcall|].
  apply (always_fold buttonsKept_refl buttonsKept_trans).
  intros s1 handler. apply buttons_call.
Qed.

Lemma buttons_dispatch env s e : buttonsKept s (dispatch env s e).
Proof.
  destruct e as [| | | | | |latitude longitude|code|text]; cbn [dispatch];
    try (apply (always_fold buttonsKept_refl buttonsKept_trans);
         intros s1 callback; apply buttons_invoke).
  - destruct (intervals s); [apply buttonsKept_refl|].
    revert s. change (always buttonsKept (autoRefresh env)).
    unfold autoRefresh.
    apply (always_bind buttonsKept_trans);
      [buttons_statement | intros location].
    destruct (truthyCoord (lat location) && truthyCoord (lon location))%bool;
      [|buttons_statement].
    destruct (lat location), (lon location); buttons_statement.
  - destruct (pendingPositions s) as [|n]; [apply buttonsKept_refl|].
    apply buttonsKept_trans with (set_pendingPositions n s);
      [intros H; exact H|].
    generalize (set_pendingPositions n s).
    change (always buttonsKept (onPosition env latitude longitude)).
    unfold onPosition. buttons_statement.
  - destruct (pendingPositions s) as [|n]; [apply buttonsKept_refl|].
    intros H. exact H.
  - intros H. exact H.
Qed.

(** A page with the Celsius button marked. *)
Definition celsiusPage : Elements :=
  {| textContent := fun _ => [];
     classList := fun el =>
       match el with
       | celsiusBtn => ["unit-btn"; "active"]
       | fahrenheitBtn => ["unit-btn"]
       | _ => []
       end;
     cityInput_value := EmptyString;
     forecastCards := [] |}.

(** X24.  On a page that comes with the Celsius button marked active and
    the Fahrenheit button not, the button marked active is the one of the
    unit in use after every sequence of events, whatever the provider
    answers and also when a rendering throws. *)
Theorem active_button_names_unit env page es :
  buttonsMatch (initialState page) ->
  buttonsMatch (run env page es).
Proof.
  intros Hpage. unfold run.
  apply (always_fold buttonsKept_refl buttonsKept_trans
           (dispatch env) es (buttons_dispatch env)).
  unfold loadScript. exact Hpage.
Qed.

Lemma active_button_names_unit_witness :
  buttonsMatch
    (run (answering someKey) celsiusPage
       [DOMContentLoaded; PositionFound 51 0; Click fahrenheitBtn]).
Proof.
  apply (@active_button_names_unit (answering someKey) celsiusPage
           [DOMContentLoaded; PositionFound 51 0; Click fahrenheitBtn]).
  split; reflexivity.
Defined.

(** *** Asking for the position *)

Lemma getWeatherByCoordinates_session env la lo cityName s :
  pendingPositions (snd (getWeatherByCoordinates env la lo cityName s))
  = pendingPositions s /\
  currentLocation (snd (getWeatherByCoordinates env la lo cityName s))
  = currentLocation s.
Proof.
  rewrite getWeatherByCoordinates_cases. cbv zeta.
  destruct (weatherEndpoint env _ _) as [[[|] [currentData|]]|];
    try (split; reflexivity).
  destruct (forecastEndpoint env _ _) as [[[|] [forecastData|]]|];
    try (split; reflexivity).
  match goal with |- context [tryCatch _ _ ?st] =>
    destruct (storeAndRender_state env currentData forecastData st)
      as (g & ->)
  end.
  split; reflexivity.
Qed.

Definition isPositionOutcome (e : Event) : bool :=
  match e with
  | PositionFound _ _ | PositionFailed _ => true
  | _ => false
  end.

(** X25.  Where the browser has geolocation, [getCurrentLocation] puts
    the spinner on show and starts one position request, and nothing else;
    whichever way the request ends, the spinner is hidden again and the
    request is no longer pending.  A position found becomes the stored
    location and its current conditions are fetched first; a failure
    leaves the stored location alone and fetches nothing. *)
Theorem geolocation_round env s e :
  hasGeolocation env = true ->
  isPositionOutcome e = true ->
  let s1 := snd (getCurrentLocation env s) in
  let s2 := dispatch env s1 e in
  isHidden s1 loading = false /\
  initiated s1 = (initiated s ++ [GetCurrentPosition])%list /\
  pendingPositions s1 = S (pendingPositions s) /\
  isHidden s2 loading = true /\
  pendingPositions s2 = pendingPositions s /\
  match e with
  | PositionFound latitude longitude =>
      currentLocation s2 = {| lat := Some latitude; lon := Some longitude |} /\
      exists rest,
        initiated s2
        = (initiated s1 ++
           Fetch (WeatherByCoords latitude longitude (API_CONFIG_key env))
           :: rest)%list
  | _ => currentLocation s2 = currentLocation s /\ initiated s2 = initiated s1
  end.
Proof.
  intros Hgeo He s1 s2.
  assert (H1 : isHidden s1 loading = false /\
               initiated s1 = (initiated s ++ [GetCurrentPosition])%list /\
               pendingPositions s1 = S (pendingPositions s) /\
               currentLocation s1 = currentLocation s).
  { unfold s1, getCurrentLocation. rewrite Hgeo.
    split; [|now repeat split].
    unfold isHidden. simpl. apply hasToken_remove. }
  destruct H1 as (Hshown & Hops & Hpending & Hloc).
  split; [exact Hshown|]. split; [exact Hops|]. split; [exact Hpending|].
  unfold s2. clearbody s1. clear s2.
  destruct e as [| | | | | |latitude longitude|code|text]; try discriminate He;
    cbn [dispatch]; rewrite Hpending; cbv iota beta.
  - set (s' := set_currentLocation
                 {| lat := Some latitude; lon := Some longitude |}
                 (set_pendingPositions (pendingPositions s) s1)).
    change (snd (onPosition env latitude longitude
                   (set_pendingPositions (pendingPositions s) s1)))
      with (snd (getWeatherByCoordinates env latitude longitude None s')).
    destruct (getWeatherByCoordinates_session env latitude longitude None s')
      as [Hp Hl].
    split; [|split; [exact Hp | split; [exact Hl|]]].
    + rewrite getWeatherByCoordinates_cases. cbv zeta.
      destruct (weatherEndpoint env _ _) as [[[|] [currentData|]]|];
        try apply showError_hides_loading.
      destruct (forecastEndpoint env _ _) as [[[|] [forecastData|]]|];
        try apply showError_hides_loading.
      unfold tryCatch.
      destruct (storeAndRender env currentData forecastData _)
        as [[r|err] s''] eqn:E.
      * now apply storeAndRender_hides_loading in E.
      * apply showError_hides_loading.
    + apply (getWeatherByCoordinates_starts_fetch env latitude longitude
               None s').
  - split; [apply showError_hides_loading|]. split; [reflexivity|].
    split; [exact Hloc | reflexivity].
Qed.

Lemma geolocation_round_witness :
  isHidden
    (dispatch (answering someKey)
       (snd (getCurrentLocation (answering someKey) (initialState blankPage)))
       (PositionFailed 1)) loading
  = true.
Proof.
  apply (@geolocation_round (answering someKey) (initialState blankPage)
           (PositionFailed 1));
    reflexivity.
Defined.

(** *** What the handlers of last resort see *)

Lemma getCurrentLocation_returns env s :
  fst (getCurrentLocation env s) = Return tt.
Proof.
  unfold getCurrentLocation, bind. simpl. now destruct (hasGeolocation env).
Qed.

Lemma tryCatch_returned body handler s :
  fst (body s) = Return tt -> tryCatch body handler s = body s.
Proof.
  unfold tryCatch. destruct (body s) as [[a|e] s']; [reflexivity|discriminate].
Qed.

(** X26.  The [catch] of [loadDefaultWeather] is never entered: the
    function is [getCurrentLocation] where the browser has geolocation,
    with a position request and nothing else started, and the lookup of
    New York where it has none. *)
Theorem loadDefaultWeather_never_catches env s :
  loadDefaultWeather env s
  = (if hasGeolocation env then getCurrentLocation env s
     else getWeatherByCity env "New York" s) /\
  (if hasGeolocation env
   then initiated (snd (loadDefaultWeather env s))
        = (initiated s ++ [GetCurrentPosition])%list
   else citiesLookedUp (snd (loadDefaultWeather env s))
        = (citiesLookedUp s ++ ["New York"])%list).
Proof.
  assert (Hcases : loadDefaultWeather env s
                   = (if hasGeolocation env then getCurrentLocation env s
                      else getWeatherByCity env "New York" s)).
  { unfold loadDefaultWeather. destruct (hasGeolocation env).
    - apply tryCatch_returned, getCurrentLocation_returns.
    - apply tryCatch_returned, getWeatherByCity_returns. }
  split; [exact Hcases|]. rewrite Hcases.
  destruct (hasGeolocation env) eqn:Hgeo.
  - unfold getCurrentLocation. now rewrite Hgeo.
  - apply getWeatherByCity_lookups.
Qed.

Definition hasWeather (item : ForecastItem) : bool :=
  match item_weather item with
  | [] => false
  | _ => true
  end.

Lemma forallb_witness (A : Type) (f : A -> bool) l :
  forallb f l = false -> exists x, In x l /\ f x = false.
Proof.
  induction l as [|x l IH]; [discriminate|]. simpl.
  destruct (f x) eqn:E; simpl.
  - intros H. destruct (IH H) as (y & Hy & Hf). exists y. now split; [right|].
  - intros _. exists x. now split; [left|].
Qed.

Lemma render_returns env data s :
  cur_weather (current data) <> [] ->
  forallb hasWeather (forecast_list (forecast data)) = true ->
  fst (render env data s) = Return tt.
Proof.
  intros Hcurrent Hitems.
  destruct (nth_error (cur_weather (current data)) 0) as [c|] eqn:Hc;
    [|now destruct (cur_weather (current data))].
  destruct (updateCurrentWeatherUI_feelsLike env (current data) s Hc)
    as [Hr _].
  unfold render, bind.
  destruct (updateCurrentWeatherUI env (current data) s) as [r s1].
  simpl in Hr. subst r. apply updateForecastUI_returns.
  intros item Hitem. rewrite forallb_forall in Hitems.
  specialize (Hitems item Hitem). unfold hasWeather in Hitems.
  now destruct (item_weather item).
Qed.

Lemma addEventListener_returns target type callback s :
  fst (addEventListener target type callback s) = Return tt.
Proof. reflexivity. Qed.

(** X27.  The only listener of the script that can throw is a click on a
    unit button, and only when it changes the unit over a stored payload
    that lacks a weather entry, in its current conditions or in a sample
    of its forecast.  Every other listener returns normally, whatever the
    provider answers.  (Payloads have the fields the script reads; their
    lists of weather entries may be empty.) *)
Theorem only_unit_switch_throws env callback e s error :
  fst (call env callback e s) = Throw error ->
  exists site unit data,
    callback = switchTo site unit /\
    currentUnit s <> unit /\
    currentWeatherData s = Some data /\
    (cur_weather (current data) = [] \/
     exists item, In item (forecast_list (forecast data)) /\
                  item_weather item = []).
Proof.
  destruct callback as [| | |site| |site unit| | | |]; cbn [call].
  - unfold bind. simpl.
    repeat match goal with
    | |- context [in_dec ?d ?x ?l] => destruct (in_dec d x l); simpl
    end; now rewrite loadDefaultWeather_returns.
  - unfold checkApiKeyConfiguration.
    destruct (isApiKeyConfigured env); cbn [negb].
    + unfold bind at 1, ret at 1. cbn [negb]. unfold bind at 1.
      destruct (initializeEventListeners_effect s) as (Hr & _).
      rewrite (surjective_pairing (initializeEventListeners s)), Hr.
      now rewrite loadDefaultWeather_returns.
    + discriminate.
  - now rewrite handleSearch_returns.
  - destruct e as [| |key| | | | | |]; try discriminate.
    destruct (String.eqb key "Enter"); [|discriminate].
    now rewrite handleSearch_returns.
  - now rewrite getCurrentLocation_returns.
  - rewrite switchTemperatureUnit_cases.
    destruct (unit_eqb (currentUnit s) unit) eqn:Hunit; [discriminate|].
    destruct (currentWeatherData s) as [data|] eqn:Hdata; [|discriminate].
    intros Hthrow. exists site, unit, data.
    split; [reflexivity|]. split.
    { intros <-. now destruct (currentUnit s). }
    split; [reflexivity|].
    destruct (cur_weather (current data)) as [|c l] eqn:Hcurrent;
      [now left | right].
    destruct (forallb hasWeather (forecast_list (forecast data))) eqn:Hall.
    + rewrite (@render_returns env data (unitSelected unit s)) in Hthrow;
        [discriminate | now rewrite Hcurrent | exact Hall].
    + apply forallb_witness in Hall. destruct Hall as (item & Hin & Hw).
      exists item. split; [exact Hin|]. unfold hasWeather in Hw.
      now destruct (item_weather item).
  - discriminate.
  - destruct e as [| | | |ctrlKey metaKey key| | | |]; try discriminate.
    unfold bind.
    destruct ((ctrlKey || metaKey) && String.eqb key "l")%bool.
    + rewrite (surjective_pairing (getCurrentLocation env s)).
      rewrite getCurrentLocation_returns.
      destruct (String.eqb key "Escape"); discriminate.
    + simpl. destruct (String.eqb key "Escape"); discriminate.
  - discriminate.
  - discriminate.
Qed.

(** A payload whose current conditions lack the weather entry. *)
Definition noCondition : WeatherData :=
  {| current :=
       {| name := "London"; sys_country := "GB";
          sys_sunrise := 1793602800; sys_sunset := 1793637000;
          temp := 20; feels_like := 194 # 10; cur_humidity := 60;
          pressure := 1012; wind := 5; visibility := 10000;
          cur_weather := [];
          coord_lat := 515 # 10; coord_lon := - (1 # 10) |};
     forecast := londonForecast |}.

Lemma only_unit_switch_throws_witness :
  exists site unit data,
    switchTo 1 fahrenheit = switchTo site unit /\
    currentUnit
      (set_currentWeatherData (Some noCondition) (initialState blankPage))
    <> unit /\
    currentWeatherData
      (set_currentWeatherData (Some noCondition) (initialState blankPage))
    = Some data /\
    (cur_weather (current data) = [] \/
     exists item, In item (forecast_list (forecast data)) /\
                  item_weather item = []).
Proof.
  eapply (@only_unit_switch_throws (answering someKey) (switchTo 1 fahrenheit)
            (Click fahrenheitBtn)
            (set_currentWeatherData (Some noCondition)
               (initialState blankPage))).
  vm_compute. reflexivity.
Defined.

End Dashboard.
